(** * A shallow embedding of the tunnel server's request demultiplexer

    The development follows the Go sources: the utilities (name validation
    and random names), the chunked transfer reader with the [bufio.Reader]
    it reads through, the streaming HTTP processor, and the part of the
    forward handler that acquires tunnel names and TCP ports.

    Go strings and byte slices are lists of bytes ([list ascii]); Go maps
    are [gmap]s; [int] and [int64] are [Z] with the 64-bit wrap-around
    written out where the source does arithmetic on them. *)

From Stdlib Require Import ZArith List Ascii String Bool Lia.
From stdpp Require Import gmap strings list.

(** ** Bytes and the [strings] / [bytes] helpers the sources call *)

Abbreviation bytes := (list ascii).

(** A Go string literal. *)
Definition B (s : string) : bytes := list_ascii_of_string s.

Definition byteZ (c : ascii) : Z := Z.of_N (N_of_ascii c).

Definition CR : ascii := "013"%char.
Definition LF : ascii := "010"%char.
Definition CRLF : bytes := [CR; LF].

Definition byte_eqb (a b : ascii) : bool := Ascii.eqb a b.

Fixpoint bytes_eqb (s t : bytes) : bool :=
  match s, t with
  | [], [] => true
  | a :: s', b :: t' => byte_eqb a b && bytes_eqb s' t'
  | _, _ => false
  end.

(** [strings.HasPrefix]. *)
Fixpoint HasPrefix (s p : bytes) : bool :=
  match p, s with
  | [], _ => true
  | b :: p', a :: s' => byte_eqb a b && HasPrefix s' p'
  | _ :: _, [] => false
  end.

(** [strings.Index] / [bytes.Index]: the first position of [sep] in [s];
    [None] is Go's [-1]. *)
Fixpoint Index (s sep : bytes) : option nat :=
  if HasPrefix s sep then Some 0%nat
  else match s with
       | [] => None
       | _ :: s' => S <$> Index s' sep
       end.

Definition IndexByte (s : bytes) (c : ascii) : option nat := Index s [c].

Definition Contains (s sub : bytes) : bool :=
  match Index s sub with Some _ => true | None => false end.

(** [strings.Cut]. *)
Definition Cut (s sep : bytes) : bytes * bytes * bool :=
  match Index s sep with
  | Some i => (take i s, drop (i + length sep) s, true)
  | None => (s, [], false)
  end.

(** [strings.Replace (s, old, new, 1)] and [bytes.Replace (s, old, new, 1)]:
    only the first occurrence is replaced; an empty [old] matches at the
    start. *)
Definition ReplaceOnce (s old new : bytes) : bytes :=
  match Index s old with
  | Some i => take i s ++ new ++ drop (i + length old) s
  | None => s
  end.

Definition isUpper (c : ascii) : bool :=
  (byteZ "A" <=? byteZ c)%Z && (byteZ c <=? byteZ "Z")%Z.

Definition lowerByte (c : ascii) : ascii :=
  if isUpper c then ascii_of_N (N_of_ascii c + 32) else c.

(** [strings.ToLower] on ASCII input, where Go maps ['A'..'Z'] byte by byte.
    (On other input Go decodes UTF-8 runes; the statements below that
    depend on [ToLower] are about ASCII strings.) *)
Definition ToLower (s : bytes) : bytes := map lowerByte s.

Definition isASCII (c : ascii) : bool := (byteZ c <? 128)%Z.

Definition isDigit (c : ascii) : bool :=
  (byteZ "0" <=? byteZ c)%Z && (byteZ c <=? byteZ "9")%Z.

Definition isLower (c : ascii) : bool :=
  (byteZ "a" <=? byteZ c)%Z && (byteZ c <=? byteZ "z")%Z.

Definition DASH : ascii := "-"%char.

(** ** [strconv] *)

Module strconv.

Fixpoint digitsValue (acc : Z) (s : bytes) : option Z :=
  match s with
  | [] => Some acc
  | c :: s' => if isDigit c then digitsValue (acc * 10 + (byteZ c - byteZ "0"))%Z s'
               else None
  end.

(** [strconv.ParseInt (s, 10, 64)]: an optional sign, at least one decimal
    digit, and a value that fits [int64]; [None] is a non-nil error (syntax
    or range). *)
Definition ParseInt (s : bytes) : option Z :=
  match s with
  | [] => None
  | c :: s' =>
      let neg := byte_eqb c "-" in
      let body := if byte_eqb c "+" || neg then s' else s in
      match body with
      | [] => None
      | _ =>
          match digitsValue 0 body with
          | None => None
          | Some un =>
              if neg then (if (un <=? 2 ^ 63)%Z then Some (- un)%Z else None)
              else (if (un <? 2 ^ 63)%Z then Some un else None)
          end
      end
  end.

(** [strconv.Atoi] on a 64-bit platform agrees with [ParseInt (s, 10, 0)]. *)
Definition Atoi (s : bytes) : option Z := ParseInt s.

End strconv.

(** ** utils.go *)

Definition isNameChar (c : ascii) : bool :=
  isLower c || isDigit c || byte_eqb c DASH.

(** The body of the [for] loop of [tunnelNameValid], from index [i] on:
    [s] is [tunnelName[i:]]. *)
Fixpoint nameLoop (s : bytes) : bool :=
  match s with
  | [] => true
  | c :: rest =>
      if isNameChar c then
        if byte_eqb c DASH &&
           match rest with d :: _ => byte_eqb d DASH | [] => false end
        then false
        else nameLoop rest
      else false
  end.

Definition tunnelNameValid (tunnelName : bytes) : bool :=
  let nameValid := (length tunnelName <? 50)%nat in
  if bytes_eqb tunnelName [] || negb nameValid then false
  else
    let tunnelName := ToLower tunnelName in
    let nameValid :=
      if byte_eqb (hd DASH tunnelName) DASH || byte_eqb (List.last tunnelName DASH) DASH
      then false else nameValid in
    if nameValid then nameLoop tunnelName else nameValid.

(** [subDomainValid] of the older utils.go has the same body. *)
Definition subDomainValid (subdomain : bytes) : bool := tunnelNameValid subdomain.

Definition tunnelNameLength : nat := 4.

(** [charMap]: 0..9 to ['0'..'9'], 10..35 to ['a'..'z']. *)
Definition charMap (i : Z) : ascii :=
  if (i <=? 9)%Z then ascii_of_N (Z.to_N (i + byteZ "0"))
  else ascii_of_N (Z.to_N (byteZ "a" + i - 10)).

(** [generateRandomTunnelName]: [rand.Reader] is the list of bytes it will
    deliver; [io.ReadFull] fails when fewer than four are left. The result
    is the name and the rest of the random source. *)
Definition generateRandomTunnelName (rnd : bytes) : option (bytes * bytes) :=
  if (length rnd <? tunnelNameLength)%nat then None
  else Some (map (fun b => charMap (byteZ b mod 36)) (take tunnelNameLength rnd),
             drop tunnelNameLength rnd).

(** *** The name pattern as the specification words it *)

Definition isLowerAlnum (c : ascii) : bool := isLower c || isDigit c.

Fixpoint hasDoubleDash (s : bytes) : bool :=
  match s with
  | a :: (b :: _) as rest => (byte_eqb a DASH && byte_eqb b DASH) || hasDoubleDash rest
  | _ => false
  end.

(** [^[a-z0-9](?!.*--)[a-z0-9-]*[a-z0-9]$]: a first character, a lookahead
    over the remainder, a run of name characters and a last character. *)
Definition spec_nameRegex (s : bytes) : bool :=
  match s with
  | [] => false
  | c :: rest =>
      isLowerAlnum c && negb (hasDoubleDash rest) &&
      match rev rest with
      | [] => false
      | l :: mid => isLowerAlnum l && forallb isNameChar mid
      end
  end.

Definition spec_tunnelNameValid (s : bytes) : bool :=
  spec_nameRegex s && (length s <? 50)%nat.


(** ** io *)

Inductive error :=
| EOF
| ErrUnexpectedEOF
| ErrNoProgress
| ErrBufferFull
| ErrLineTooLong
| ErrorString (msg : string).

Definition error_eqb (a b : error) : bool :=
  match a, b with
  | EOF, EOF | ErrUnexpectedEOF, ErrUnexpectedEOF | ErrNoProgress, ErrNoProgress
  | ErrBufferFull, ErrBufferFull | ErrLineTooLong, ErrLineTooLong => true
  | ErrorString m, ErrorString m' => String.eqb m m'
  | _, _ => false
  end.

Definition isErr (e : option error) (x : error) : bool :=
  match e with Some y => error_eqb y x | None => false end.

Definition isNil (e : option error) : bool :=
  match e with Some _ => false | None => true end.

(** [io.Reader]: [Read r n] is [r.Read(p)] with [len(p) = n]; it gives the
    bytes stored at the front of [p], the error, and the reader afterwards. *)
Module io.

Class Reader (R : Type) := Read : R -> nat -> bytes * option error * R.

(** A reader never stores more than [len(p)] bytes. *)
Class ReaderOK (R : Type) `{Reader R} :=
  Read_le : forall (r : R) (n : nat), (length (Read r n).1.1 <= n)%nat.

End io.

(** A source that hands out its data in the given pieces, one piece (or the
    part of it that fits) per call, and then reports [EOF]: a
    [strings.Reader] is the one-piece case, a socket delivers several. *)
Definition pieces := list bytes.

#[global] Instance pieces_Reader : io.Reader pieces := fun r n =>
  match r with
  | [] => ([], Some EOF, [])
  | s :: rest =>
      if (length s <=? n)%nat then (s, None, rest)
      else (take n s, None, drop n s :: rest)
  end.

#[global] Instance pieces_ReaderOK : io.ReaderOK pieces.
Proof.
  intros r n. destruct r as [|s rest]; cbn; [lia|].
  destruct (Nat.leb_spec (length s) n); cbn; [lia|].
  rewrite length_take. lia.
Qed.

(** [dst[off:off+len(data)] = data]. *)
Definition writeAt (dst : bytes) (off : nat) (data : bytes) : bytes :=
  take off dst ++ data ++ drop (off + length data) dst.

(** [s[lo:hi]]. *)
Definition slice (s : bytes) (lo hi : nat) : bytes := take (hi - lo) (drop lo s).

(** ** bufio.Reader

    The fields of Go's [bufio.Reader] apart from the underlying reader
    [rd], which every operation takes and returns next to the buffer state
    (the chunked reader's source is shared with other readers). *)

Module bufio.

Definition defaultBufSize : nat := 4096.
Definition minReadBufferSize : nat := 16.
Definition maxConsecutiveEmptyReads : nat := 100.

Record Reader := mk {
  buf : bytes;
  r : nat;
  w : nat;
  err : option error;
}.

Definition NewReaderSize (size : nat) : Reader :=
  {| buf := repeat zero (Nat.max size minReadBufferSize); r := 0; w := 0; err := None |}.

Definition NewReader : Reader := NewReaderSize defaultBufSize.

Definition Buffered (b : Reader) : nat := w b - r b.

(** [b.readErr()]: the pending error, cleared. *)
Definition readErr (b : Reader) : option error * Reader :=
  (err b, {| buf := buf b; r := r b; w := w b; err := None |}).

Section over_a_reader.
Context {R : Type} `{!io.Reader R}.

(** [b.fill()]: slide the unread bytes to the front, then read once into
    the free tail, retrying an empty read up to 100 times. *)
Definition slide (b : Reader) : Reader :=
  if (0 <? r b)%nat
  then {| buf := writeAt (buf b) 0 (slice (buf b) (r b) (w b));
          r := 0; w := w b - r b; err := err b |}
  else b.

Fixpoint fillLoop (i : nat) (b : Reader) (rd : R) : Reader * R :=
  match i with
  | O => ({| buf := buf b; r := r b; w := w b; err := Some ErrNoProgress |}, rd)
  | S i' =>
      let '(data, e, rd') := io.Read rd (length (buf b) - w b) in
      let b' := {| buf := writeAt (buf b) (w b) data; r := r b;
                   w := w b + length data; err := err b |} in
      match e with
      | Some e' => ({| buf := buf b'; r := r b'; w := w b'; err := Some e' |}, rd')
      | None => if (0 <? length data)%nat then (b', rd') else fillLoop i' b' rd'
      end
  end.

Definition fill (b : Reader) (rd : R) : Reader * R :=
  fillLoop maxConsecutiveEmptyReads (slide b) rd.

(** [b.ReadSlice(delim)]. The line is a view of the buffer, [buf[off:off+len]],
    given by its offset and length: "the bytes stop being valid at the next
    read". Every pass of the loop that does not return makes the buffered
    part longer, so [length buf + 2] passes are enough; [fuel] counts them. *)
Fixpoint ReadSliceLoop (fuel : nat) (delim : ascii) (s : nat) (b : Reader) (rd : R)
  : (nat * nat) * option error * Reader * R :=
  match fuel with
  | O => ((r b, 0%nat), Some ErrNoProgress, b, rd)
  | S fuel' =>
      match IndexByte (slice (buf b) (r b + s) (w b)) delim with
      | Some i =>
          let i := (i + s)%nat in
          ((r b, S i), None,
           {| buf := buf b; r := r b + i + 1; w := w b; err := err b |}, rd)
      | None =>
          match err b with
          | Some e =>
              ((r b, w b - r b), Some e,
               {| buf := buf b; r := w b; w := w b; err := None |}, rd)
          | None =>
              if (length (buf b) <=? Buffered b)%nat
              then ((0%nat, length (buf b)), Some ErrBufferFull,
                    {| buf := buf b; r := w b; w := w b; err := err b |}, rd)
              else
                let s' := (w b - r b)%nat in
                let '(b', rd') := fill b rd in
                ReadSliceLoop fuel' delim s' b' rd'
          end
      end
  end.

Definition ReadSlice (delim : ascii) (b : Reader) (rd : R)
  : (nat * nat) * option error * Reader * R :=
  ReadSliceLoop (length (buf b) + 2) delim 0 b rd.

(** [b.Read(p)] with [len(p) = n]: at most one read of the underlying
    reader, straight into [p] when the buffer is empty and [p] is at least
    as large. *)
Definition Read (b : Reader) (rd : R) (n : nat) : bytes * option error * Reader * R :=
  if (n =? 0)%nat then
    if (0 <? Buffered b)%nat then ([], None, b, rd)
    else let '(e, b') := readErr b in ([], e, b', rd)
  else if (r b =? w b)%nat then
    match err b with
    | Some _ => let '(e, b') := readErr b in ([], e, b', rd)
    | None =>
        if (length (buf b) <=? n)%nat then
          let '(data, e, rd') := io.Read rd n in
          (data, e, b, rd')
        else
          let '(data, e, rd') := io.Read rd (length (buf b)) in
          let b1 := {| buf := writeAt (buf b) 0 data; r := 0; w := 0; err := e |} in
          if (length data =? 0)%nat then
            let '(e', b2) := readErr b1 in ([], e', b2, rd')
          else
            let w' := length data in
            let k := Nat.min n w' in
            (slice (buf b1) 0 k, None,
             {| buf := buf b1; r := k; w := w'; err := e |}, rd')
    end
  else
    let k := Nat.min n (w b - r b) in
    (slice (buf b) (r b) (r b + k), None,
     {| buf := buf b; r := r b + k; w := w b; err := err b |}, rd).

(** [io.ReadFull(b, p)] with [len(p) = n]: [io.ReadAtLeast]'s loop. [got]
    is what has been stored in [p] so far; [fuel] bounds the empty reads. *)
Fixpoint ReadFullLoop (fuel : nat) (n : nat) (got : bytes) (b : Reader) (rd : R)
  : option (bytes * option error * Reader * R) :=
  if (n <=? length got)%nat then Some (got, None, b, rd)
  else
    match fuel with
    | O => None
    | S fuel' =>
        let '(data, e, b', rd') := Read b rd (n - length got) in
        let got' := got ++ data in
        match e with
        | None => ReadFullLoop fuel' n got' b' rd'
        | Some e' =>
            if (n <=? length got')%nat then Some (got', None, b', rd')
            else if (0 <? length got')%nat && error_eqb e' EOF
                 then Some (got', Some ErrUnexpectedEOF, b', rd')
                 else Some (got', Some e', b', rd')
        end
    end.

End over_a_reader.

End bufio.

(** ** The chunked transfer reader *)

Module chunkedReader.

Definition maxLineLength : nat := 4096.

Definition isASCIISpace (b : ascii) : bool :=
  byte_eqb b " " || byte_eqb b "009" || byte_eqb b LF || byte_eqb b CR.

(** [trimTrailingWhitespace], on the reversed line. *)
Fixpoint trimLeadingRev (b : bytes) : bytes :=
  match b with
  | c :: b' => if isASCIISpace c then trimLeadingRev b' else b
  | [] => []
  end.

Definition trimTrailingWhitespace (b : bytes) : bytes := rev (trimLeadingRev (rev b)).

Definition removeChunkExtension (p : bytes) : bytes := (Cut p (B ";")).1.1.

(** The [switch] of [parseHexUint]: the value of a hexadecimal digit. *)
Definition hexValue (b : ascii) : option Z :=
  if isDigit b then Some (byteZ b - byteZ "0")%Z
  else if (byteZ "a" <=? byteZ b)%Z && (byteZ b <=? byteZ "f")%Z
       then Some (byteZ b - byteZ "a" + 10)%Z
  else if (byteZ "A" <=? byteZ b)%Z && (byteZ b <=? byteZ "F")%Z
       then Some (byteZ b - byteZ "A" + 10)%Z
  else None.

(** [parseHexUint]: the loop over [v] from index [i], with [n] so far. *)
Fixpoint parseHexLoop (i : nat) (n : Z) (v : bytes) : Z * option error :=
  match v with
  | [] => (n, None)
  | b :: v' =>
      match hexValue b with
      | None => (0%Z, Some (ErrorString "invalid byte in chunk length"))
      | Some d =>
          if (i =? 16)%nat then (0%Z, Some (ErrorString "http chunk length too large"))
          else parseHexLoop (S i) (Z.lor (Z.shiftl n 4) d) v'
      end
  end.

Definition parseHexUint (v : bytes) : Z * option error := parseHexLoop 0 0%Z v.

Record t := mkChunked {
  r : bufio.Reader;
  unreadBytesInChunk : Z;
  err : option error;
  buf : bytes;                      (* [2]byte *)
  checkEnd : bool;
  outputSlice : nat;                (* len(cp.outputSlice): room left in the caller's slice *)
  output : bytes;                   (* what this call has stored in the caller's slice *)
  outputBytesFromBody : nat;
  outputTotalBytesWritten : nat;
  line : nat * nat;                 (* cp.line, a view r.buf[off:off+len] *)
  unwrittenBytesInBuffer : nat;
}.

(** [NewChunkedReader(r)] for an [r] that is not a [*bufio.Reader]. *)
Definition NewChunkedReader : t :=
  {| r := bufio.NewReader; unreadBytesInChunk := 0; err := None;
     buf := [zero; zero]; checkEnd := false; outputSlice := 0; output := [];
     outputBytesFromBody := 0; outputTotalBytesWritten := 0; line := (0, 0)%nat;
     unwrittenBytesInBuffer := 0 |}.

(** [NewChunkedReader(r)] for an [r] that is a [*bufio.Reader]. *)
Definition NewChunkedReaderOn (br : bufio.Reader) : t :=
  {| r := br; unreadBytesInChunk := 0; err := None;
     buf := [zero; zero]; checkEnd := false; outputSlice := 0; output := [];
     outputBytesFromBody := 0; outputTotalBytesWritten := 0; line := (0, 0)%nat;
     unwrittenBytesInBuffer := 0 |}.

(** The bytes [cp.line] shows now: the buffer may have been refilled since
    the line was read. *)
Definition lineBytes (cp : t) : bytes :=
  slice (bufio.buf (r cp)) (line cp).1 ((line cp).1 + (line cp).2).

Definition set_err (e : option error) (cp : t) : t :=
  mkChunked (r cp) (unreadBytesInChunk cp) e (buf cp) (checkEnd cp) (outputSlice cp)
    (output cp) (outputBytesFromBody cp) (outputTotalBytesWritten cp) (line cp)
    (unwrittenBytesInBuffer cp).

Definition set_checkEnd (c : bool) (cp : t) : t :=
  mkChunked (r cp) (unreadBytesInChunk cp) (err cp) (buf cp) c (outputSlice cp)
    (output cp) (outputBytesFromBody cp) (outputTotalBytesWritten cp) (line cp)
    (unwrittenBytesInBuffer cp).

Definition chunkHeaderAvailable (cp : t) : bool :=
  let bufferedCount := bufio.Buffered (r cp) in
  if (0 <? bufferedCount)%nat then
    let peek := slice (bufio.buf (r cp)) (bufio.r (r cp)) (bufio.r (r cp) + bufferedCount) in
    match IndexByte peek LF with Some _ => true | None => false end
  else false.

(** [flushFooter]: [from] is [cp.buf[len(cp.buf)-unwritten:]]. *)
Definition flushFooter (cp : t) : t :=
  let n0 := Nat.min (outputSlice cp) (unwrittenBytesInBuffer cp) in
  let from := drop (length (buf cp) - unwrittenBytesInBuffer cp) (buf cp) in
  let unwritten := (unwrittenBytesInBuffer cp - n0)%nat in
  mkChunked (r cp) (unreadBytesInChunk cp) (err cp) (buf cp)
    (if (unwritten =? 0)%nat then false else checkEnd cp)
    (outputSlice cp - n0) (output cp ++ take n0 from)
    (outputBytesFromBody cp) (outputTotalBytesWritten cp + n0) (line cp) unwritten.

Definition flushLine (cp : t) : t :=
  let n0 := Nat.min (outputSlice cp) (unwrittenBytesInBuffer cp) in
  let from := drop ((line cp).2 - unwrittenBytesInBuffer cp) (lineBytes cp) in
  mkChunked (r cp) (unreadBytesInChunk cp) (err cp) (buf cp) (checkEnd cp)
    (outputSlice cp - n0) (output cp ++ take n0 from)
    (outputBytesFromBody cp) (outputTotalBytesWritten cp + n0) (line cp)
    (unwrittenBytesInBuffer cp - n0).

Definition zeroChunkLine : bytes := B "0" ++ CRLF.

Inductive flow (A : Type) := Continue (a : A) | Break (a : A).
Arguments Continue {A} a.
Arguments Break {A} a.

Section chunked_over_a_reader.
Context {R : Type} `{!io.Reader R}.

(** [readChunkLine]: the line without trailing white space and extension,
    or the error; [cp.line] and [cp.unwrittenBytesInBuffer] are set in
    both cases. *)
Definition readChunkLine (cp : t) (rd : R)
  : option bytes * option error * t * R :=
  let '(ln, e, b', rd') := bufio.ReadSlice LF (r cp) rd in
  let cp' := mkChunked b' (unreadBytesInChunk cp) (err cp) (buf cp) (checkEnd cp)
               (outputSlice cp) (output cp) (outputBytesFromBody cp)
               (outputTotalBytesWritten cp) ln ln.2 in
  match e with
  | Some e' =>
      let e'' := if error_eqb e' EOF then ErrUnexpectedEOF
                 else if error_eqb e' ErrBufferFull then ErrLineTooLong else e' in
      (None, Some e'', cp', rd')
  | None =>
      if (maxLineLength <=? ln.2)%nat then (None, Some ErrLineTooLong, cp', rd')
      else
        let p := trimTrailingWhitespace (lineBytes cp') in
        (Some (removeChunkExtension p), None, cp', rd')
  end.

Definition beginChunk (cp : t) (rd : R) : t * R :=
  let '(ln, e, cp', rd') := readChunkLine cp rd in
  match e, ln with
  | None, Some l =>
      let '(n, e') := parseHexUint l in
      (mkChunked (r cp') n e' (buf cp') (checkEnd cp') (outputSlice cp') (output cp')
         (outputBytesFromBody cp') (outputTotalBytesWritten cp') (line cp')
         (unwrittenBytesInBuffer cp'), rd')
  | _, _ => (set_err e cp', rd')
  end.

(** The last part of the loop body of [Read]: copy chunk data. *)
Definition readBody (cp : t) (rd : R) : flow (t * R) :=
  if (outputSlice cp =? 0)%nat then Break (cp, rd)
  else
    let tmp := if (unreadBytesInChunk cp <? Z.of_nat (outputSlice cp))%Z
               then Z.to_nat (unreadBytesInChunk cp) else outputSlice cp in
    let '(data, e, b', rd') := bufio.Read (r cp) rd tmp in
    let n0 := length data in
    let unread := (unreadBytesInChunk cp - Z.of_nat n0)%Z in
    let e' := if (unread =? 0)%Z && isNil e then e
              else if isErr e EOF then Some ErrUnexpectedEOF else e in
    Continue
      (mkChunked b' unread e' (buf cp)
         (if (unread =? 0)%Z && isNil e then true else checkEnd cp)
         (outputSlice cp - n0) (output cp ++ data) (outputBytesFromBody cp + n0)
         (outputTotalBytesWritten cp + n0) (line cp) (unwrittenBytesInBuffer cp), rd').

(** From "Write pending line into outputSlice if any" to the end of the
    loop body. *)
Definition readLineAndBody (cp : t) (rd : R) : flow (t * R) :=
  let afterLine (cp : t) :=
    if (unreadBytesInChunk cp =? 0)%Z then
      if (0 <? outputBytesFromBody cp)%nat && negb (chunkHeaderAvailable cp)
      then Break (cp, rd)
      else Continue (beginChunk cp rd)
    else readBody cp rd in
  if (0 <? unwrittenBytesInBuffer cp)%nat then
    if (outputSlice cp =? 0)%nat then Break (cp, rd)
    else
      let cp := flushLine cp in
      if negb (unwrittenBytesInBuffer cp =? 0)%nat then Break (cp, rd)
      else if (unreadBytesInChunk cp =? 0)%Z then
        if bytes_eqb (lineBytes cp) zeroChunkLine
        then Continue (set_checkEnd true cp, rd)
        else Continue (set_err (Some EOF) cp, rd)
      else afterLine cp
  else afterLine cp.

(** One pass of the [for cp.err == nil] loop of [Read]. *)
Definition readStep (fuel : nat) (cp : t) (rd : R)
  : option (flow (t * R)) :=
  if checkEnd cp then
    if (0 <? outputBytesFromBody cp)%nat && (bufio.Buffered (r cp) <? 2)%nat
       && (unwrittenBytesInBuffer cp =? 0)%nat
    then Some (Break (cp, rd))
    else
      let footer (cp : t) (rd : R) :=
        if (outputSlice cp =? 0)%nat then Break (cp, rd)
        else
          let cp := flushFooter cp in
          if (unreadBytesInChunk cp =? 0)%Z && (unwrittenBytesInBuffer cp =? 0)%nat
             && bytes_eqb (lineBytes cp) zeroChunkLine
          then Continue (set_err (Some EOF) cp, rd)
          else readLineAndBody cp rd in
      if (unwrittenBytesInBuffer cp =? 0)%nat then
        match bufio.ReadFullLoop fuel 2 [] (r cp) rd with
        | None => None
        | Some (got, e, b', rd') =>
            let cp' := mkChunked b' (unreadBytesInChunk cp) e (writeAt (buf cp) 0 got)
                         (checkEnd cp) (outputSlice cp) (output cp)
                         (outputBytesFromBody cp) (outputTotalBytesWritten cp)
                         (line cp) (length got) in
            match e with
            | None =>
                if negb (bytes_eqb (buf cp') CRLF)
                then Some (Break (set_err (Some (ErrorString "malformed chunked encoding")) cp', rd'))
                else Some (footer cp' rd')
            | Some e' =>
                if error_eqb e' EOF then Some (Break (set_err (Some ErrUnexpectedEOF) cp', rd'))
                else Some (Break (cp', rd'))
            end
        end
      else Some (footer cp rd)
  else Some (readLineAndBody cp rd).

Fixpoint readLoop (fuel : nat) (cp : t) (rd : R) : option (t * R) :=
  match err cp with
  | Some _ => Some (cp, rd)
  | None =>
      match fuel with
      | O => None
      | S fuel' =>
          match readStep fuel' cp rd with
          | None => None
          | Some (Break st) => Some st
          | Some (Continue (cp', rd')) => readLoop fuel' cp' rd'
          end
      end
  end.

(** [cp.Read(output)] with [len(output) = n]. [None]: the loop was still
    running after [fuel] passes. *)
Definition Read (fuel : nat) (cp : t) (rd : R) (n : nat)
  : option (bytes * option error * t * R) :=
  let cp0 := mkChunked (r cp) (unreadBytesInChunk cp) (err cp) (buf cp) (checkEnd cp)
               n [] 0 0 (line cp) (unwrittenBytesInBuffer cp) in
  match readLoop fuel cp0 rd with
  | None => None
  | Some (cp', rd') => Some (output cp', err cp', cp', rd')
  end.

(** Reading to the end: [Read] with a slice of [n] bytes until it reports
    an error; the bytes of all calls and that error. *)
Fixpoint readToEnd (calls fuel : nat) (n : nat) (cp : t) (rd : R)
  : option (bytes * error) :=
  match calls with
  | O => None
  | S calls' =>
      match Read fuel cp rd n with
      | None => None
      | Some (data, Some e, _, _) => Some (data, e)
      | Some (data, None, cp', rd') =>
          match readToEnd calls' fuel n cp' rd' with
          | Some (rest, e) => Some (data ++ rest, e)
          | None => None
          end
      end
  end.

End chunked_over_a_reader.

End chunkedReader.

(** ** External packages behind the processor

    [net/url] and [net/textproto] are not part of the repository: the
    processor is defined over their interface. [QueryGet u k] is
    [u.Query().Get(k)]; [ReadMIMEHeader] receives the bytes handed to the
    [textproto.Reader]. *)

Module net.

Class Lib := {
  URL : Type;
  ParseRequestURI : bytes -> option URL;
  QueryGet : URL -> bytes -> bytes;
  Path : URL -> bytes;
  ReadMIMEHeader : bytes -> gmap bytes (list bytes) + error;
}.

End net.

(** [httpguts.IsTokenRune]: the [tchar]s of RFC 7230; no rune above 127. *)
Definition isTokenByte (c : ascii) : bool :=
  isASCII c &&
  (isDigit c || isLower c || isUpper c || existsb (byte_eqb c) (B "!#$%&'*+-.^_`|~")).

(** An outcome of code that may stop with a run-time panic, or that the
    model stopped following after [fuel] loop passes. *)
Inductive outcome (A : Type) :=
| Done (a : A)
| Panic
| OutOfFuel.
Arguments Done {A} a.
Arguments Panic {A}.
Arguments OutOfFuel {A}.

(** ** The HTTP processor *)

Module httpProcessor.

(** [headerBodyReader]: [nil]; the processor itself (an upgraded
    connection); [io.MultiReader(io.LimitReader(h, N), NewChunkedReader(h))],
    whose [stage] counts the readers already at [EOF]; [io.LimitReader(h, N)].
    All of them read from the processor that holds them. *)
Inductive bodyReader :=
| nilReader
| selfReader
| multiReader (stage : nat) (N : Z) (cr : chunkedReader.t)
| limitReader (N : Z).

(** [int] and [int64] arithmetic wraps at 64 bits. *)
Definition wrap64 (x : Z) : Z := ((x + 2 ^ 63) mod 2 ^ 64 - 2 ^ 63)%Z.

Definition validMethod (method : bytes) : bool :=
  (0 <? length method)%nat && forallb isTokenByte method.

Definition parseRequestLine (line : bytes) : bytes * bytes * bytes * bool :=
  let '(method, rest, ok1) := Cut line (B " ") in
  let '(requestURI, proto, ok2) := Cut rest (B " ") in
  if negb ok1 || negb ok2 then ([], [], [], false)
  else (method, requestURI, proto, true).

Definition parseResponseLine (line : bytes) : option (bytes * bytes * Z) :=
  let '(protocol, status, ok) := Cut line (B " ") in
  if negb ok then None
  else
    let statusCodeText := (Cut status (B " ")).1.1 in
    if negb (length statusCodeText =? 3)%nat then None
    else match strconv.Atoi statusCodeText with
         | None => None
         | Some statusCode =>
             if (statusCode <? 0)%Z then None else Some (protocol, status, statusCode)
         end.

Section processor.
Context {R : Type} `{!io.Reader R} `{!net.Lib}.

(** The package variable [domainURL], set once at start-up. *)
Variable domainURL : bytes.

Record t := mk {
  buf : bytes;
  reader : R;
  bufReadPos : Z;
  bufWritePos : Z;
  totalBytes : Z;
  bufferBytesRead : Z;
  bufferUsed : bool;
  parsedHeaders : bool;
  lastError : option error;
  request : bool;
  requestMethod : bytes;
  requestRawURI : bytes;
  headers : option (gmap bytes (list bytes));
  URL : option net.URL;
  bodyStartsIndex : Z;
  bodyLength : Z;
  headerBodyReader : bodyReader;
  responseStatusCode : Z;
}.

Definition set_buf (v : bytes) (h : t) : t :=
  mk v (reader h) (bufReadPos h) (bufWritePos h) (totalBytes h) (bufferBytesRead h) (bufferUsed h) (parsedHeaders h) (lastError h) (request h) (requestMethod h) (requestRawURI h) (headers h) (URL h) (bodyStartsIndex h) (bodyLength h) (headerBodyReader h) (responseStatusCode h).
Definition set_reader (v : R) (h : t) : t :=
  mk (buf h) v (bufReadPos h) (bufWritePos h) (totalBytes h) (bufferBytesRead h) (bufferUsed h) (parsedHeaders h) (lastError h) (request h) (requestMethod h) (requestRawURI h) (headers h) (URL h) (bodyStartsIndex h) (bodyLength h) (headerBodyReader h) (responseStatusCode h).
Definition set_bufReadPos (v : Z) (h : t) : t :=
  mk (buf h) (reader h) v (bufWritePos h) (totalBytes h) (bufferBytesRead h) (bufferUsed h) (parsedHeaders h) (lastError h) (request h) (requestMethod h) (requestRawURI h) (headers h) (URL h) (bodyStartsIndex h) (bodyLength h) (headerBodyReader h) (responseStatusCode h).
Definition set_bufWritePos (v : Z) (h : t) : t :=
  mk (buf h) (reader h) (bufReadPos h) v (totalBytes h) (bufferBytesRead h) (bufferUsed h) (parsedHeaders h) (lastError h) (request h) (requestMethod h) (requestRawURI h) (headers h) (URL h) (bodyStartsIndex h) (bodyLength h) (headerBodyReader h) (responseStatusCode h).
Definition set_totalBytes (v : Z) (h : t) : t :=
  mk (buf h) (reader h) (bufReadPos h) (bufWritePos h) v (bufferBytesRead h) (bufferUsed h) (parsedHeaders h) (lastError h) (request h) (requestMethod h) (requestRawURI h) (headers h) (URL h) (bodyStartsIndex h) (bodyLength h) (headerBodyReader h) (responseStatusCode h).
Definition set_bufferBytesRead (v : Z) (h : t) : t :=
  mk (buf h) (reader h) (bufReadPos h) (bufWritePos h) (totalBytes h) v (bufferUsed h) (parsedHeaders h) (lastError h) (request h) (requestMethod h) (requestRawURI h) (headers h) (URL h) (bodyStartsIndex h) (bodyLength h) (headerBodyReader h) (responseStatusCode h).
Definition set_bufferUsed (v : bool) (h : t) : t :=
  mk (buf h) (reader h) (bufReadPos h) (bufWritePos h) (totalBytes h) (bufferBytesRead h) v (parsedHeaders h) (lastError h) (request h) (requestMethod h) (requestRawURI h) (headers h) (URL h) (bodyStartsIndex h) (bodyLength h) (headerBodyReader h) (responseStatusCode h).
Definition set_parsedHeaders (v : bool) (h : t) : t :=
  mk (buf h) (reader h) (bufReadPos h) (bufWritePos h) (totalBytes h) (bufferBytesRead h) (bufferUsed h) v (lastError h) (request h) (requestMethod h) (requestRawURI h) (headers h) (URL h) (bodyStartsIndex h) (bodyLength h) (headerBodyReader h) (responseStatusCode h).
Definition set_lastError (v : option error) (h : t) : t :=
  mk (buf h) (reader h) (bufReadPos h) (bufWritePos h) (totalBytes h) (bufferBytesRead h) (bufferUsed h) (parsedHeaders h) v (request h) (requestMethod h) (requestRawURI h) (headers h) (URL h) (bodyStartsIndex h) (bodyLength h) (headerBodyReader h) (responseStatusCode h).
Definition set_request (v : bool) (h : t) : t :=
  mk (buf h) (reader h) (bufReadPos h) (bufWritePos h) (totalBytes h) (bufferBytesRead h) (bufferUsed h) (parsedHeaders h) (lastError h) v (requestMethod h) (requestRawURI h) (headers h) (URL h) (bodyStartsIndex h) (bodyLength h) (headerBodyReader h) (responseStatusCode h).
Definition set_requestMethod (v : bytes) (h : t) : t :=
  mk (buf h) (reader h) (bufReadPos h) (bufWritePos h) (totalBytes h) (bufferBytesRead h) (bufferUsed h) (parsedHeaders h) (lastError h) (request h) v (requestRawURI h) (headers h) (URL h) (bodyStartsIndex h) (bodyLength h) (headerBodyReader h) (responseStatusCode h).
Definition set_requestRawURI (v : bytes) (h : t) : t :=
  mk (buf h) (reader h) (bufReadPos h) (bufWritePos h) (totalBytes h) (bufferBytesRead h) (bufferUsed h) (parsedHeaders h) (lastError h) (request h) (requestMethod h) v (headers h) (URL h) (bodyStartsIndex h) (bodyLength h) (headerBodyReader h) (responseStatusCode h).
Definition set_headers (v : option (gmap bytes (list bytes))) (h : t) : t :=
  mk (buf h) (reader h) (bufReadPos h) (bufWritePos h) (totalBytes h) (bufferBytesRead h) (bufferUsed h) (parsedHeaders h) (lastError h) (request h) (requestMethod h) (requestRawURI h) v (URL h) (bodyStartsIndex h) (bodyLength h) (headerBodyReader h) (responseStatusCode h).
Definition set_URL (v : option net.URL) (h : t) : t :=
  mk (buf h) (reader h) (bufReadPos h) (bufWritePos h) (totalBytes h) (bufferBytesRead h) (bufferUsed h) (parsedHeaders h) (lastError h) (request h) (requestMethod h) (requestRawURI h) (headers h) v (bodyStartsIndex h) (bodyLength h) (headerBodyReader h) (responseStatusCode h).
Definition set_bodyStartsIndex (v : Z) (h : t) : t :=
  mk (buf h) (reader h) (bufReadPos h) (bufWritePos h) (totalBytes h) (bufferBytesRead h) (bufferUsed h) (parsedHeaders h) (lastError h) (request h) (requestMethod h) (requestRawURI h) (headers h) (URL h) v (bodyLength h) (headerBodyReader h) (responseStatusCode h).
Definition set_bodyLength (v : Z) (h : t) : t :=
  mk (buf h) (reader h) (bufReadPos h) (bufWritePos h) (totalBytes h) (bufferBytesRead h) (bufferUsed h) (parsedHeaders h) (lastError h) (request h) (requestMethod h) (requestRawURI h) (headers h) (URL h) (bodyStartsIndex h) v (headerBodyReader h) (responseStatusCode h).
Definition set_headerBodyReader (v : bodyReader) (h : t) : t :=
  mk (buf h) (reader h) (bufReadPos h) (bufWritePos h) (totalBytes h) (bufferBytesRead h) (bufferUsed h) (parsedHeaders h) (lastError h) (request h) (requestMethod h) (requestRawURI h) (headers h) (URL h) (bodyStartsIndex h) (bodyLength h) v (responseStatusCode h).
Definition set_responseStatusCode (v : Z) (h : t) : t :=
  mk (buf h) (reader h) (bufReadPos h) (bufWritePos h) (totalBytes h) (bufferBytesRead h) (bufferUsed h) (parsedHeaders h) (lastError h) (request h) (requestMethod h) (requestRawURI h) (headers h) (URL h) (bodyStartsIndex h) (bodyLength h) (headerBodyReader h) v.

Definition newHttpProcessor (rd : R) (buffer : bytes) : t :=
  {| buf := buffer; reader := rd; bufReadPos := 0; bufWritePos := 0; totalBytes := 0;
     bufferBytesRead := 0; bufferUsed := false; parsedHeaders := false;
     lastError := None; request := false; requestMethod := []; requestRawURI := [];
     headers := None; URL := None; bodyStartsIndex := 0; bodyLength := 0;
     headerBodyReader := nilReader; responseStatusCode := 0 |}.

(** [h.headers[name]]; reading a nil map finds nothing. *)
Definition header (h : t) (name : bytes) : option (list bytes) :=
  match headers h with Some m => m !! name | None => None end.

Definition IsRequestChunked (h : t) : bool :=
  match header h (B "Transfer-Encoding") with
  | Some (l0 :: _) => bytes_eqb l0 (B "chunked")
  | _ => false
  end.

Definition GetContentLength (h : t) : Z * bool :=
  if IsRequestChunked h then (0, true)%Z
  else
    match header h (B "Content-Length") with
    | Some (l0 :: _) =>
        match strconv.ParseInt l0 with
        | None => (0, false)%Z
        | Some l =>
            let code := responseStatusCode h in
            if (code =? 204)%Z || (code =? 304)%Z || ((100 <=? code)%Z && (code <? 200)%Z)
            then (0, true)%Z
            else if negb (request h) && bytes_eqb (requestMethod h) (B "CONNECT")
                    && ((200 <=? code)%Z && (code <? 300)%Z)
            then (0, true)%Z
            else if negb (request h) && bytes_eqb (requestMethod h) (B "HEAD")
            then (0, true)%Z
            else (l, true)
        end
    | _ =>
        if request h then (wrap64 (bufferBytesRead h - bodyStartsIndex h), true)
        else if (0 <? wrap64 (bufferBytesRead h - bodyStartsIndex h))%Z
        then (wrap64 (2 ^ 63 - 1 - bufferBytesRead h), true)
        else (0, true)%Z
    end.

(** [adjustBodyReader]. ([v[0]] is read as for a list with an element:
    [textproto] and [replaceHeader] never store an empty list.) *)
Definition adjustBodyReader (h : t) : t :=
  let upgradeConn :=
    match header h (B "Connection") with
    | Some (v0 :: _) => bytes_eqb (ToLower v0) (B "upgrade")
    | _ => false
    end in
  if upgradeConn then set_headerBodyReader selfReader h
  else if IsRequestChunked h then
    set_headerBodyReader
      (multiReader 0 (bodyStartsIndex h) chunkedReader.NewChunkedReader) h
  else
    let h := set_bodyLength (GetContentLength h).1 h in
    set_headerBodyReader (limitReader (wrap64 (bodyStartsIndex h + bodyLength h))) h.

(** The start-line part of [Read]: request first, response otherwise. *)
Definition parseStartLine (line : bytes) (h : t) : t :=
  let '(method, requestURI, _, ok) := parseRequestLine line in
  let h :=
    if ok && validMethod method then
      let h := set_requestRawURI requestURI (set_requestMethod method (set_request true h)) in
      match net.ParseRequestURI requestURI with
      | Some u => set_URL (Some u) h
      | None => h
      end
    else h in
  if negb (request h) then
    match parseResponseLine line with
    | Some (_, _, responseStatusCode) =>
        set_request false (set_responseStatusCode responseStatusCode h)
    | None => h
    end
  else h.

(** The [if !h.parsedHeaders] block of [Read]: the processor afterwards
    and the error, if any, that [Read] records and returns. *)
Definition parseHeaders (h : t) : t * option error :=
  let h := set_request false h in
  match Index (buf h) CRLF with
  | None =>
      (h, Some (ErrorString "could not find the  http status line within the allocated buffer"))
  | Some firstLineEndPos =>
      match Index (buf h) (CRLF ++ CRLF) with
      | Some (S _ as delimiterIndex) =>
          let h := set_bodyStartsIndex (Z.of_nat delimiterIndex + 4) h in
          match net.ReadMIMEHeader (slice (buf h) (firstLineEndPos + 2) (delimiterIndex + 4)) with
          | inr e => (h, Some e)
          | inl mimeHeader =>
              let line := slice (buf h) 0 firstLineEndPos in
              let h := parseStartLine line h in
              let h := set_parsedHeaders true (set_headers (Some mimeHeader) h) in
              (adjustBodyReader h, None)
          end
      | _ => (h, Some (ErrorString "could not Read the headers within the allocated buffer"))
      end
  end.

(** [h.Read(p)] with [len(p) = n]. The slice [h.buf[h.bufReadPos:h.bufWritePos]]
    is in range as long as the cursors are. When the first read of the
    underlying reader fails, Go reports its count although nothing was
    stored in [p]; the count is kept as that many zero bytes. *)
Definition Read (h : t) (n : nat) : bytes * option error * t :=
  match lastError h with
  | Some e => ([], Some e, h)
  | None =>
      if negb (bufferUsed h) then
        let fill (h : t) : t * option (bytes * error) :=
          if negb (parsedHeaders h) && (bufReadPos h =? bufWritePos h)%Z then
            let h := set_bufWritePos 0 (set_bufReadPos 0 h) in
            let '(data, e, rd') := io.Read (reader h) (length (buf h)) in
            let h := set_reader rd' (set_buf (writeAt (buf h) 0 data) h) in
            match e with
            | Some e' => (set_lastError (Some e') h, Some (repeat zero (length data), e'))
            | None =>
                let h := set_totalBytes (wrap64 (totalBytes h + Z.of_nat (length data))) h in
                let h := set_bufferBytesRead (wrap64 (bufferBytesRead h + totalBytes h)) h in
                (set_bufWritePos (wrap64 (bufWritePos h + Z.of_nat (length data))) h, None)
            end
          else (h, None) in
        match fill h with
        | (h, Some (junk, e)) => (junk, Some e, h)
        | (h, None) =>
            let parsed : t * option error :=
              if negb (parsedHeaders h) then parseHeaders h else (h, None) in
            match parsed with
            | (h, Some e) => ([], Some e, set_lastError (Some e) h)
            | (h, None) =>
                if (n =? 0)%nat then ([], None, h)
                else
                  let avail := slice (buf h) (Z.to_nat (bufReadPos h)) (Z.to_nat (bufWritePos h)) in
                  let data := take n avail in
                  let h := set_bufReadPos (wrap64 (bufReadPos h + Z.of_nat (length data))) h in
                  let h := if (bufReadPos h =? bufWritePos h)%Z then set_bufferUsed true h else h in
                  (data, None, h)
            end
        end
      else
        let '(data, e, rd') := io.Read (reader h) n in
        let h := set_reader rd' h in
        let h := match e with Some _ => set_lastError e h | None => h end in
        (data, e, set_totalBytes (wrap64 (totalBytes h + Z.of_nat (length data))) h)
  end.

Definition ReadHeadersIfNeeded (h : t) : option error * t :=
  if negb (bufferUsed h) then
    let '(_, e, h') := Read h 0 in (e, h')
  else (None, h).

Definition GetHost (h : t) : (bytes + error) * t :=
  let '(e, h) := ReadHeadersIfNeeded h in
  match e with
  | Some e' => (inr e', h)
  | None =>
      let fromHeaders :=
        match header h (B "Host") with
        | Some [v] => inl v
        | _ => inr (ErrorString "could not find Host header")
        end in
      match URL h with
      | Some u =>
          let host := net.QueryGet u (B "host") in
          if negb (bytes_eqb host []) then (inl host, h) else (fromHeaders, h)
      | None => (fromHeaders, h)
      end
  end.

Definition adjustBufferPositions (offset : Z) (h : t) : t :=
  let h := set_bufWritePos (wrap64 (bufWritePos h + offset)) h in
  let h := set_bodyStartsIndex (wrap64 (bodyStartsIndex h + offset)) h in
  let h := set_bufferBytesRead (wrap64 (bufferBytesRead h + offset)) h in
  adjustBodyReader h.

(** The search loop of [replaceHeader] from cursor [c]: the position of
    [headerName] that follows a line feed and is followed by a colon.
    [Done None]: not found. The two index expressions panic when the name
    ends the buffer or starts it. The cursor advances by at least
    [len(headerName)] per pass; [fuel] counts the passes. *)
Fixpoint findHeader (fuel : nat) (b headerName : bytes) (c : nat) : outcome (option nat) :=
  match fuel with
  | O => OutOfFuel
  | S fuel' =>
      if (length b <=? c)%nat then Done None
      else
        match Index (drop c b) headerName with
        | None => Done None
        | Some start =>
            let c := (c + start)%nat in
            match drop (c + length headerName) b with
            | [] => Panic
            | x :: _ =>
                if negb (byte_eqb x ":") then findHeader fuel' b headerName (c + length headerName)
                else
                  match c with
                  | O => Panic
                  | S c1 =>
                      match drop c1 b with
                      | [] => Panic
                      | y :: _ =>
                          if negb (byte_eqb y LF)
                          then findHeader fuel' b headerName (c + length headerName)
                          else Done (Some c)
                      end
                  end
            end
        end
  end.

Definition replaceHeader (headerName headerValue : bytes) (h : t) : outcome t :=
  let h := (ReadHeadersIfNeeded h).2 in
  match headers h with
  | None => Done h
  | Some m =>
      match m !! headerName with
      | Some [oldHeader] =>
          let h := set_headers (Some (<[headerName := [headerValue]]> m)) h in
          if negb (bufferUsed h) then
            match findHeader (S (length (buf h))) (buf h) headerName 0 with
            | Panic => Panic
            | OutOfFuel => OutOfFuel
            | Done None => Done h
            | Done (Some start) =>
                match Index (drop start (buf h)) [LF] with
                | None => Done h
                | Some e =>
                    let end_ := (e + start)%nat in
                    let temp := slice (buf h) start end_ in
                    let tempFixed := ReplaceOnce temp oldHeader headerValue in
                    let h := set_buf (ReplaceOnce (buf h) temp tempFixed) h in
                    let headerDiff := (Z.of_nat (length headerValue) - Z.of_nat (length oldHeader))%Z in
                    Done (adjustBufferPositions headerDiff h)
                end
            end
          else Done h
      | _ => Done h
      end
  end.

Definition bind {A B : Type} (o : outcome A) (f : A -> outcome B) : outcome B :=
  match o with
  | Done a => f a
  | Panic => Panic
  | OutOfFuel => OutOfFuel
  end.

(** [SetHostHeader]: [Host], then [Origin] when it names the proxy domain. *)
Definition SetHostHeader (hostHeader : bytes) (h : t) : outcome t :=
  let h := (ReadHeadersIfNeeded h).2 in
  bind (replaceHeader (B "Host") hostHeader h) (fun h =>
    match headers h with
    | None => Done h
    | Some m =>
        match m !! B "Origin" with
        | Some [oldHeader] =>
            let domainEndIndex :=
              match Index domainURL (B "/") with
              | Some i => i
              | None => length domainURL
              end in
            let domain := take domainEndIndex domainURL in
            if Contains (ToLower oldHeader) (ToLower domain)
            then replaceHeader (B "Origin") (ReplaceOnce oldHeader domain hostHeader) h
            else Done h
        | _ => Done h
        end
    end).

(** The processor is itself an [io.Reader]. *)
#[local] Instance asReader : io.Reader t := Read.

(** [io.LimitReader(h, N).Read(p)]. *)
Definition limitRead (N : Z) (h : t) (n : nat) : bytes * option error * Z * t :=
  if (N <=? 0)%Z then ([], Some EOF, N, h)
  else
    let n' := if (N <? Z.of_nat n)%Z then Z.to_nat N else n in
    let '(data, e, h') := Read h n' in
    (data, e, (N - Z.of_nat (length data))%Z, h').

(** The chunked stage of the [io.MultiReader]. *)
Definition chunkedStage (fuel : nat) (N : Z) (cr : chunkedReader.t) (h : t) (n : nat)
  : outcome (bytes * option error * t) :=
  match chunkedReader.Read fuel cr h n with
  | None => OutOfFuel
  | Some (data, e, cr', h') =>
      let stage := if isErr e EOF then 2%nat else 1%nat in
      Done (data, e, set_headerBodyReader (multiReader stage N cr') h')
  end.

(** [h.headerBodyReader.Read(p)] with [len(p) = n]: the reader held by the
    processor reads from that same processor. Reading through a nil
    reader panics. *)
Definition bodyRead (fuel : nat) (h : t) (n : nat) : outcome (bytes * option error * t) :=
  match headerBodyReader h with
  | nilReader => Panic
  | selfReader => Done (Read h n)
  | limitReader N =>
      let '(data, e, N', h') := limitRead N h n in
      Done (data, e, set_headerBodyReader (limitReader N') h')
  | multiReader 0 N cr =>
      let '(data, e, N', h') := limitRead N h n in
      if isErr e EOF then
        if (0 <? length data)%nat
        then Done (data, None, set_headerBodyReader (multiReader 1 N' cr) h')
        else chunkedStage fuel N' cr h' n
      else Done (data, e, set_headerBodyReader (multiReader 0 N' cr) h')
  | multiReader 1 N cr => chunkedStage fuel N cr h n
  | multiReader _ N cr => Done ([], Some EOF, h)
  end.

Definition GetReader (h : t) : t := (ReadHeadersIfNeeded h).2.

(** A run of reads of the body reader with slices of the given sizes: what
    each read stored and reported. *)
Fixpoint bodyReads (fuel : nat) (h : t) (sizes : list nat)
  : outcome (list (bytes * option error)) :=
  match sizes with
  | [] => Done []
  | n :: sizes' =>
      bind (bodyRead fuel h n) (fun '(data, e, h') =>
        bind (bodyReads fuel h' sizes') (fun rest => Done ((data, e) :: rest)))
  end.

End processor.

Arguments t R {_}.

End httpProcessor.

(** ** The forward handler: tunnel names and TCP ports *)

Module forward.

Record sshTunnelsListenerData := mkTunnel {
  conn : bytes;                     (* the session that owns the tunnel *)
  reqPayload : bytes * Z;           (* BindAddr, BindPort *)
  sessionID : bytes;
  clientID : bytes;
  hostHeader : option bytes;
  connectionType : bytes;
}.

Record forwardsListenerData := mkForward {
  listener : option bytes;          (* the address listened on; [None] is a nil listener *)
  fClientID : bytes;
  fSessionID : bytes;
  conType : bytes;
}.

Fixpoint itoaLoop (fuel : nat) (n : Z) (acc : bytes) : bytes :=
  match fuel with
  | O => acc
  | S fuel' =>
      let acc' := ascii_of_N (Z.to_N (byteZ "0" + n mod 10)) :: acc in
      if (n <? 10)%Z then acc' else itoaLoop fuel' (n / 10)%Z acc'
  end.

(** [strconv.Itoa] for the port numbers of this file (never negative, at
    most twenty digits). *)
Definition Itoa (n : Z) : bytes := itoaLoop 20 n [].

(** [net.JoinHostPort]: a host with a colon is taken for an IPv6 literal. *)
Definition JoinHostPort (host port : bytes) : bytes :=
  if Contains host (B ":")
  then B "[" ++ host ++ B "]:" ++ port
  else host ++ B ":" ++ port.

(** The [for] loop that draws names while [tunnelNameTakenOrInvalid];
    [rnd] is what [rand.Reader] will deliver, and running out of it is the
    read error of [generateRandomTunnelName]. Every pass uses four bytes
    of [rnd], so [length rnd + 1] passes are enough. *)
Fixpoint drawName (fuel : nat) (addr : bytes) (tunnels : gmap bytes sshTunnelsListenerData)
    (tunnelName : bytes) (tunnelNameTakenOrInvalid : bool) (rnd : bytes)
  : option (bytes * bytes) :=
  if tunnelNameTakenOrInvalid then
    match fuel with
    | O => None
    | S fuel' =>
        match generateRandomTunnelName rnd with
        | None => None
        | Some (name, rnd') =>
            drawName fuel' addr tunnels name
              (match tunnels !! (addr ++ name) with Some _ => true | None => false end) rnd'
        end
    end
  else Some (tunnelName, rnd).

Record httpResult := mkHttpResult {
  granted : option bytes;           (* [None]: "error generating tunnelName" *)
  tunnels' : gmap bytes sshTunnelsListenerData;
  written : list bytes;             (* lines written to the session channel *)
  rnd' : bytes;
}.

(** The [http] / [https] branch of [forwardHandler] up to the insertion in
    [sshTunnelListeners]. *)
Definition acquireTunnelName (connId : bytes) (bindAddr : bytes) (bindPort : Z)
    (sessionHex cID tunnelName : bytes) (header : option bytes) (connType : bytes)
    (tunnels : gmap bytes sshTunnelsListenerData) (rnd : bytes) : httpResult :=
  let addr := JoinHostPort bindAddr (Itoa bindPort) in
  let nameValid := tunnelNameValid tunnelName in
  let w1 :=
    if negb (bytes_eqb tunnelName []) && negb nameValid
    then [B "Specified tunnelName '" ++ tunnelName ++ B "' not valid" ++ [LF]] else [] in
  let '(takenOrInvalid, w2) :=
    if nameValid then
      match tunnels !! (addr ++ tunnelName) with
      | Some s =>
          if bytes_eqb (clientID s) cID then (false, [])
          else (true, [B "Specified tunnelName '" ++ tunnelName ++ B "' already taken" ++ [LF]])
      | None => (false, [])
      end
    else (true, []) in
  match drawName (S (length rnd)) addr tunnels tunnelName takenOrInvalid rnd with
  | None => mkHttpResult None tunnels (w1 ++ w2) rnd
  | Some (name, rnd1) =>
      let data := mkTunnel connId (bindAddr, bindPort) sessionHex cID header connType in
      mkHttpResult (Some name) (<[addr ++ name := data]> tunnels) (w1 ++ w2) rnd1
  end.

(** The port scan of the TCP branch: [for p := 1000; p <= 1<<16; p++],
    with [count] passes left; the first [p] whose address has no entry. *)
Fixpoint scanPorts (count : nat) (bindAddr : bytes) (forwards : gmap bytes forwardsListenerData)
    (p : Z) : option Z :=
  match count with
  | O => None
  | S count' =>
      match forwards !! JoinHostPort bindAddr (Itoa p) with
      | None => Some p
      | Some _ => scanPorts count' bindAddr forwards (p + 1)%Z
      end
  end.

Definition lastScanned : Z := Z.shiftl 1 16.

Inductive reply :=
| Success (bindPort : Z)
| Failure.

Record tcpResult := mkTcpResult {
  tcpReply : reply;
  forwards' : gmap bytes forwardsListenerData;
  tcpWritten : list bytes;
  closed : list bytes;              (* listeners closed on the way *)
}.

(** The TCP branch of [forwardHandler] up to its reply. [listen addr] says
    whether [net.Listen("tcp", addr)] succeeds. Closing the nil listener of
    an absent entry panics. *)
Definition acquireTCPPort (listen : bytes -> bool) (bindAddr : bytes) (bindPort : Z)
    (sessionHex cID : bytes) (domainHost : bytes)
    (forwards : gmap bytes forwardsListenerData) : outcome tcpResult :=
  let addr0 := JoinHostPort bindAddr (Itoa bindPort) in
  let '(requestBindPort, payloadPort, addr) :=
    if (bindPort =? 0)%Z then
      match scanPorts (Z.to_nat (lastScanned - 1000 + 1)) bindAddr forwards 1000 with
      | Some p => (p, p, JoinHostPort bindAddr (Itoa p))
      | None => (0%Z, bindPort, JoinHostPort bindAddr (Itoa lastScanned))
      end
    else (bindPort, bindPort, addr0) in
  let o := forwards !! addr in
  let oClientID := match o with Some d => fClientID d | None => [] end in
  if negb (match o with Some _ => true | None => false end) || bytes_eqb oClientID cID then
    let closing : outcome (list bytes) :=
      if bytes_eqb oClientID cID then
        match o with
        | Some {| listener := Some l |} => Done [l]
        | _ => Panic
        end
      else Done [] in
    match closing with
    | Panic => Panic
    | OutOfFuel => OutOfFuel
    | Done cl =>
        if listen addr then
          Done (mkTcpResult (Success requestBindPort)
                  (<[addr := mkForward (Some addr) cID sessionHex (B "tcp")]> forwards)
                  [domainHost ++ B ":" ++ Itoa requestBindPort ++ [LF]] cl)
        else Done (mkTcpResult Failure forwards [] cl)
    end
  else
    Done (mkTcpResult Failure forwards
            [B "TCP port " ++ Itoa payloadPort ++ B " is already taken." ++ [LF]] []).

(** *** Notions for the statements about names and ports *)


(** The names that successive calls of [generateRandomTunnelName] make of
    the random source. *)
Fixpoint generatedNames (fuel : nat) (rnd : bytes) : list bytes :=
  match fuel with
  | O => []
  | S fuel' =>
      match generateRandomTunnelName rnd with
      | Some (name, rnd') => name :: generatedNames fuel' rnd'
      | None => []
      end
  end.

Definition allNames (rnd : bytes) : list bytes := generatedNames (S (length rnd)) rnd.

Definition addrOf (bindAddr : bytes) (p : Z) : bytes := JoinHostPort bindAddr (Itoa p).

End forward.


(** ** A small instance of the external interface

    Enough of [net/url] and [net/textproto] to run the processor on
    concrete messages: origin-form request targets ([/path?query]) without
    escapes, and header blocks of [Name: value] lines without folding. On
    such input it gives what the Go packages give. *)

Module toy.

Definition isUpperOrLower (c : ascii) : bool := isUpper c || isLower c.

Definition upperByte (c : ascii) : ascii :=
  if isLower c then ascii_of_N (N_of_ascii c - 32) else c.

(** [textproto.CanonicalMIMEHeaderKey] on a valid key. *)
Fixpoint canonicalKey (upper : bool) (k : bytes) : bytes :=
  match k with
  | [] => []
  | c :: k' =>
      (if upper then upperByte c else lowerByte c) :: canonicalKey (byte_eqb c DASH) k'
  end.

Fixpoint trimLeft (s : bytes) : bytes :=
  match s with
  | c :: s' => if byte_eqb c " " || byte_eqb c "009" then trimLeft s' else s
  | [] => []
  end.

Definition trim (s : bytes) : bytes := rev (trimLeft (rev (trimLeft s))).

(** The lines of [s], split at line feeds, without the carriage return. *)
Fixpoint lines (cur : bytes) (s : bytes) : list bytes :=
  match s with
  | [] => match cur with [] => [] | _ => [rev cur] end
  | c :: s' =>
      if byte_eqb c LF then
        rev (match cur with d :: cur' => if byte_eqb d CR then cur' else cur | [] => [] end)
        :: lines [] s'
      else lines (c :: cur) s'
  end.

Fixpoint headerLines (ls : list bytes) (m : gmap bytes (list bytes))
  : gmap bytes (list bytes) + error :=
  match ls with
  | [] => inr EOF
  | [] :: _ => inl m
  | l :: ls' =>
      match Index l (B ":") with
      | None => inr (ErrorString "malformed MIME header line")
      | Some i =>
          let k := canonicalKey true (take i l) in
          let v := trim (drop (S i) l) in
          headerLines ls' (<[k := default [] (m !! k) ++ [v]]> m)
      end
  end.

Definition ReadMIMEHeader (data : bytes) : gmap bytes (list bytes) + error :=
  headerLines (lines [] data) ∅.

Record URL := mkURL { Path : bytes; RawQuery : bytes }.

Definition ParseRequestURI (s : bytes) : option URL :=
  match s with
  | "/"%char :: _ => let '(p, q, _) := Cut s (B "?") in Some (mkURL p q)
  | _ => None
  end.

(** [u.Query().Get(k)]: the value of the first [k=value] pair. *)
Fixpoint queryGet (fuel : nat) (q k : bytes) : bytes :=
  match fuel with
  | O => []
  | S fuel' =>
      let '(kv, rest, more) := Cut q (B "&") in
      let '(key, value, _) := Cut kv (B "=") in
      if bytes_eqb key k then value
      else if more then queryGet fuel' rest k else []
  end.

Definition QueryGet (u : URL) (k : bytes) : bytes :=
  queryGet (S (length (RawQuery u))) (RawQuery u) k.

#[global] Instance lib : net.Lib :=
  {| net.URL := URL; net.ParseRequestURI := ParseRequestURI; net.QueryGet := QueryGet;
     net.Path := Path; net.ReadMIMEHeader := ReadMIMEHeader |}.

End toy.

(** ** Notions the statements below use *)

(** A byte that a valid name may hold: a letter of either case (the name
    is lower-cased first), a digit or a dash. *)
Definition nameByte (c : ascii) : bool :=
  isLower c || isUpper c || isDigit c || byte_eqb c DASH.

(** A processor as [handleHttpConnection] makes it: fresh from
    [newHttpProcessor], with the method of the request it answers stored
    when it wraps a response ([responseHttpProcessor.requestMethod = ...]). *)
Definition seeded {R : Type} `{!io.Reader R} `{!net.Lib}
    (rd : R) (buffer : bytes) (method : bytes) : httpProcessor.t R :=
  httpProcessor.set_requestMethod method (httpProcessor.newHttpProcessor rd buffer).

(** Two runs of a reader over sources that answer every [Read] alike:
    results are compared up to a relation on the sources. *)
Definition rel_pair {A R : Type} (Rel : R -> R -> Prop) (x y : A * R) : Prop :=
  x.1 = y.1 /\ Rel x.2 y.2.

Definition rel_opt {A R : Type} (Rel : R -> R -> Prop) (x y : option (A * R)) : Prop :=
  match x, y with
  | Some a, Some b => rel_pair Rel a b
  | None, None => True
  | _, _ => False
  end.

Definition rel_flow {A R : Type} (Rel : R -> R -> Prop)
    (x y : chunkedReader.flow (A * R)) : Prop :=
  match x, y with
  | chunkedReader.Continue a, chunkedReader.Continue b => rel_pair Rel a b
  | chunkedReader.Break a, chunkedReader.Break b => rel_pair Rel a b
  | _, _ => False
  end.

Definition rel_outcome {A R : Type} (Rel : R -> R -> Prop) (x y : outcome (A * R)) : Prop :=
  match x, y with
  | Done a, Done b => rel_pair Rel a b
  | Panic, Panic => True
  | OutOfFuel, OutOfFuel => True
  | _, _ => False
  end.

(** Two processors that differ at most in their parsed headers, the first
    (hence both) with its buffer drained. *)
Definition drainedAlike {R : Type} `{!net.Lib} (h1 h2 : httpProcessor.t R) : Prop :=
  httpProcessor.bufferUsed h1 = true /\
  httpProcessor.set_headers None h1 = httpProcessor.set_headers None h2.

(** ** Chunked streams

    The stream that [httputil.NewChunkedWriter] writes for a list of
    chunks, closed by the zero-length chunk and the last CRLF, as the
    tests of the reader build it. *)

Module stream.

Definition hexDigit (d : N) : ascii :=
  if (d <? 10)%N then ascii_of_N (N_of_ascii "0" + d) else ascii_of_N (N_of_ascii "a" + d - 10).

Fixpoint hexLoop (fuel : nat) (n : N) (acc : bytes) : bytes :=
  match fuel with
  | O => acc
  | S fuel' =>
      let acc' := hexDigit (n mod 16) :: acc in
      if (n <? 16)%N then acc' else hexLoop fuel' (n / 16)%N acc'
  end.

(** [fmt.Sprintf("%x", n)] for a length (sixteen digits are enough for 64
    bits). *)
Definition hex (n : nat) : bytes := hexLoop 16 (N.of_nat n) [].

Definition chunk (data : bytes) : bytes := hex (length data) ++ CRLF ++ data ++ CRLF.

Definition lastChunk : bytes := B "0" ++ CRLF ++ CRLF.

Definition chunked (chunks : list bytes) : bytes := concat (map chunk chunks) ++ lastChunk.

(** A stream given by its chunks with their size lines: any spelling of
    the size that [parseHexUint] reads as the length of the data. A chunk
    without data would be the terminating one. *)
Fixpoint frames (l : list (bytes * bytes)) : bytes :=
  match l with
  | [] => lastChunk
  | (size, data) :: l' => size ++ CRLF ++ data ++ CRLF ++ frames l'
  end.

Definition validFrame (f : bytes * bytes) : Prop :=
  chunkedReader.parseHexUint f.1 = (Z.of_nat (length f.2), None) /\ f.2 <> [].

(** Three chunks of 4086, 1 and 4096 bytes; the third one has the bytes
    [0 CR LF] in its data. *)
Definition long : bytes :=
  chunked [repeat "a"%char 4086; B "x";
           repeat "b"%char 4084 ++ B "0" ++ CRLF ++ repeat "c"%char 9].

End stream.

(** Two states of the chunked reader over a buffer [bf] filled up to [w]:
    the size line [h] at offset [length pre] has been read and is still to
    be copied; and the data of a chunk that ends at offset [length pre]
    have been copied and its footer is due. *)
Definition atLine (bf : bytes) (w : nat) (pre h : bytes) (unread : Z) (footer : bytes)
    (room : nat) (out : bytes) (fromBody total : nat) : chunkedReader.t :=
  chunkedReader.mkChunked (bufio.mk bf (length pre + length h + 2) w None) unread None
    footer false room out fromBody total
    (length pre, (length h + 2)%nat) (length h + 2).

Definition atFooter (bf : bytes) (w : nat) (pre : bytes) (line : nat * nat) (footer : bytes)
    (room : nat) (out : bytes) (fromBody total : nat) : chunkedReader.t :=
  chunkedReader.mkChunked (bufio.mk bf (length pre) w None) 0 None
    footer true room out fromBody total line 0.

(** The size line the reader meets first in [stream.frames l], and what it
    stands for. *)
Definition headLine (l : list (bytes * bytes)) : bytes * Z :=
  match l with
  | [] => (B "0", 0%Z)
  | (size, data) :: _ => (size, Z.of_nat (length data))
  end.

(** ** Sample messages *)

Module sample.

Definition line (s : string) : bytes := B s ++ CRLF.


(** A request whose [Content-Length] is not a number. *)
Definition badLength : bytes :=
  line "POST / HTTP/1.1" ++ line "Host: domain.io" ++ line "Content-Length: abc" ++ CRLF.

(** A start line without protocol version. *)
Definition twoWords : bytes :=
  line "GET /foo" ++ line "Host: domain.io" ++ CRLF.

(** A status with a sign. *)
Definition signedStatus : bytes :=
  line "HTTP/1.1 +12 OK" ++ line "Content-Type: text/plain" ++ CRLF.

(** A request that names its host in the query. *)
Definition hostInQuery : bytes :=
  line "GET /?host=x HTTP/1.1" ++ line "Host: domain.io" ++ CRLF.

(** A request with [Host] and an [Origin] that spells the proxy domain in
    capitals. *)
Definition upperOrigin : bytes :=
  line "GET / HTTP/1.1" ++ line "Host: domain.io" ++
  line "Origin: https://DOMAIN.IO:123" ++ CRLF.

Definition plainRequest : bytes :=
  line "GET /a HTTP/1.1" ++ line "Host: domain.io" ++ CRLF.

Definition buffer (n : nat) : bytes := repeat zero n.

(** The processor of a message that arrives in one piece, fresh and after
    its headers have been read. *)
Definition fresh (msg : bytes) (size : nat) (method : bytes) : httpProcessor.t pieces :=
  seeded [msg] (buffer size) method.

Definition parsed (msg : bytes) (size : nat) (method : bytes) : httpProcessor.t pieces :=
  (httpProcessor.ReadHeadersIfNeeded (fresh msg size method)).2.

(** The same after one read of [size] bytes has emptied the buffer. *)
Definition drained (msg : bytes) (size : nat) (method : bytes) : httpProcessor.t pieces :=
  (httpProcessor.Read (parsed msg size method) size).2.

End sample.

(** ** More of [strings] and of utils.go *)

(** The white space of ASCII: tab, line feed, vertical tab, form feed,
    carriage return and space. *)
Definition isSpaceByte (c : ascii) : bool :=
  existsb (byte_eqb c) ["009"%char; "010"%char; "011"%char; "012"%char; "013"%char; " "%char].

Fixpoint TrimLeftSpace (s : bytes) : bytes :=
  match s with
  | c :: s' => if isSpaceByte c then TrimLeftSpace s' else s
  | [] => []
  end.

(** [strings.TrimSpace] on ASCII input, where the white space Go removes
    is these six bytes. (The statements below that depend on [TrimSpace]
    are about ASCII strings.) *)
Definition TrimSpace (s : bytes) : bytes := rev (TrimLeftSpace (rev (TrimLeftSpace s))).

(** [strings.TrimPrefix]. *)
Definition TrimPrefix (s prefix : bytes) : bytes :=
  if HasPrefix s prefix then drop (length prefix) s else s.

(** [strings.HasSuffix]. *)
Definition HasSuffix (s suffix : bytes) : bool :=
  (length suffix <=? length s)%nat && bytes_eqb (drop (length s - length suffix) s) suffix.

(** [strings.Split (s, sep)] for a separator of one byte; [cur] is the part
    being read, reversed. *)
Fixpoint splitLoop (sep : ascii) (cur : bytes) (s : bytes) : list bytes :=
  match s with
  | [] => [rev cur]
  | a :: s' =>
      if byte_eqb a sep then rev cur :: splitLoop sep [] s'
      else splitLoop sep (a :: cur) s'
  end.

Definition Split (s : bytes) (sep : ascii) : list bytes := splitLoop sep [] s.

(** [extractSubdomain (host, domainHost)]. *)
Definition extractSubdomain (host domainHost : bytes) : bytes + error :=
  match Index host domainHost with
  | Some (S i) => inl (TrimSpace (take i host))
  | _ => inr (ErrorString "could not find a valid subdomain in http request headers")
  end.

(** [extractTunnelNameFromURLPath (path, domainURL)]; of [domainURL] the
    function reads the field [Path] only, which is the second argument. *)
Definition extractTunnelNameFromURLPath (path domainURLPath : bytes) : bytes + error :=
  let domainPath :=
    match Index domainURLPath (B "/") with
    | None => if HasPrefix path (B "/") then B "/" else []
    | Some domainEndIndex =>
        if HasPrefix path (B "/") then drop domainEndIndex domainURLPath
        else drop (domainEndIndex + 1) domainURLPath
    end in
  if negb (HasPrefix path domainPath)
  then inr (ErrorString "could not find a valid tunnelName in http request path")
  else
    let trimmedPath := TrimPrefix (TrimPrefix path domainPath) (B "/") in
    let domainEndIndex :=
      match Index trimmedPath (B "/") with
      | Some i => i
      | None => length trimmedPath
      end in
    let tunnelName := TrimSpace (take domainEndIndex trimmedPath) in
    if bytes_eqb tunnelName []
    then inr (ErrorString "could not find a valid tunnelName in http request path")
    else inl tunnelName.

(** ** The handlers of global requests: the command of a forward request,
    the cancel request, and the clean-up when a connection ends *)

Module handlers.

Import forward.

(** What the [for _, p := range cmdParts] loop of [forwardHandler]
    collects. *)
Record command := mkCommand {
  cmdClientID : bytes;
  cmdTunnelName : bytes;
  cmdHeader : bytes;
  cmdConnectionType : bytes;
  cmdHeaderSpecified : bool;
}.

(** [strings.Index (p, key) == 0]. *)
Definition isAt0 (i : option nat) : bool :=
  match i with Some O => true | _ => false end.

(** One pass of the loop; [inr] is the reply of the early return. *)
Definition commandPart (p : bytes) (c : command) : command + bytes :=
  let p := ToLower (TrimSpace p) in
  let idIndex := Index p (B "id=") in
  let tunnelNameIndex := Index p (B "tunnelname=") in
  let connTypeIndex := Index p (B "type=") in
  let headerIndex := Index p (B "header=") in
  if isAt0 idIndex then
    inl (mkCommand (drop (length (B "id=")) p) (cmdTunnelName c) (cmdHeader c)
           (cmdConnectionType c) (cmdHeaderSpecified c))
  else if isAt0 tunnelNameIndex then
    inl (mkCommand (cmdClientID c) (drop (length (B "tunnelname=")) p) (cmdHeader c)
           (cmdConnectionType c) (cmdHeaderSpecified c))
  else if isAt0 connTypeIndex then
    let connectionType := drop (length (B "type=")) p in
    if negb (bytes_eqb connectionType (B "https")) && negb (bytes_eqb connectionType (B "http"))
       && negb (bytes_eqb connectionType (B "tcp"))
    then inr (B "invalid connectionType " ++ connectionType)
    else inl (mkCommand (cmdClientID c) (cmdTunnelName c) (cmdHeader c)
                connectionType (cmdHeaderSpecified c))
  else if isAt0 headerIndex then
    inl (mkCommand (cmdClientID c) (cmdTunnelName c) (drop (length (B "header=")) p)
           (cmdConnectionType c) true)
  else inl c.

Fixpoint commandLoop (cmdParts : list bytes) (c : command) : command + bytes :=
  match cmdParts with
  | [] => inl c
  | p :: rest =>
      match commandPart p c with
      | inl c' => commandLoop rest c'
      | inr reply => inr reply
      end
  end.

(** From [cmdParts := strings.Split (session.request, ",")] to the
    fall-back of the client id to the session id. *)
Definition parseCommand (request sessionHex : bytes) : command + bytes :=
  match commandLoop (Split request ","%char) (mkCommand [] [] [] [] false) with
  | inl c =>
      inl (mkCommand (if bytes_eqb (cmdClientID c) [] then sessionHex else cmdClientID c)
             (cmdTunnelName c) (cmdHeader c) (cmdConnectionType c) (cmdHeaderSpecified c))
  | inr reply => inr reply
  end.

(** "Does the single HTTP listener already exist?": the entry of the
    listener in [forwards], made at the first request for the address.
    [None]: [net.Listen] failed and [log.Fatalf] has ended the process. *)
Definition httpListener (listen : bytes -> bool) (addr : bytes)
    (forwards : gmap bytes forwardsListenerData)
  : option (gmap bytes forwardsListenerData * bool) :=
  match forwards !! addr with
  | None =>
      if listen addr
      then Some (<[addr := mkForward (Some addr) [] [] (B "http")]> forwards, true)
      else None
  | Some _ => Some (forwards, false)
  end.

Definition httpBindPort : Z := 80.

(** [cancelForwardHandler] once [ssh.Unmarshal] has read the payload: the
    reply, the tunnels afterwards and the listeners closed. Closing a nil
    listener panics. *)
Definition cancelForwardHandler (connTunnelName : option bytes) (sessionHex : bytes)
    (bindAddr : bytes) (bindPort : Z)
    (tunnels : gmap bytes sshTunnelsListenerData) (forwards : gmap bytes forwardsListenerData)
  : outcome (bool * gmap bytes sshTunnelsListenerData * list bytes) :=
  if (bindPort =? httpBindPort)%Z then
    match connTunnelName with
    | Some tunnelName =>
        let cacheKey := JoinHostPort bindAddr (Itoa bindPort) ++ tunnelName in
        match tunnels !! cacheKey with
        | Some s =>
            if bytes_eqb (sessionID s) sessionHex
            then Done (true, delete cacheKey tunnels, [])
            else Done (true, tunnels, [])
        | None => Done (true, tunnels, [])
        end
    | None => Done (true, tunnels, [])
    end
  else
    let addr := JoinHostPort bindAddr (Itoa bindPort) in
    match forwards !! addr with
    | Some lnO =>
        match listener lnO with
        | Some l => Done (true, tunnels, [l])
        | None => Panic
        end
    | None => Done (true, tunnels, [])
    end.

(** The deferred clean-up of [handleIncomingSSHConn] (main.go): [subdomain]
    and [forwardRequest] are what the connection holds ([GetSubDomain],
    [GetRequestForwardPayload]). *)
Definition connectionCleanup (subdomain : option bytes) (forwardRequest : option (bytes * Z))
    (sessionHex : bytes)
    (tunnels : gmap bytes sshTunnelsListenerData) (forwards : gmap bytes forwardsListenerData)
  : outcome (gmap bytes sshTunnelsListenerData * gmap bytes forwardsListenerData * list bytes) :=
  let tunnels1 :=
    match subdomain, forwardRequest with
    | Some sd, Some (bindAddr, bindPort) =>
        let cacheKey := JoinHostPort bindAddr (Itoa bindPort) ++ sd in
        match tunnels !! cacheKey with
        | Some s =>
            if bytes_eqb (sessionID s) sessionHex then delete cacheKey tunnels else tunnels
        | None => tunnels
        end
    | _, _ => tunnels
    end in
  match forwardRequest with
  | Some (bindAddr, bindPort) =>
      let cacheKey := JoinHostPort bindAddr (Itoa bindPort) in
      match forwards !! cacheKey with
      | Some o =>
          if bytes_eqb (conType o) (B "tcp") && bytes_eqb (fSessionID o) sessionHex then
            match listener o with
            | Some l => Done (tunnels1, delete cacheKey forwards, [l])
            | None => Panic
            end
          else Done (tunnels1, forwards, [])
      | None => Done (tunnels1, forwards, [])
      end
  | None => Done (tunnels1, forwards, [])
  end.

End handlers.

(** *** Notions for the statements about the command *)

(** The parts of a command as the loop sees them. *)
Definition commandParts (request : bytes) : list bytes :=
  map (fun p => ToLower (TrimSpace p)) (Split request ","%char).

(** The value of the last part that starts with [key]. *)
Definition lastValue (key : bytes) (parts : list bytes) (default : bytes) : bytes :=
  match List.find (fun p => HasPrefix p key) (rev parts) with
  | Some p => drop (length key) p
  | None => default
  end.

Definition knownType (t : bytes) : bool :=
  bytes_eqb t (B "https") || bytes_eqb t (B "http") || bytes_eqb t (B "tcp").

Definition badTypePart (p : bytes) : bool :=
  HasPrefix p (B "type=") && negb (knownType (drop 5 p)).

(** ** More of the HTTP processor, and the head of [handleHttpConnection] *)

Module processorOps.

Import httpProcessor.

Section ops.
Context {R : Type} `{!io.Reader R} `{!net.Lib}.

Definition GetHeaders (h : t R) : option (gmap bytes (list bytes)) * option error * t R :=
  let '(e, h) := ReadHeadersIfNeeded h in (headers h, e, h).

Definition Close (h : t R) : t R := set_lastError (Some ErrUnexpectedEOF) h.

Definition GetReferer (h : t R) : (bytes + error) * t R :=
  let '(e, h) := ReadHeadersIfNeeded h in
  match e with
  | Some e' => (inr e', h)
  | None =>
      match header h (B "Referer") with
      | Some [v] => (inl v, h)
      | _ => (inr (ErrorString "could not find Referer header"), h)
      end
  end.

Definition GetURLPath (h : t R) : (bytes + error) * t R :=
  let '(e, h) := ReadHeadersIfNeeded h in
  match e with
  | Some e' => (inr e', h)
  | None =>
      match URL h with
      | Some u => (inl (net.Path u), h)
      | None => (inr (ErrorString "could not find URL path"), h)
      end
  end.

(** [url.Parse] of [net/url], which the interface above does not have;
    [None] is its error, with which it returns a nil URL. *)
Variable urlParse : bytes -> option net.URL.

Definition replaceHttpRequestURL (newURL : bytes) (h : t R) : t R :=
  let h := (ReadHeadersIfNeeded h).2 in
  match URL h with
  | Some _ =>
      if request h then
        let h := set_URL (urlParse newURL) h in
        match urlParse newURL with
        | None => h
        | Some _ =>
            if negb (bufferUsed h) then
              match Index (buf h) (requestRawURI h) with
              | None => h
              | Some start =>
                  match Index (drop start (buf h)) [LF] with
                  | None => h
                  | Some e =>
                      let end_ := (e + start)%nat in
                      let temp := slice (buf h) start end_ in
                      let tempFixed := ReplaceOnce temp (requestRawURI h) newURL in
                      let h1 := set_buf (ReplaceOnce (buf h) temp tempFixed) h in
                      let diff :=
                        (Z.of_nat (length newURL) - Z.of_nat (length (requestRawURI h)))%Z in
                      set_requestRawURI newURL (adjustBufferPositions diff h1)
                  end
              end
            else h
        end
      else h
  | None => h
  end.

(** Reading a reader to its end, as [io.CopyBuffer] does with a buffer of
    [n] bytes: the bytes of all reads and the error that ended them.
    [None]: still reading after [fuel] reads. *)
Fixpoint readAll (fuel n : nat) (h : t R) : option (bytes * error * t R) :=
  match fuel with
  | O => None
  | S fuel' =>
      let '(data, e, h') := Read h n in
      match e with
      | Some e' => Some (data, e', h')
      | None =>
          match readAll fuel' n h' with
          | Some (rest, e', h'') => Some (data ++ rest, e', h'')
          | None => None
          end
      end
  end.

(** The same for the body reader [h.GetReader ()]. *)
Fixpoint bodyReadAll (calls fuel n : nat) (h : t R) : outcome (bytes * error * t R) :=
  match calls with
  | O => OutOfFuel
  | S calls' =>
      match bodyRead fuel h n with
      | Done (data, Some e, h') => Done (data, e, h')
      | Done (data, None, h') =>
          match bodyReadAll calls' fuel n h' with
          | Done (rest, e, h'') => Done (data ++ rest, e, h'')
          | Panic => Panic
          | OutOfFuel => OutOfFuel
          end
      | Panic => Panic
      | OutOfFuel => OutOfFuel
      end
  end.

(** [err.Error ()]. *)
Definition errorText (e : error) : bytes :=
  match e with
  | EOF => B "EOF"
  | ErrUnexpectedEOF => B "unexpected EOF"
  | ErrNoProgress => B "multiple Read calls return no data or error"
  | ErrBufferFull => B "bufio: buffer full"
  | ErrLineTooLong => B "header line too long"
  | ErrorString msg => B msg
  end.

(** What [handleHttpConnection] does with a request before it opens the
    channel to the client: it ends without a word, answers 400, or has
    found the tunnel the request is for. *)
Inductive routing :=
| Terminated
| BadRequest (response : bytes)
| Routed (tunnelName : bytes) (sshClient : forward.sshTunnelsListenerData).

Definition badRequest (what : string) : bytes :=
  B "HTTP/1.1 400 Bad Request" ++ CRLF ++ B "Content-Type:text/html" ++ CRLF ++ CRLF ++ B what.

(** The loop body of [handleHttpConnection] from [GetURLPath] / [GetHost]
    to the look-up in [sshTunnelListeners]; [domainHost] and
    [domainURIPath] are [domainURI.Host] and [domainURI.Path]. (The test
    of [sshClient.reqPayload] for nil cannot fail: the handler stores the
    address of its own variable.) *)
Definition routeRequest (domainPath : bool) (domainHost domainURIPath : bytes)
    (hadPreviousRequests : bool) (addr : bytes)
    (tunnels : gmap bytes forward.sshTunnelsListenerData) (h : t R) : routing * t R :=
  let '(found, h) := if domainPath then GetURLPath h else GetHost h in
  let notFound :=
    if domainPath then badRequest "Could not find a valid URL path."
    else badRequest "Could not find a valid Host." in
  match found with
  | inr err =>
      if hadPreviousRequests &&
         (error_eqb err EOF || HasSuffix (errorText err) (B ": EOF")
          || Contains (errorText err) (B "use of closed network connection"))
      then (Terminated, h)
      else (BadRequest notFound, h)
  | inl v =>
      match (if domainPath then extractTunnelNameFromURLPath v domainURIPath
             else extractSubdomain v domainHost) with
      | inr _ => (BadRequest notFound, h)
      | inl tunnelName =>
          if negb (GetContentLength h).2
          then (BadRequest (badRequest "Invalid Content-Length header."), h)
          else
            match tunnels !! (addr ++ tunnelName) with
            | None => (BadRequest (badRequest "No listeners found."), h)
            | Some sshClient => (Routed tunnelName sshClient, h)
            end
      end
  end.

End ops.

End processorOps.

(** The bytes a processor over a source in pieces still has to deliver:
    what is left in its buffer, then the pieces. *)
Definition remaining `{!net.Lib} (h : httpProcessor.t pieces) : bytes :=
  (if httpProcessor.bufferUsed h then []
   else slice (httpProcessor.buf h) (Z.to_nat (httpProcessor.bufReadPos h))
          (Z.to_nat (httpProcessor.bufWritePos h)))
  ++ concat (httpProcessor.reader h).

(** A processor whose headers are parsed, without an error, with its
    cursors in order while the buffer is in use. *)
Definition steady `{!net.Lib} (h : httpProcessor.t pieces) : Prop :=
  httpProcessor.lastError h = None /\ httpProcessor.parsedHeaders h = true /\
  (httpProcessor.bufferUsed h = false ->
   (0 <= httpProcessor.bufReadPos h <= httpProcessor.bufWritePos h)%Z /\
   (httpProcessor.bufWritePos h <= Z.of_nat (length (httpProcessor.buf h)))%Z /\
   (httpProcessor.bufWritePos h < 2 ^ 63)%Z).

(** A bound on the reads that are left: every read that reports no error
    makes it smaller. *)
Definition readsLeft `{!net.Lib} (h : httpProcessor.t pieces) : nat :=
  (if httpProcessor.bufferUsed h then 0
   else S (Z.to_nat (httpProcessor.bufWritePos h - httpProcessor.bufReadPos h)))
  + (length (concat (httpProcessor.reader h)) + length (httpProcessor.reader h)).

(** The number a string of hexadecimal digits stands for. *)
Definition hexNumber (v : bytes) : Z :=
  fold_left (fun acc b => (acc * 16 + default 0 (chunkedReader.hexValue b))%Z) v 0%Z.

(** ** eofReader.go: a reader that keeps track of EOF *)

(** [err == io.EOF]. *)
Definition isEOF (err : option error) : bool := isErr err EOF.

Module eofReader.

Record t (R : Type) := mk { r : R; EOF : bool }.
Arguments mk {R} r EOF.
Arguments r {R} t.
Arguments EOF {R} t.

#[global] Instance Read {R : Type} `{!io.Reader R} : io.Reader (t R) := fun reader n =>
  let '(data, err, r') := io.Read (r reader) n in
  (data, err, mk r' (if isEOF err then true else EOF reader)).

End eofReader.

(** A run of reads of a reader with slices of the given sizes. *)
Fixpoint readSeq {R : Type} `{!io.Reader R} (rd : R) (sizes : list nat)
  : list (bytes * option error) * R :=
  match sizes with
  | [] => ([], rd)
  | n :: sizes' =>
      let '(data, e, rd') := io.Read rd n in
      let '(rest, rd'') := readSeq rd' sizes' in
      ((data, e) :: rest, rd'')
  end.

(** ** main.go: the accept loop *)

Module accept.

Definition Millisecond : Z := 1000000.
Definition Second : Z := 1000 * Millisecond.

(** The delay before the next [Accept] after a temporary error:
    [tempDelay] is 5 ms at first, doubles after that, and is cut at one
    second. The variable is declared outside the loop and the loop never
    sets it back. *)
Definition nextDelay (tempDelay : Z) : Z :=
  let tempDelay :=
    if (tempDelay =? 0)%Z then (5 * Millisecond)%Z
    else httpProcessor.wrap64 (tempDelay * 2) in
  let max := (1 * Second)%Z in
  if (max <? tempDelay)%Z then max else tempDelay.

(** What [Accept] gave, while the context is not cancelled. *)
Inductive result := Accepted | TemporaryError | OtherError.

(** What the loop does with it. *)
Inductive action := Sleep (d : Z) | Handle.

(** One turn of the loop. After an error that is not temporary the
    [break] leaves the [select] only, and the connection is handed to
    [handleIncomingSSHConn] like an accepted one. *)
Definition step (tempDelay : Z) (res : result) : Z * action :=
  match res with
  | TemporaryError => let d := nextDelay tempDelay in (d, Sleep d)
  | Accepted | OtherError => (tempDelay, Handle)
  end.

Fixpoint run (tempDelay : Z) (results : list result) : list action :=
  match results with
  | [] => []
  | res :: rest => let '(d, a) := step tempDelay res in a :: run d rest
  end.

End accept.

(** The delays slept in a run of the accept loop, in order. *)
Fixpoint sleeps (l : list accept.action) : list Z :=
  match l with
  | [] => []
  | accept.Sleep d :: l' => d :: sleeps l'
  | accept.Handle :: l' => sleeps l'
  end.

Definition isTemporary (res : accept.result) : bool :=
  match res with accept.TemporaryError => true | _ => false end.

(** 5 ms doubled [k] times, cut at one second. *)
Definition backoff (k : nat) : Z :=
  Z.min (5 * accept.Millisecond * 2 ^ Z.of_nat k) accept.Second.


(** ** More sample messages *)

Module messages.

(** A request for the tunnel [abc], by host and by path. *)
Definition routed : bytes :=
  sample.line "GET /abc/x HTTP/1.1" ++ sample.line "Host: abc.domain.io" ++ CRLF.

Definition withReferer : bytes :=
  sample.line "GET /a/b?x=1 HTTP/1.1" ++ sample.line "Host: domain.io" ++
  sample.line "Referer: http://domain.io/abc/" ++ CRLF.

(** A request with a body of five bytes, followed by the start of the
    next request, in three pieces. *)
Definition withBody : pieces :=
  [ sample.line "POST /a HTTP/1.1" ++ sample.line "Host: domain.io" ++
    sample.line "Content-Length: 5" ++ CRLF ++ B "he";
    B "llo";
    B "GET /next" ].

(** An upgrade request and what follows it on the connection. *)
Definition upgrade : pieces :=
  [ sample.line "GET /ws HTTP/1.1" ++ sample.line "Host: domain.io" ++
    sample.line "Connection: Upgrade" ++ sample.line "Upgrade: websocket" ++ CRLF;
    B "frame one"; B "frame two" ].



(** A [url.Parse] for the samples: absolute paths only. *)
Definition urlParse (s : bytes) : option (@net.URL toy.lib) := toy.ParseRequestURI s.

End messages.

(** An equation between closed terms, checked by evaluating both sides. *)
Ltac by_evaluation :=
  lazymatch goal with |- @eq ?T _ ?y => vm_cast_no_check (@eq_refl T y) end.

(** The values [val] of the header [key] in the header block [mime] of a
    sample message, computed from the bytes: [Hi], [Hd] and [Hm] say where
    the block is in the buffer and that [mime] is read from it. *)
Ltac header_value Hi Hd Hm key val H :=
  match type of Hi with
  | Index ?b CRLF = Some _ =>
      assert (H : match Index b CRLF, Index b (CRLF ++ CRLF) with
                  | Some i', Some (S d') =>
                      match net.ReadMIMEHeader (slice b (i' + 2) (S d' + 4)) with
                      | inl m => m !! key
                      | inr _ => None
                      end
                  | _, _ => None
                  end = val) by (vm_compute; reflexivity);
      rewrite Hi, Hd, Hm in H
  end.

(** Every byte is one of 256 values: a property checked on all of them. *)
Ltac all_bytes c :=
  destruct c as [[] [] [] [] [] [] [] []]; vm_compute; intros;
  try discriminate; try congruence; repeat split;
  try reflexivity; try discriminate; try (intro; discriminate); auto.

(** The fields of an explicit reader state. *)
Ltac fields :=
  cbn [chunkedReader.r chunkedReader.unreadBytesInChunk chunkedReader.err chunkedReader.buf
       chunkedReader.checkEnd chunkedReader.outputSlice chunkedReader.output
       chunkedReader.outputBytesFromBody chunkedReader.outputTotalBytesWritten
       chunkedReader.line chunkedReader.unwrittenBytesInBuffer
       bufio.buf bufio.r bufio.w bufio.err fst snd].

(** The two sources [s] and [t] answer the read of [n] bytes alike, by [H]. *)
Ltac read_alike H s t n HR :=
  let E := fresh "E" in
  let HR' := fresh "HR" in
  let d := fresh "d" in let e := fresh "e" in let s' := fresh "s" in
  let d' := fresh "d" in let e' := fresh "e" in let t' := fresh "t" in
  destruct (H s t n HR) as [E HR'];
  destruct (io.Read s n) as [[d e] s'];
  destruct (io.Read t n) as [[d' e'] t'];
  cbn [fst snd] in E, HR'; injection E as -> ->.

(** * Properties *)

(** ** Bytes *)

Lemma byte_eqb_eq (a b : ascii) : byte_eqb a b = true <-> a = b.
Proof. apply Ascii.eqb_eq. Qed.

Lemma byte_eqb_neq (a b : ascii) : byte_eqb a b = false <-> a <> b.
Proof. apply Ascii.eqb_neq. Qed.

Lemma byte_eqb_refl (a : ascii) : byte_eqb a a = true.
Proof. apply Ascii.eqb_refl. Qed.

Lemma bytes_eqb_eq (s t : bytes) : bytes_eqb s t = true <-> s = t.
Proof.
  revert t. induction s as [|a s IH]; intros [|b t]; simpl; try (split; congruence).
  rewrite andb_true_iff, byte_eqb_eq, IH. split.
  - intros [-> ->]. reflexivity.
  - intros [= -> ->]. auto.
Qed.

Lemma bytes_eqb_refl (s : bytes) : bytes_eqb s s = true.
Proof. apply bytes_eqb_eq. reflexivity. Qed.

Lemma bytes_eqb_neq (s t : bytes) : bytes_eqb s t = false <-> s <> t.
Proof.
  rewrite <- bytes_eqb_eq. destruct (bytes_eqb s t); split; congruence.
Qed.

Lemma lowerByte_dash (c : ascii) : byte_eqb (lowerByte c) DASH = byte_eqb c DASH.
Proof. all_bytes c. Qed.

Lemma isNameChar_lower (c : ascii) :
  isNameChar (lowerByte c) = isLower c || isUpper c || isDigit c || byte_eqb c DASH.
Proof. all_bytes c. Qed.

Lemma last_map_lower (s : bytes) :
  List.last (map lowerByte s) DASH = lowerByte (List.last s DASH).
Proof.
  induction s as [|a [|b s] IH]; try reflexivity.
  change (List.last (map lowerByte (b :: s)) DASH = lowerByte (List.last (b :: s) DASH)).
  exact IH.
Qed.

Lemma hd_map_lower (s : bytes) : hd DASH (map lowerByte s) = lowerByte (hd DASH s).
Proof. destruct s; reflexivity. Qed.

(** ** Tunnel names *)

Lemma nameLoop_lower (s : bytes) :
  nameLoop (ToLower s) = true <->
  Forall (fun c => nameByte c = true) s /\ hasDoubleDash s = false.
Proof.
  unfold ToLower. induction s as [|a s IH]; simpl.
  - split; auto.
  - rewrite isNameChar_lower. fold (nameByte a). rewrite lowerByte_dash.
    destruct (nameByte a) eqn:Ha.
    + destruct s as [|b s].
      * simpl. rewrite andb_false_r. split; auto.
      * cbn [map]. rewrite lowerByte_dash.
        destruct (byte_eqb a DASH && byte_eqb b DASH) eqn:Hd.
        -- split; [discriminate|]. intros [_ H]. discriminate H.
        -- cbn [map] in IH. rewrite IH. cbn [orb]. split.
           ++ intros [H1 H2]. split; [constructor; assumption | assumption].
           ++ intros [H1 H2]. inversion H1; subst. split; assumption.
    + split; [discriminate|]. intros [H _]. inversion H; congruence.
Qed.

(** What the code accepts, in full: a name that is not empty, shorter than
    50 bytes, made of letters of either case, digits and dashes, with no
    dash at either end and no two dashes in a row. *)
Lemma tunnelNameValid_iff (s : bytes) :
  Forall (fun c => isASCII c = true) s ->
  tunnelNameValid s = true <->
    (0 < length s < 50)%nat /\
    Forall (fun c => nameByte c = true) s /\
    hd DASH s <> DASH /\ List.last s DASH <> DASH /\
    hasDoubleDash s = false.
Proof.
  intros _. unfold tunnelNameValid.
  destruct s as [|a s].
  { simpl. split; [discriminate | intros [? _]; lia]. }
  cbn [bytes_eqb orb].
  destruct (Nat.ltb_spec (length (a :: s)) 50) as [Hlen|Hlen]; cbn [negb].
  2:{ split; [discriminate | intros [? _]; lia]. }
  rewrite hd_map_lower, last_map_lower, !lowerByte_dash.
  destruct (byte_eqb (hd DASH (a :: s)) DASH) eqn:Hh; cbn [orb].
  { apply byte_eqb_eq in Hh. split; [discriminate | intros (_ & _ & H & _); congruence]. }
  destruct (byte_eqb (List.last (a :: s) DASH) DASH) eqn:Hl.
  { apply byte_eqb_eq in Hl. split; [discriminate | intros (_ & _ & _ & H & _); congruence]. }
  apply byte_eqb_neq in Hh, Hl.
  rewrite nameLoop_lower. split.
  - intros [H1 H2]. repeat split; try assumption. simpl; lia.
  - intros (_ & H1 & _ & _ & H2). split; assumption.
Qed.

Lemma isLowerAlnum_lower (c : ascii) :
  isLowerAlnum (lowerByte c) = nameByte c && negb (byte_eqb c DASH).
Proof. all_bytes c. Qed.

Lemma hasDoubleDash_lower (s : bytes) : hasDoubleDash (map lowerByte s) = hasDoubleDash s.
Proof.
  induction s as [|a [|b s] IH]; try reflexivity.
  change (hasDoubleDash (map lowerByte (a :: b :: s)))
    with ((byte_eqb (lowerByte a) DASH && byte_eqb (lowerByte b) DASH)
          || hasDoubleDash (map lowerByte (b :: s))).
  rewrite IH, !lowerByte_dash. reflexivity.
Qed.

Lemma forallb_nameChar_lower (s : bytes) :
  forallb isNameChar (map lowerByte s) = true <-> Forall (fun c => nameByte c = true) s.
Proof.
  induction s as [|a s IH]; cbn [map forallb].
  - split; [constructor | reflexivity].
  - rewrite andb_true_iff, IH, isNameChar_lower. fold (nameByte a). split.
    + intros [Ha Hs]. constructor; assumption.
    + intros H. inversion H; subst. split; assumption.
Qed.

Lemma Forall_rev_both {A : Type} (P : A -> Prop) (l : list A) :
  Forall P (rev l) <-> Forall P l.
Proof.
  rewrite !List.Forall_forall.
  split; intros H x Hx; apply H; [apply (proj1 (List.in_rev l x)) | apply (proj2 (List.in_rev l x))];
    exact Hx.
Qed.

(** The pattern of the specification on the lower-cased name, for a name
    of two or more bytes [c :: mid ++ [l]]. *)
Lemma spec_tunnelNameValid_lower (c l : ascii) (mid : bytes) :
  spec_tunnelNameValid (ToLower (c :: mid ++ [l])) = true <->
    (length (c :: mid ++ [l]) < 50)%nat /\
    Forall (fun c => nameByte c = true) (c :: mid ++ [l]) /\
    c <> DASH /\ l <> DASH /\
    hasDoubleDash (c :: mid ++ [l]) = false.
Proof.
  unfold spec_tunnelNameValid, ToLower. rewrite length_map.
  cbn [map spec_nameRegex]. rewrite <- map_rev, rev_app_distr. cbn [rev app map].
  rewrite hasDoubleDash_lower, !isLowerAlnum_lower.
  rewrite !andb_true_iff, !negb_true_iff, forallb_nameChar_lower, Nat.ltb_lt.
  assert (Hdd : c <> DASH -> hasDoubleDash (c :: mid ++ [l]) = hasDoubleDash (mid ++ [l])).
  { intros Hc. apply byte_eqb_neq in Hc.
    destruct (mid ++ [l]) as [|b t] eqn:E; [reflexivity|].
    cbn [hasDoubleDash]. rewrite Hc. reflexivity. }
  rewrite Forall_rev_both, Forall_cons_iff, Forall_app, Forall_cons_iff.
  split.
  - intros [[[[Hc Hcd] Hd] [[Hl Hld] Hm]] Hlen].
    apply byte_eqb_neq in Hcd as Hcd', Hld as Hld'.
    rewrite (Hdd Hcd'). repeat split; try assumption. constructor.
  - intros (Hlen & (Hc & Hm & Hl & _) & Hcd & Hld & Hd).
    rewrite (Hdd Hcd) in Hd. apply byte_eqb_neq in Hcd, Hld.
    repeat split; assumption.
Qed.

(** C4, as amended: on names of two or more bytes the code accepts exactly
    the names whose lower-case form matches the pattern of the
    specification, [^[a-z0-9](?!.*--)[a-z0-9-]*[a-z0-9]$] with fewer than
    50 bytes; these are the names made of letters of either case, digits
    and dashes, with no dash at either end and no two dashes in a row.
    Nothing is said here about names of one byte. *)
Theorem tunnelNameValid_pattern (s : bytes) :
  Forall (fun c => isASCII c = true) s ->
  (2 <= length s)%nat ->
  tunnelNameValid s = spec_tunnelNameValid (ToLower s) /\
  (tunnelNameValid s = true <->
     (length s < 50)%nat /\
     Forall (fun c => nameByte c = true) s /\
     hd DASH s <> DASH /\ List.last s DASH <> DASH /\
     hasDoubleDash s = false).
Proof.
  intros Hascii Hlen.
  pose proof (tunnelNameValid_iff s Hascii) as Hcode.
  assert (Hshape : exists c mid l, s = c :: mid ++ [l]).
  { destruct s as [|c rest]; [cbn in Hlen; lia|].
    destruct (rev rest) as [|l m] eqn:Hr.
    - apply (f_equal (@length ascii)) in Hr. rewrite length_rev in Hr.
      cbn in Hlen, Hr. lia.
    - exists c, (rev m), l. f_equal.
      rewrite <- (rev_involutive rest), Hr. reflexivity. }
  destruct Hshape as (c & mid & l & ->).
  pose proof (spec_tunnelNameValid_lower c l mid) as Hspec.
  assert (Hlast : List.last (c :: mid ++ [l]) DASH = l)
    by (change (c :: mid ++ [l]) with ((c :: mid) ++ [l]); apply last_last).
  rewrite Hlast in Hcode |- *. cbn [hd] in Hcode |- *.
  split.
  - apply eq_true_iff_eq. rewrite Hcode, Hspec. split.
    + intros (Hl & H). split; [lia | exact H].
    + intros (Hl & H). split; [cbn [length] in *; lia | exact H].
  - rewrite Hcode. split.
    + intros (Hl & H). split; [lia | exact H].
    + intros (Hl & H). split; [cbn [length] in *; lia | exact H].
Qed.

Lemma tunnelNameValid_pattern_witness :
  tunnelNameValid (B "My-Sub") = spec_tunnelNameValid (ToLower (B "My-Sub")) /\
  (tunnelNameValid (B "My-Sub") = true <->
     (length (B "My-Sub") < 50)%nat /\
     Forall (fun c => nameByte c = true) (B "My-Sub") /\
     hd DASH (B "My-Sub") <> DASH /\ List.last (B "My-Sub") DASH <> DASH /\
     hasDoubleDash (B "My-Sub") = false).
Proof.
  apply (tunnelNameValid_pattern (B "My-Sub")).
  - repeat constructor.
  - cbn. lia.
Defined.

(** C4, as stated, fails: the name ["AB"] is valid for the code, which
    lower-cases a name before it checks it, and does not match the
    pattern, which has lower-case letters only. *)
Lemma tunnelNameValid_upper :
  tunnelNameValid (B "AB") = true /\ spec_tunnelNameValid (B "AB") = false.
Proof. vm_compute. auto. Qed.

(** The code also takes a name of one letter or digit; the pattern asks
    for two bytes, and the pattern in the comment at the call site in
    [forwardHandler] for three. *)
Lemma tunnelNameValid_one_byte :
  tunnelNameValid (B "a") = true /\ spec_tunnelNameValid (B "a") = false.
Proof. vm_compute. auto. Qed.

(** ** Searching in byte strings *)

Lemma HasPrefix_app (s p : bytes) :
  HasPrefix s p = true <-> exists t, s = p ++ t.
Proof.
  revert s. induction p as [|b p IH]; intros s.
  - destruct s; simpl; split; eauto.
  - destruct s as [|a s]; simpl.
    + split; [discriminate | intros [t Ht]; discriminate].
    + rewrite andb_true_iff, byte_eqb_eq, IH. split.
      * intros [-> [t ->]]. eauto.
      * intros [t [= -> ->]]. eauto.
Qed.

Lemma Index_unfold (s sep : bytes) :
  Index s sep =
  if HasPrefix s sep then Some 0%nat
  else match s with [] => None | _ :: s' => S <$> Index s' sep end.
Proof. destruct s; reflexivity. Qed.



Lemma length_writeAt (dst data : bytes) (off : nat) :
  (off + length data <= length dst)%nat ->
  length (writeAt dst off data) = length dst.
Proof.
  intros H. unfold writeAt. rewrite !length_app, length_take, length_drop. lia.
Qed.

Lemma wrap64_small (x : Z) : (- 2 ^ 63 <= x < 2 ^ 63)%Z -> httpProcessor.wrap64 x = x.
Proof.
  intros Hx. unfold httpProcessor.wrap64.
  rewrite Z.mod_small; lia.
Qed.

(** ** The processor after its headers are read *)

Section parsed.
Context {R : Type} `{!io.Reader R} `{!io.ReaderOK R} `{!net.Lib}.
Import httpProcessor.

#[local] Arguments writeAt : simpl never.
#[local] Arguments slice : simpl never.
#[local] Arguments wrap64 : simpl never.
#[local] Arguments Index : simpl never.
#[local] Arguments adjustBodyReader : simpl never.
#[local] Arguments parseStartLine : simpl never.

Lemma ReadHeaders_fresh (rd : R) (buffer method : bytes) (h' : t R) :
  ReadHeadersIfNeeded (seeded rd buffer method) = (None, h') ->
  exists data rd' i d mime,
    io.Read rd (length buffer) = (data, None, rd') /\
    Index (writeAt buffer 0 data) CRLF = Some i /\
    Index (writeAt buffer 0 data) (CRLF ++ CRLF) = Some (S d) /\
    net.ReadMIMEHeader (slice (writeAt buffer 0 data) (i + 2) (S d + 4)) = inl mime /\
    h' = adjustBodyReader
           (set_parsedHeaders true
              (set_headers (Some mime)
                 (parseStartLine (slice (writeAt buffer 0 data) 0 i)
                    (mk (writeAt buffer 0 data) rd' 0
                        (wrap64 (0 + Z.of_nat (length data)))
                        (wrap64 (0 + Z.of_nat (length data)))
                        (wrap64 (0 + wrap64 (0 + Z.of_nat (length data))))
                        false false None false method [] None None
                        (Z.of_nat (S d) + 4) 0 nilReader 0)))).
Proof.
  unfold ReadHeadersIfNeeded, seeded, newHttpProcessor, Read. cbn.
  destruct (io.Read rd (length buffer)) as [[data e] rd'] eqn:Hrd.
  destruct e as [e|]; cbn.
  { intros [=]. }
  unfold parseHeaders. cbn.
  destruct (Index (writeAt buffer 0 data) CRLF) as [i|] eqn:Hi; cbn.
  2:{ intros [=]. }
  destruct (Index (writeAt buffer 0 data) (CR :: LF :: CRLF)) as [[|d]|] eqn:Hd; cbn;
    try (intros [=]; fail).
  destruct (net.ReadMIMEHeader _) as [mime|e] eqn:Hm; cbn.
  2:{ intros [=]. }
  intros [= <-]. exists data, rd', i, d, mime. repeat split; assumption.
Qed.

Lemma adjustBodyReader_frame (h : t R) :
  let h2 := adjustBodyReader h in
  buf h2 = buf h /\ reader h2 = reader h /\ bufReadPos h2 = bufReadPos h /\
  bufWritePos h2 = bufWritePos h /\ totalBytes h2 = totalBytes h /\
  bufferBytesRead h2 = bufferBytesRead h /\ bufferUsed h2 = bufferUsed h /\
  parsedHeaders h2 = parsedHeaders h /\ lastError h2 = lastError h /\
  request h2 = request h /\ requestMethod h2 = requestMethod h /\
  requestRawURI h2 = requestRawURI h /\ headers h2 = headers h /\
  URL h2 = URL h /\ bodyStartsIndex h2 = bodyStartsIndex h /\
  responseStatusCode h2 = responseStatusCode h.
Proof.
  unfold adjustBodyReader. cbv zeta.
  repeat case_match; cbn; repeat split; reflexivity.
Qed.

Lemma parseStartLine_frame (line : bytes) (h : t R) :
  let h2 := parseStartLine line h in
  buf h2 = buf h /\ reader h2 = reader h /\ bufReadPos h2 = bufReadPos h /\
  bufWritePos h2 = bufWritePos h /\ totalBytes h2 = totalBytes h /\
  bufferBytesRead h2 = bufferBytesRead h /\ bufferUsed h2 = bufferUsed h /\
  parsedHeaders h2 = parsedHeaders h /\ lastError h2 = lastError h /\
  headers h2 = headers h /\ bodyStartsIndex h2 = bodyStartsIndex h /\
  bodyLength h2 = bodyLength h /\ headerBodyReader h2 = headerBodyReader h.
Proof.
  unfold parseStartLine. cbv zeta.
  repeat case_match; cbn; repeat split; reflexivity.
Qed.

(** What the start line leaves in the processor. *)
Lemma parseStartLine_request (line method requestURI proto : bytes) (h : t R) :
  parseRequestLine line = (method, requestURI, proto, true) ->
  validMethod method = true ->
  let h2 := parseStartLine line h in
  request h2 = true /\ requestMethod h2 = method /\ requestRawURI h2 = requestURI /\
  URL h2 = match net.ParseRequestURI requestURI with Some u => Some u | None => URL h end /\
  responseStatusCode h2 = responseStatusCode h.
Proof.
  intros Hp Hv. unfold parseStartLine. rewrite Hp, Hv. cbn.
  destruct (net.ParseRequestURI requestURI); cbn; repeat split; reflexivity.
Qed.

Lemma parseStartLine_response (line : bytes) (h : t R) :
  request h = false ->
  (let '(method, _, _, ok) := parseRequestLine line in ok && validMethod method) = false ->
  let h2 := parseStartLine line h in
  request h2 = false /\ requestMethod h2 = requestMethod h /\
  requestRawURI h2 = requestRawURI h /\ URL h2 = URL h /\
  responseStatusCode h2 =
    match parseResponseLine line with
    | Some (_, _, code) => code
    | None => responseStatusCode h
    end.
Proof.
  intros Hr Hn. unfold parseStartLine.
  destruct (parseRequestLine line) as [[[method uri] proto] ok].
  rewrite Hn, Hr. cbn.
  destruct (parseResponseLine line) as [[[? ?] code]|]; cbn; repeat split; auto.
Qed.





(** The header block that a fresh processor parses: the bytes of the
    first read between the end of the start line and the end of the
    blank line, as [textproto] reads them. *)
Lemma headers_after_headers (rd : R) (buffer method : bytes) (h' : t R) :
  ReadHeadersIfNeeded (seeded rd buffer method) = (None, h') ->
  let b := writeAt buffer 0 (io.Read rd (length buffer)).1.1 in
  exists (i d : nat) (mime : gmap bytes (list bytes)),
    Index b CRLF = Some i /\ Index b (CRLF ++ CRLF) = Some (S d) /\
    net.ReadMIMEHeader (slice b (i + 2) (S d + 4)) = inl mime /\
    headers h' = Some mime.
Proof.
  intros Hread. cbv zeta.
  destruct (ReadHeaders_fresh _ _ _ _ Hread)
    as (data & rd' & i & d & mime & Hrd & Hi & Hd & Hm & Heq).
  rewrite Hrd. cbn [fst]. exists i, d, mime.
  split; [exact Hi|]. split; [exact Hd|]. split; [exact Hm|].
  rewrite Heq.
  match goal with |- context [adjustBodyReader ?x] =>
    destruct (adjustBodyReader_frame x) as
      (_ & _ & _ & _ & _ & _ & _ & _ & _ & _ & _ & _ & -> & _) end.
  reflexivity.
Qed.



(** C3, as amended: when the message is not chunked and its
    [Content-Length] does not parse, the result is [(0, false)]. *)
Theorem GetContentLength_unparsable (rd : R) (buffer method : bytes) (h' : t R)
    (v : bytes) (vs : list bytes) :
  ReadHeadersIfNeeded (seeded rd buffer method) = (None, h') ->
  IsRequestChunked h' = false ->
  header h' (B "Content-Length") = Some (v :: vs) ->
  strconv.ParseInt v = None ->
  GetContentLength h' = (0, false)%Z.
Proof.
  intros _ Hc Hh Hp. unfold GetContentLength. rewrite Hc, Hh, Hp. reflexivity.
Qed.

Lemma three_digits (a b c : ascii) :
  isDigit a = true -> isDigit b = true -> isDigit c = true ->
  strconv.Atoi [a; b; c] =
    Some (100 * (byteZ a - byteZ "0") + 10 * (byteZ b - byteZ "0") + (byteZ c - byteZ "0"))%Z.
Proof.
  intros Ha Hb Hc. unfold strconv.Atoi, strconv.ParseInt.
  assert (Hs : byte_eqb a "+" || byte_eqb a "-" = false) by (revert Ha; all_bytes a).
  assert (Hn : byte_eqb a "-" = false) by (revert Ha; all_bytes a).
  cbv zeta. rewrite Hs, Hn. cbn [strconv.digitsValue]. rewrite Ha, Hb, Hc.
  assert (Hra : (0 <= byteZ a - byteZ "0" <= 9)%Z) by (revert Ha; all_bytes a).
  assert (Hrb : (0 <= byteZ b - byteZ "0" <= 9)%Z) by (revert Hb; all_bytes b).
  assert (Hrc : (0 <= byteZ c - byteZ "0" <= 9)%Z) by (revert Hc; all_bytes c).
  match goal with |- context [(?x <? 2 ^ 63)%Z] =>
    destruct (Z.ltb_spec x (2 ^ 63)); [|lia] end.
  f_equal. lia.
Qed.

(** C9, as amended. The start line is the buffer up to the first CRLF; its
    first word, and the word after the first space, are cut at spaces. The
    message is a request exactly when the line has two spaces and the
    first word is a token: then the method, the raw request-URI and, when
    it parses, the URL are recorded. Otherwise it is a response: a status
    word of three digits is recorded as the status code, and nothing is
    recorded when the line has no space or the status word is not three
    bytes long. *)
Theorem start_line_classification (rd : R) (buffer method : bytes) (h' : t R) :
  ReadHeadersIfNeeded (seeded rd buffer method) = (None, h') ->
  exists i, Index (buf h') CRLF = Some i /\
  let '(word, rest, sp1) := Cut (slice (buf h') 0 i) (B " ") in
  let '(second, _, sp2) := Cut rest (B " ") in
  (validMethod word = true -> sp1 = true -> sp2 = true ->
     request h' = true /\ requestMethod h' = word /\ requestRawURI h' = second /\
     URL h' = net.ParseRequestURI second) /\
  (validMethod word = false \/ sp1 = false \/ sp2 = false ->
     request h' = false /\
     (forall a b c, sp1 = true -> second = [a; b; c] ->
        isDigit a = true -> isDigit b = true -> isDigit c = true ->
        responseStatusCode h' =
          (100 * (byteZ a - byteZ "0") + 10 * (byteZ b - byteZ "0")
           + (byteZ c - byteZ "0"))%Z) /\
     (sp1 = false \/ length second <> 3%nat -> responseStatusCode h' = 0%Z)).
Proof.
  intros Hread.
  destruct (ReadHeaders_fresh _ _ _ _ Hread) as (data & rd' & i & d & mime & Hrd & Hi & Hd & Hm & ->).
  exists i.
  match goal with |- context [adjustBodyReader ?x] =>
    destruct (adjustBodyReader_frame x) as
      (-> & _ & _ & _ & _ & _ & _ & _ & _ & -> & -> & -> & _ & -> & _ & ->) end.
  cbn [buf request requestMethod requestRawURI URL responseStatusCode
       set_parsedHeaders set_headers].
  match goal with |- context [parseStartLine ?l ?x] =>
    destruct (parseStartLine_frame l x) as (-> & _);
    pose proof (parseStartLine_response l x eq_refl) as Hresp;
    pose proof (fun m u p => parseStartLine_request l m u p x) as Hreq end.
  cbn [buf]. split; [exact Hi|].
  unfold parseRequestLine in Hresp, Hreq. unfold parseResponseLine in Hresp.
  destruct (Cut (slice (writeAt buffer 0 data) 0 i) (B " ")) as [[word rest] sp1].
  destruct (Cut rest (B " ")) as [[second proto] sp2].
  cbn [fst] in Hresp.
  split.
  - intros Hv -> ->. cbn in Hreq.
    destruct (Hreq _ _ _ eq_refl Hv) as (-> & -> & -> & -> & _).
    cbn. repeat split. destruct (net.ParseRequestURI second); reflexivity.
  - intros Hor.
    assert (Hn : (let '(m, _, _, ok) :=
                    if negb sp1 || negb sp2 then ([], [], [], false)
                    else (word, second, proto, true) in ok && validMethod m) = false).
    { destruct sp1, sp2; cbn; try reflexivity.
      destruct Hor as [-> | [? | ?]]; [reflexivity | discriminate..]. }
    destruct (Hresp Hn) as (-> & _ & _ & _ & ->). cbn [responseStatusCode].
    split; [reflexivity|]. split.
    + intros a b c -> -> Ha Hb Hc. cbn [negb length Nat.eqb].
      rewrite (three_digits a b c Ha Hb Hc).
      assert (Hra : (0 <= byteZ a - byteZ "0" <= 9)%Z) by (revert Ha; all_bytes a).
      assert (Hrb : (0 <= byteZ b - byteZ "0" <= 9)%Z) by (revert Hb; all_bytes b).
      assert (Hrc : (0 <= byteZ c - byteZ "0" <= 9)%Z) by (revert Hc; all_bytes c).
      match goal with |- context [(?x <? 0)%Z] => destruct (Z.ltb_spec x 0); [lia|] end.
      reflexivity.
    + intros [-> | Hl]; [reflexivity|].
      destruct sp1; [|reflexivity]. cbn [negb].
      destruct (Nat.eqb_spec (length second) 3); [contradiction|]. reflexivity.
Qed.

End parsed.

(** ** Readers over sources that answer alike *)

Section alike.
Context {R : Type} `{!io.Reader R}.
Variable Rel : R -> R -> Prop.
Hypothesis Read_alike :
  forall (s t : R) (n : nat), Rel s t -> rel_pair Rel (io.Read s n) (io.Read t n).

Lemma fillLoop_alike (i : nat) (b : bufio.Reader) (s t : R) :
  Rel s t -> rel_pair Rel (bufio.fillLoop i b s) (bufio.fillLoop i b t).
Proof.
  revert b s t. induction i as [|i IH]; intros b s t HR; cbn [bufio.fillLoop].
  - split; [reflexivity | exact HR].
  - read_alike Read_alike s t (length (bufio.buf b) - bufio.w b)%nat HR.
    destruct e0; [split; [reflexivity | assumption]|].
    destruct (0 <? length d0)%nat; [split; [reflexivity | assumption]|].
    apply IH. assumption.
Qed.

Lemma fill_alike (b : bufio.Reader) (s t : R) :
  Rel s t -> rel_pair Rel (bufio.fill b s) (bufio.fill b t).
Proof. apply fillLoop_alike. Qed.

Lemma ReadSliceLoop_alike (fuel : nat) (delim : ascii) (k : nat) (b : bufio.Reader) (s t : R) :
  Rel s t ->
  rel_pair Rel (bufio.ReadSliceLoop fuel delim k b s) (bufio.ReadSliceLoop fuel delim k b t).
Proof.
  revert k b s t. induction fuel as [|fuel IH]; intros k b s t HR; cbn [bufio.ReadSliceLoop].
  - split; [reflexivity | exact HR].
  - destruct (IndexByte _ delim); [split; [reflexivity | exact HR]|].
    destruct (bufio.err b); [split; [reflexivity | exact HR]|].
    destruct (length (bufio.buf b) <=? bufio.Buffered b)%nat; [split; [reflexivity | exact HR]|].
    destruct (fill_alike b s t HR) as [E HR'].
    destruct (bufio.fill b s) as [b1 s1], (bufio.fill b t) as [b2 t1].
    cbn [fst snd] in E, HR'. subst b2. apply IH. assumption.
Qed.

Lemma ReadSlice_alike (delim : ascii) (b : bufio.Reader) (s t : R) :
  Rel s t -> rel_pair Rel (bufio.ReadSlice delim b s) (bufio.ReadSlice delim b t).
Proof. apply ReadSliceLoop_alike. Qed.

Lemma bufio_Read_alike (b : bufio.Reader) (s t : R) (n : nat) :
  Rel s t -> rel_pair Rel (bufio.Read b s n) (bufio.Read b t n).
Proof.
  intros HR. unfold bufio.Read.
  destruct (n =? 0)%nat.
  { destruct (0 <? bufio.Buffered b)%nat; [split; [reflexivity | exact HR]|].
    destruct (bufio.readErr b). split; [reflexivity | exact HR]. }
  destruct (bufio.r b =? bufio.w b)%nat; [|split; [reflexivity | exact HR]].
  destruct (bufio.err b).
  { destruct (bufio.readErr b). split; [reflexivity | exact HR]. }
  destruct (length (bufio.buf b) <=? n)%nat.
  - read_alike Read_alike s t n HR. split; [reflexivity | assumption].
  - read_alike Read_alike s t (length (bufio.buf b)) HR.
    destruct (length d0 =? 0)%nat.
    + destruct (bufio.readErr _). split; [reflexivity | assumption].
    + split; [reflexivity | assumption].
Qed.

Lemma ReadFullLoop_alike (fuel n : nat) (got : bytes) (b : bufio.Reader) (s t : R) :
  Rel s t ->
  rel_opt Rel (bufio.ReadFullLoop fuel n got b s) (bufio.ReadFullLoop fuel n got b t).
Proof.
  revert got b s t. induction fuel as [|fuel IH]; intros got b s t HR; cbn [bufio.ReadFullLoop].
  - destruct (n <=? length got)%nat; cbn; [split; [reflexivity | exact HR] | exact I].
  - destruct (n <=? length got)%nat; [cbn; split; [reflexivity | exact HR]|].
    destruct (bufio_Read_alike b s t (n - length got) HR) as [E HR'].
    destruct (bufio.Read b s _) as [[[d e] b1] s1], (bufio.Read b t _) as [[[d' e'] b2] t1].
    cbn [fst snd] in E, HR'. injection E as -> -> ->.
    destruct e'; [|apply IH; assumption].
    repeat case_match; cbn; (split; [reflexivity | assumption]).
Qed.

Lemma readChunkLine_alike (cp : chunkedReader.t) (s t : R) :
  Rel s t ->
  rel_pair Rel (chunkedReader.readChunkLine cp s) (chunkedReader.readChunkLine cp t).
Proof.
  intros HR. unfold chunkedReader.readChunkLine.
  destruct (ReadSlice_alike LF (chunkedReader.r cp) s t HR) as [E HR'].
  destruct (bufio.ReadSlice LF _ s) as [[[ln e] b1] s1],
           (bufio.ReadSlice LF _ t) as [[[ln' e'] b2] t1].
  cbn [fst snd] in E, HR'. injection E as -> -> ->.
  repeat case_match; (split; [reflexivity | assumption]).
Qed.

Lemma beginChunk_alike (cp : chunkedReader.t) (s t : R) :
  Rel s t ->
  rel_pair Rel (chunkedReader.beginChunk cp s) (chunkedReader.beginChunk cp t).
Proof.
  intros HR. unfold chunkedReader.beginChunk.
  destruct (readChunkLine_alike cp s t HR) as [E HR'].
  destruct (chunkedReader.readChunkLine cp s) as [[[ln e] c1] s1],
           (chunkedReader.readChunkLine cp t) as [[[ln' e'] c2] t1].
  cbn [fst snd] in E, HR'. injection E as -> -> ->.
  repeat case_match; (split; [reflexivity | assumption]).
Qed.

Lemma readBody_alike (cp : chunkedReader.t) (s t : R) :
  Rel s t ->
  rel_flow Rel (chunkedReader.readBody cp s) (chunkedReader.readBody cp t).
Proof.
  intros HR. unfold chunkedReader.readBody.
  destruct (chunkedReader.outputSlice cp =? 0)%nat; [split; [reflexivity | exact HR]|].
  match goal with |- context [bufio.Read ?b s ?n] =>
    destruct (bufio_Read_alike b s t n HR) as [E HR'];
    destruct (bufio.Read b s n) as [[[d e] b1] s1], (bufio.Read b t n) as [[[d' e'] b2] t1] end.
  cbn [fst snd] in E, HR'. injection E as -> -> ->.
  split; [reflexivity | assumption].
Qed.

Lemma readLineAndBody_alike (cp : chunkedReader.t) (s t : R) :
  Rel s t ->
  rel_flow Rel (chunkedReader.readLineAndBody cp s) (chunkedReader.readLineAndBody cp t).
Proof.
  intros HR. unfold chunkedReader.readLineAndBody. cbv zeta.
  assert (Hafter : forall cp',
    rel_flow Rel
      (if (chunkedReader.unreadBytesInChunk cp' =? 0)%Z
       then if (0 <? chunkedReader.outputBytesFromBody cp')%nat
               && negb (chunkedReader.chunkHeaderAvailable cp')
            then chunkedReader.Break (cp', s)
            else chunkedReader.Continue (chunkedReader.beginChunk cp' s)
       else chunkedReader.readBody cp' s)
      (if (chunkedReader.unreadBytesInChunk cp' =? 0)%Z
       then if (0 <? chunkedReader.outputBytesFromBody cp')%nat
               && negb (chunkedReader.chunkHeaderAvailable cp')
            then chunkedReader.Break (cp', t)
            else chunkedReader.Continue (chunkedReader.beginChunk cp' t)
       else chunkedReader.readBody cp' t)).
  { intros cp'. destruct (_ =? 0)%Z; [|apply readBody_alike; exact HR].
    destruct (_ && _); [split; [reflexivity | exact HR]|].
    apply beginChunk_alike. exact HR. }
  destruct (0 <? chunkedReader.unwrittenBytesInBuffer cp)%nat; [|apply Hafter].
  destruct (chunkedReader.outputSlice cp =? 0)%nat; [split; [reflexivity | exact HR]|].
  destruct (negb _); [split; [reflexivity | exact HR]|].
  destruct (chunkedReader.unreadBytesInChunk (chunkedReader.flushLine cp) =? 0)%Z eqn:Hz.
  - destruct (bytes_eqb _ _); (split; [reflexivity | exact HR]).
  - specialize (Hafter (chunkedReader.flushLine cp)). rewrite Hz in Hafter. exact Hafter.
Qed.

Lemma readStep_alike (fuel : nat) (cp : chunkedReader.t) (s t : R) :
  Rel s t ->
  match chunkedReader.readStep fuel cp s, chunkedReader.readStep fuel cp t with
  | Some x, Some y => rel_flow Rel x y
  | None, None => True
  | _, _ => False
  end.
Proof.
  intros HR. unfold chunkedReader.readStep.
  destruct (chunkedReader.checkEnd cp); [|apply readLineAndBody_alike; exact HR].
  destruct (_ && _ && _); [split; [reflexivity | exact HR]|].
  assert (Hfooter : forall cp' s' t', Rel s' t' ->
    rel_flow Rel
      (if (chunkedReader.outputSlice cp' =? 0)%nat then chunkedReader.Break (cp', s')
       else if (chunkedReader.unreadBytesInChunk (chunkedReader.flushFooter cp') =? 0)%Z
               && (chunkedReader.unwrittenBytesInBuffer (chunkedReader.flushFooter cp') =? 0)%nat
               && bytes_eqb (chunkedReader.lineBytes (chunkedReader.flushFooter cp'))
                    chunkedReader.zeroChunkLine
            then chunkedReader.Continue
                   (chunkedReader.set_err (Some EOF) (chunkedReader.flushFooter cp'), s')
            else chunkedReader.readLineAndBody (chunkedReader.flushFooter cp') s')
      (if (chunkedReader.outputSlice cp' =? 0)%nat then chunkedReader.Break (cp', t')
       else if (chunkedReader.unreadBytesInChunk (chunkedReader.flushFooter cp') =? 0)%Z
               && (chunkedReader.unwrittenBytesInBuffer (chunkedReader.flushFooter cp') =? 0)%nat
               && bytes_eqb (chunkedReader.lineBytes (chunkedReader.flushFooter cp'))
                    chunkedReader.zeroChunkLine
            then chunkedReader.Continue
                   (chunkedReader.set_err (Some EOF) (chunkedReader.flushFooter cp'), t')
            else chunkedReader.readLineAndBody (chunkedReader.flushFooter cp') t')).
  { intros cp' s' t' HR'.
    destruct (_ =? 0)%nat; [split; [reflexivity | exact HR']|].
    destruct (_ && _ && _); [split; [reflexivity | exact HR']|].
    apply readLineAndBody_alike. exact HR'. }
  destruct (chunkedReader.unwrittenBytesInBuffer cp =? 0)%nat; [|apply Hfooter; exact HR].
  pose proof (ReadFullLoop_alike fuel 2 [] (chunkedReader.r cp) s t HR) as HF.
  destruct (bufio.ReadFullLoop fuel 2 [] _ s) as [[[[g e] b1] s1]|],
           (bufio.ReadFullLoop fuel 2 [] _ t) as [[[[g' e'] b2] t1]|];
    cbn in HF; try contradiction; [|exact I].
  destruct HF as [E HR']. cbn [fst snd] in E, HR'. injection E as -> -> ->.
  destruct e'.
  - destruct (error_eqb _ _); (split; [reflexivity | assumption]).
  - destruct (negb _); [split; [reflexivity | assumption]|].
    apply Hfooter. assumption.
Qed.

Lemma readLoop_alike (fuel : nat) (cp : chunkedReader.t) (s t : R) :
  Rel s t ->
  rel_opt Rel (chunkedReader.readLoop fuel cp s) (chunkedReader.readLoop fuel cp t).
Proof.
  revert cp s t. induction fuel as [|fuel IH]; intros cp s t HR; cbn [chunkedReader.readLoop].
  - destruct (chunkedReader.err cp); cbn; [split; [reflexivity | exact HR] | exact I].
  - destruct (chunkedReader.err cp); [cbn; split; [reflexivity | exact HR]|].
    pose proof (readStep_alike fuel cp s t HR) as HS.
    destruct (chunkedReader.readStep fuel cp s) as [[[c1 s1]|[c1 s1]]|],
             (chunkedReader.readStep fuel cp t) as [[[c2 t1]|[c2 t1]]|];
      cbn in HS; try contradiction; try exact I.
    + destruct HS as [E HR']. cbn [fst snd] in E, HR'. subst c2. apply IH. assumption.
    + exact HS.
Qed.

Lemma chunkedReader_Read_alike (fuel : nat) (cp : chunkedReader.t) (s t : R) (n : nat) :
  Rel s t ->
  rel_opt Rel (chunkedReader.Read fuel cp s n) (chunkedReader.Read fuel cp t n).
Proof.
  intros HR. unfold chunkedReader.Read.
  match goal with |- context [chunkedReader.readLoop fuel ?c s] =>
    pose proof (readLoop_alike fuel c s t HR) as HL;
    destruct (chunkedReader.readLoop fuel c s) as [[c1 s1]|],
             (chunkedReader.readLoop fuel c t) as [[c2 t1]|] end;
    cbn in HL; try contradiction; [|exact I].
  destruct HL as [E HR']. cbn [fst snd] in E, HR'. subst c2.
  split; [reflexivity | assumption].
Qed.

End alike.

(** ** A drained processor *)

Section drained.
Context {R : Type} `{!io.Reader R} `{!net.Lib}.
Import httpProcessor.

Lemma drainedAlike_fields (h1 h2 : t R) :
  drainedAlike h1 h2 ->
  buf h2 = buf h1 /\ reader h2 = reader h1 /\ bufReadPos h2 = bufReadPos h1 /\
  bufWritePos h2 = bufWritePos h1 /\ totalBytes h2 = totalBytes h1 /\
  bufferBytesRead h2 = bufferBytesRead h1 /\ bufferUsed h2 = true /\
  parsedHeaders h2 = parsedHeaders h1 /\ lastError h2 = lastError h1 /\
  request h2 = request h1 /\ requestMethod h2 = requestMethod h1 /\
  requestRawURI h2 = requestRawURI h1 /\ URL h2 = URL h1 /\
  bodyStartsIndex h2 = bodyStartsIndex h1 /\ bodyLength h2 = bodyLength h1 /\
  headerBodyReader h2 = headerBodyReader h1 /\ responseStatusCode h2 = responseStatusCode h1.
Proof.
  intros [Hu He]. destruct h1, h2. cbn in *. injection He as -> -> -> -> -> -> -> -> -> -> -> -> -> -> -> -> ->.
  repeat split; try reflexivity. exact Hu.
Qed.

Lemma drainedAlike_refl (h : t R) : bufferUsed h = true -> drainedAlike h h.
Proof. intros Hu. split; [exact Hu | reflexivity]. Qed.

Lemma drainedAlike_trans (h1 h2 h3 : t R) :
  drainedAlike h1 h2 -> drainedAlike h2 h3 -> drainedAlike h1 h3.
Proof. intros [Hu E1] [_ E2]. split; [exact Hu | congruence]. Qed.

Lemma drainedAlike_set_headers (m : option (gmap bytes (list bytes))) (h : t R) :
  bufferUsed h = true -> drainedAlike h (set_headers m h).
Proof. intros Hu. split; [exact Hu | reflexivity]. Qed.

Lemma drainedAlike_set_reader (br : bodyReader) (h1 h2 : t R) :
  drainedAlike h1 h2 -> drainedAlike (set_headerBodyReader br h1) (set_headerBodyReader br h2).
Proof.
  intros [Hu He]. destruct h1, h2. cbn in *.
  injection He as -> -> -> -> -> -> -> -> -> -> -> -> -> -> -> -> ->.
  split; [exact Hu | reflexivity].
Qed.

(** Once the buffer is drained, [Read] goes to the underlying reader and
    does not look at the headers. *)
Lemma Read_drained (h1 h2 : t R) (n : nat) :
  drainedAlike h1 h2 -> rel_pair drainedAlike (Read h1 n) (Read h2 n).
Proof.
  intros [Hu He]. destruct h1, h2. cbn in *.
  injection He as -> -> -> -> -> -> -> -> -> -> -> -> -> -> -> -> ->.
  subst. unfold Read. cbn.
  destruct lastError1; [split; [reflexivity | split; reflexivity]|].
  destruct (io.Read reader1 n) as [[d e] rd'].
  destruct e; cbn; (split; [reflexivity | split; reflexivity]).
Qed.

Lemma limitRead_drained (N : Z) (h1 h2 : t R) (n : nat) :
  drainedAlike h1 h2 -> rel_pair drainedAlike (limitRead N h1 n) (limitRead N h2 n).
Proof.
  intros HD. unfold limitRead.
  destruct (N <=? 0)%Z; [split; [reflexivity | exact HD]|].
  match goal with |- context [Read h1 ?k] =>
    destruct (Read_drained h1 h2 k HD) as [E HD'];
    destruct (Read h1 k) as [[d e] h1'], (Read h2 k) as [[d' e'] h2'] end.
  cbn [fst snd] in E, HD'. injection E as -> ->.
  split; [reflexivity | exact HD'].
Qed.

Lemma chunkedStage_drained (fuel : nat) (N : Z) (cr : chunkedReader.t) (h1 h2 : t R) (n : nat) :
  drainedAlike h1 h2 ->
  rel_outcome drainedAlike (chunkedStage fuel N cr h1 n) (chunkedStage fuel N cr h2 n).
Proof.
  intros HD. unfold chunkedStage.
  pose proof (@chunkedReader_Read_alike (t R) asReader drainedAlike Read_drained
                fuel cr h1 h2 n HD) as HC.
  destruct (chunkedReader.Read fuel cr h1 n) as [[[[d e] c1] h1']|],
           (chunkedReader.Read fuel cr h2 n) as [[[[d' e'] c2] h2']|];
    cbn in HC; try contradiction; [|exact I].
  destruct HC as [E HD']. cbn [fst snd] in E, HD'. injection E as -> -> ->.
  split; [reflexivity|]. apply drainedAlike_set_reader. exact HD'.
Qed.

Lemma bodyRead_drained (fuel : nat) (h1 h2 : t R) (n : nat) :
  drainedAlike h1 h2 ->
  rel_outcome drainedAlike (bodyRead fuel h1 n) (bodyRead fuel h2 n).
Proof.
  intros HD. unfold bodyRead.
  destruct (drainedAlike_fields _ _ HD) as
    (_ & _ & _ & _ & _ & _ & _ & _ & _ & _ & _ & _ & _ & _ & _ & -> & _).
  destruct (headerBodyReader h1) as [| |stage N cr|N].
  - exact I.
  - apply Read_drained. exact HD.
  - destruct stage as [|[|stage]].
    + destruct (limitRead_drained N h1 h2 n HD) as [E HD'].
      destruct (limitRead N h1 n) as [[[d e] N1] h1'], (limitRead N h2 n) as [[[d' e'] N2] h2'].
      cbn [fst snd] in E, HD'. injection E as -> -> ->.
      destruct (isErr e' EOF).
      * destruct (0 <? length d')%nat.
        -- split; [reflexivity|]. apply drainedAlike_set_reader. exact HD'.
        -- apply chunkedStage_drained. exact HD'.
      * split; [reflexivity|]. apply drainedAlike_set_reader. exact HD'.
    + apply chunkedStage_drained. exact HD.
    + split; [reflexivity | exact HD].
  - destruct (limitRead_drained N h1 h2 n HD) as [E HD'].
    destruct (limitRead N h1 n) as [[[d e] N1] h1'], (limitRead N h2 n) as [[[d' e'] N2] h2'].
    cbn [fst snd] in E, HD'. injection E as -> -> ->.
    split; [reflexivity|]. apply drainedAlike_set_reader. exact HD'.
Qed.

Lemma bodyReads_drained (fuel : nat) (sizes : list nat) (h1 h2 : t R) :
  drainedAlike h1 h2 -> bodyReads fuel h1 sizes = bodyReads fuel h2 sizes.
Proof.
  revert h1 h2. induction sizes as [|n sizes IH]; intros h1 h2 HD; [reflexivity|].
  cbn [bodyReads].
  pose proof (bodyRead_drained fuel h1 h2 n HD) as HB.
  destruct (bodyRead fuel h1 n) as [[[d e] h1']| |], (bodyRead fuel h2 n) as [[[d' e'] h2']| |];
    cbn in HB; try contradiction; try reflexivity.
  destruct HB as [E HD']. cbn [fst snd] in E, HD'. injection E as -> ->.
  cbn [bind]. rewrite (IH h1' h2' HD'). reflexivity.
Qed.

(** [replaceHeader] on a drained processor: only the map of parsed headers
    can change. *)
Lemma replaceHeader_drained (headerName headerValue : bytes) (h : t R) :
  bufferUsed h = true ->
  exists h',
    replaceHeader headerName headerValue h = Done h' /\ drainedAlike h h' /\
    headers h' =
      match headers h with
      | Some m =>
          match m !! headerName with
          | Some [_] => Some (<[headerName := [headerValue]]> m)
          | _ => headers h
          end
      | None => None
      end.
Proof.
  intros Hu. unfold replaceHeader, ReadHeadersIfNeeded. rewrite Hu. cbn [negb snd].
  destruct (headers h) as [m|] eqn:Hh.
  2:{ exists h. split; [reflexivity|]. split; [apply drainedAlike_refl; exact Hu | exact Hh]. }
  destruct (m !! headerName) as [[|old [|? ?]]|] eqn:Hm;
    try (exists h; split; [reflexivity|]; split; [apply drainedAlike_refl; exact Hu | exact Hh]).
  assert (Hu' : bufferUsed (set_headers (Some (<[headerName:=[headerValue]]> m)) h) = true)
    by (destruct h; exact Hu).
  rewrite Hu'. cbn [negb].
  eexists. split; [reflexivity|]. split; [apply drainedAlike_set_headers; exact Hu|].
  destruct h; reflexivity.
Qed.

Lemma SetHostHeader_drained (domainURL hostHeader : bytes) (h : t R) :
  bufferUsed h = true ->
  exists h',
    SetHostHeader domainURL hostHeader h = Done h' /\ drainedAlike h h' /\
    forall m old, headers h = Some m -> m !! B "Host" = Some [old] ->
      header h' (B "Host") = Some [hostHeader].
Proof.
  intros Hu. unfold SetHostHeader.
  replace (ReadHeadersIfNeeded h).2 with h by (unfold ReadHeadersIfNeeded; rewrite Hu; reflexivity).
  destruct (replaceHeader_drained (B "Host") hostHeader h Hu) as (h1 & -> & HD1 & Hh1).
  cbn [bind].
  assert (Hu1 : bufferUsed h1 = true) by (apply (drainedAlike_fields _ _ HD1)).
  assert (Hhost : forall m old, headers h = Some m -> m !! B "Host" = Some [old] ->
                    header h1 (B "Host") = Some [hostHeader]).
  { intros m old Hm Hl. unfold header. rewrite Hh1, Hm, Hl. apply lookup_insert_eq. }
  destruct (headers h1) as [m1|] eqn:Hm1.
  2:{ exists h1. repeat split; try assumption; apply HD1. }
  destruct (m1 !! B "Origin") as [[|oldO [|? ?]]|] eqn:HO;
    try (exists h1; repeat split; try assumption; apply HD1).
  destruct (Contains _ _).
  2:{ exists h1. repeat split; try assumption; apply HD1. }
  match goal with |- context [replaceHeader ?n ?v h1] =>
    destruct (replaceHeader_drained n v h1 Hu1) as (h2 & -> & HD2 & Hh2) end.
  exists h2. split; [reflexivity|]. split; [eapply drainedAlike_trans; eassumption|].
  intros m old Hm Hl. specialize (Hhost m old Hm Hl).
  unfold header in *. rewrite Hh2, Hm1, HO. rewrite Hm1 in Hhost.
  rewrite lookup_insert_ne; [exact Hhost | discriminate].
Qed.

(** C8: a header replacement requested after the buffer has been drained
    is dropped as far as the byte stream goes. [replaceHeader] and
    [SetHostHeader] end normally, leave the buffer, [bufWritePos] and
    [bodyStartsIndex] as they were, and every later run of reads of the
    body reader gives what it gives without the replacement. *)
Theorem replacement_after_drain_dropped
    (domainURL headerName headerValue : bytes) (h : t R) :
  bufferUsed h = true ->
  (exists h',
     replaceHeader headerName headerValue h = Done h' /\
     buf h' = buf h /\ bufWritePos h' = bufWritePos h /\
     bodyStartsIndex h' = bodyStartsIndex h /\
     forall fuel sizes,
       bodyReads fuel (GetReader h') sizes = bodyReads fuel (GetReader h) sizes) /\
  (exists h',
     SetHostHeader domainURL headerValue h = Done h' /\
     buf h' = buf h /\ bufWritePos h' = bufWritePos h /\
     bodyStartsIndex h' = bodyStartsIndex h /\
     forall fuel sizes,
       bodyReads fuel (GetReader h') sizes = bodyReads fuel (GetReader h) sizes).
Proof.
  intros Hu.
  assert (Hgen : forall h', drainedAlike h h' ->
            buf h' = buf h /\ bufWritePos h' = bufWritePos h /\
            bodyStartsIndex h' = bodyStartsIndex h /\
            forall fuel sizes,
              bodyReads fuel (GetReader h') sizes = bodyReads fuel (GetReader h) sizes).
  { intros h' HD.
    destruct (drainedAlike_fields _ _ HD) as
      (Hb & _ & _ & Hw & _ & _ & Hu' & _ & _ & _ & _ & _ & _ & Hs & _).
    repeat split; try assumption.
    intros fuel sizes. unfold GetReader, ReadHeadersIfNeeded. rewrite Hu, Hu'. cbn [negb snd].
    symmetry. apply bodyReads_drained. exact HD. }
  split.
  - destruct (replaceHeader_drained headerName headerValue h Hu) as (h' & Hr & HD & _).
    exists h'. split; [exact Hr | apply Hgen; exact HD].
  - destruct (SetHostHeader_drained domainURL headerValue h Hu) as (h' & Hr & HD & _).
    exists h'. split; [exact Hr | apply Hgen; exact HD].
Qed.

(** C10, as amended: after the buffer has been drained, [SetHostHeader]
    still replaces the value of a [Host] header that has exactly one value
    in the parsed headers, and leaves the buffer alone. A later [GetHost]
    returns the new value, unless the request URL has a non-empty [host]
    query parameter, which [GetHost] returns first. *)
Theorem GetHost_after_drained_SetHostHeader
    (domainURL hostHeader old : bytes) (m : gmap bytes (list bytes)) (h : t R) :
  bufferUsed h = true ->
  headers h = Some m ->
  m !! B "Host" = Some [old] ->
  let q := match URL h with Some u => net.QueryGet u (B "host") | None => [] end in
  exists h',
    SetHostHeader domainURL hostHeader h = Done h' /\
    header h' (B "Host") = Some [hostHeader] /\
    buf h' = buf h /\
    (GetHost h').1 = inl (if bytes_eqb q [] then hostHeader else q).
Proof.
  intros Hu Hm Hl q.
  destruct (SetHostHeader_drained domainURL hostHeader h Hu) as (h' & Hr & HD & Hh).
  exists h'. split; [exact Hr|].
  specialize (Hh m old Hm Hl). split; [exact Hh|].
  destruct (drainedAlike_fields _ _ HD) as
    (Hb & _ & _ & _ & _ & _ & Hu' & _ & _ & _ & _ & _ & HU & _).
  split; [exact Hb|].
  unfold GetHost, ReadHeadersIfNeeded. rewrite Hu'. cbn [negb]. rewrite Hh, HU.
  subst q. destruct (URL h) as [u|]; [|reflexivity].
  destruct (bytes_eqb (net.QueryGet u (B "host")) []); reflexivity.
Qed.

End drained.

(** ** Tunnel names and TCP ports *)

Section registry.
Import forward.



Lemma generatedNames_enough (fuel : nat) (rnd : bytes) :
  (length rnd < fuel)%nat -> generatedNames fuel rnd = allNames rnd.
Proof.
  unfold allNames. remember (length rnd) as k eqn:Hk.
  revert rnd fuel Hk. induction k as [k IH] using lt_wf_ind. intros rnd fuel Hk Hf.
  destruct fuel as [|fuel]; [lia|]. cbn [generatedNames].
  unfold generateRandomTunnelName, tunnelNameLength.
  destruct (Nat.ltb_spec (length rnd) 4); [reflexivity|].
  f_equal.
  assert (Hd : (length (drop 4 rnd) < k)%nat) by (rewrite length_drop; lia).
  rewrite (IH _ Hd (drop 4 rnd) fuel eq_refl) by lia.
  rewrite (IH _ Hd (drop 4 rnd) k eq_refl) by lia.
  reflexivity.
Qed.

(** The names are made of the random source four bytes at a time. *)
Lemma allNames_unfold (rnd : bytes) :
  allNames rnd =
  if (length rnd <? 4)%nat then []
  else map (fun b => charMap (byteZ b mod 36)) (take 4 rnd) :: allNames (drop 4 rnd).
Proof.
  unfold allNames at 1. cbn [generatedNames].
  unfold generateRandomTunnelName, tunnelNameLength.
  destruct (Nat.ltb_spec (length rnd) 4); [reflexivity|].
  f_equal. apply generatedNames_enough. rewrite length_drop. lia.
Qed.

Lemma charMap_alnum (b : ascii) : isLowerAlnum (charMap (byteZ b mod 36)) = true.
Proof. all_bytes b. Qed.



Lemma scanPorts_first (bindAddr : bytes) (forwards : gmap bytes forwardsListenerData)
    (count : nat) (start p : Z) :
  (start <= p < start + Z.of_nat count)%Z ->
  forwards !! addrOf bindAddr p = None ->
  (forall q, (start <= q < p)%Z -> forwards !! addrOf bindAddr q <> None) ->
  scanPorts count bindAddr forwards start = Some p.
Proof.
  revert start. induction count as [|count IH]; intros start Hr Hfree Htaken; [lia|].
  cbn [scanPorts]. fold (addrOf bindAddr start).
  destruct (Z.eq_dec start p) as [->|Hne].
  - rewrite Hfree. reflexivity.
  - destruct (forwards !! addrOf bindAddr start) eqn:Hs.
    + apply IH; [lia | exact Hfree |]. intros q Hq. apply Htaken. lia.
    + exfalso. apply (Htaken start); [lia | exact Hs].
Qed.

(** C6, as amended: with [bind_port = 0] the handler takes the first port
    [p] of 1000..65535 that has no entry for [bind_addr:p]; when binding a
    listener there succeeds it enters the listener for the client and
    replies success with [p], and when binding fails it replies failure
    and enters nothing. *)
Theorem tcp_port_allocation
    (listen : bytes -> bool) (bindAddr sessionHex cID domainHost : bytes)
    (forwards : gmap bytes forwardsListenerData) (p : Z) :
  cID <> [] ->
  (1000 <= p <= 65535)%Z ->
  forwards !! addrOf bindAddr p = None ->
  (forall q, (1000 <= q < p)%Z -> forwards !! addrOf bindAddr q <> None) ->
  acquireTCPPort listen bindAddr 0 sessionHex cID domainHost forwards =
    Done (if listen (addrOf bindAddr p)
          then mkTcpResult (Success p)
                 (<[addrOf bindAddr p := mkForward (Some (addrOf bindAddr p)) cID sessionHex (B "tcp")]>
                    forwards)
                 [domainHost ++ B ":" ++ Itoa p ++ [LF]] []
          else mkTcpResult Failure forwards [] []).
Proof.
  intros Hc Hr Hfree Htaken. unfold acquireTCPPort.
  change (0 =? 0)%Z with true. cbv iota.
  rewrite (scanPorts_first bindAddr forwards _ 1000 p); try assumption.
  2:{ change lastScanned with 65536%Z. lia. }
  fold (addrOf bindAddr p). rewrite Hfree. cbn [negb orb].
  assert (He : bytes_eqb [] cID = false) by (destruct cID; [congruence | reflexivity]).
  rewrite He. destruct (listen (addrOf bindAddr p)); reflexivity.
Qed.

(** The loop runs one port past the range: with every port of 1000..65535
    taken it settles on 65536. *)
Lemma scanPorts_past_range (bindAddr : bytes) (forwards : gmap bytes forwardsListenerData) :
  forwards !! addrOf bindAddr 65536 = None ->
  (forall q, (1000 <= q < 65536)%Z -> forwards !! addrOf bindAddr q <> None) ->
  scanPorts (Z.to_nat (lastScanned - 1000 + 1)) bindAddr forwards 1000 = Some 65536%Z.
Proof.
  intros Hfree Htaken. apply scanPorts_first; try assumption.
  change lastScanned with 65536%Z. lia.
Qed.

End registry.

(** ** The chunked reader on a stream that arrives whole *)

Lemma Index_byte_first (l x : bytes) (c : ascii) :
  Forall (fun a => a <> c) l -> Index (l ++ c :: x) [c] = Some (length l).
Proof.
  induction l as [|a l IH]; intros Hl.
  - cbn. rewrite byte_eqb_refl. destruct x; reflexivity.
  - inversion Hl as [|? ? Ha Hl']; subst.
    rewrite Index_unfold. cbn [app HasPrefix].
    apply byte_eqb_neq in Ha. rewrite Ha. cbn [andb].
    rewrite (IH Hl'). reflexivity.
Qed.

Lemma Index_byte_none (l : bytes) (c : ascii) :
  Forall (fun a => a <> c) l -> Index l [c] = None.
Proof.
  induction l as [|a l IH]; intros Hl; [reflexivity|].
  inversion Hl as [|? ? Ha Hl']; subst.
  rewrite Index_unfold. cbn [HasPrefix].
  apply byte_eqb_neq in Ha. rewrite Ha. cbn [andb].
  rewrite (IH Hl'). reflexivity.
Qed.

Lemma slice_mid (bf pre x post : bytes) (lo hi : nat) :
  bf = pre ++ x ++ post -> lo = length pre -> hi = (lo + length x)%nat ->
  slice bf lo hi = x.
Proof.
  intros -> -> ->. unfold slice.
  rewrite drop_app_length.
  replace (length pre + length x - length pre)%nat with (length x) by lia.
  apply take_app_length.
Qed.

Lemma bufio_Read_buffered (bf : bytes) (r w : nat) (e : option error)
    {R : Type} `{!io.Reader R} (rd : R) (k : nat) :
  (0 < k)%nat -> (r < w)%nat ->
  bufio.Read (bufio.mk bf r w e) rd k =
    (slice bf r (r + Nat.min k (w - r)), None, bufio.mk bf (r + Nat.min k (w - r)) w e, rd).
Proof.
  intros Hk Hr. unfold bufio.Read. cbn [bufio.r bufio.w bufio.buf bufio.err].
  destruct (Nat.eqb_spec k 0); [lia|].
  destruct (Nat.eqb_spec r w); [lia|]. reflexivity.
Qed.

Lemma ReadFull_buffered (bf : bytes) (r w : nat) (e : option error)
    {R : Type} `{!io.Reader R} (rd : R) (fuel : nat) :
  (r + 2 <= w)%nat -> (w <= length bf)%nat ->
  bufio.ReadFullLoop (S fuel) 2 [] (bufio.mk bf r w e) rd =
    Some (slice bf r (r + 2), None, bufio.mk bf (r + 2) w e, rd).
Proof.
  intros Hr Hw. cbn [bufio.ReadFullLoop length Nat.leb].
  rewrite bufio_Read_buffered by lia.
  replace (Nat.min (2 - 0) (w - r)) with 2%nat by lia.
  cbn [app].
  assert (Hl : length (slice bf r (r + 2)) = 2%nat).
  { unfold slice. rewrite length_take, length_drop. lia. }
  destruct fuel; cbn [bufio.ReadFullLoop]; rewrite Hl; reflexivity.
Qed.

Lemma ReadSlice_buffered (bf : bytes) (r w : nat) (e : option error)
    {R : Type} `{!io.Reader R} (rd : R) (l x : bytes) :
  slice bf r w = l ++ LF :: x -> Forall (fun a => a <> LF) l ->
  bufio.ReadSlice LF (bufio.mk bf r w e) rd =
    ((r, S (length l)), None, bufio.mk bf (r + length l + 1) w e, rd).
Proof.
  intros Hs Hl. unfold bufio.ReadSlice. cbn [bufio.buf].
  replace (length bf + 2)%nat with (S (length bf + 1)) by lia.
  cbn [bufio.ReadSliceLoop bufio.r bufio.w bufio.buf].
  rewrite Nat.add_0_r, Hs. unfold IndexByte. rewrite (Index_byte_first l x LF Hl).
  rewrite Nat.add_0_r. reflexivity.
Qed.

Lemma hexValue_plain (b : ascii) (d : Z) :
  chunkedReader.hexValue b = Some d ->
  b <> LF /\ b <> ";"%char /\ chunkedReader.isASCIISpace b = false.
Proof. revert d. all_bytes b. Qed.

Lemma parseHexLoop_digits (i : nat) (n : Z) (v : bytes) (m : Z) :
  (i <= 16)%nat ->
  chunkedReader.parseHexLoop i n v = (m, None) ->
  Forall (fun b => chunkedReader.hexValue b <> None) v /\ (i + length v <= 16)%nat.
Proof.
  revert i n. induction v as [|b v IH]; intros i n Hi; cbn [chunkedReader.parseHexLoop].
  - intros _. split; [constructor | cbn; lia].
  - destruct (chunkedReader.hexValue b) as [d|] eqn:Hb; [|discriminate].
    destruct (Nat.eqb_spec i 16); [discriminate|].
    intros Hp. destruct (IH (S i) _ ltac:(lia) Hp) as [Hf Hl].
    split; [constructor; [congruence | exact Hf] | cbn; lia].
Qed.

Lemma trimTrailingWhitespace_line (h : bytes) :
  Forall (fun b => chunkedReader.isASCIISpace b = false) h ->
  chunkedReader.trimTrailingWhitespace (h ++ CRLF) = h.
Proof.
  intros Hh. unfold chunkedReader.trimTrailingWhitespace, CRLF.
  rewrite rev_app_distr. cbn [rev app chunkedReader.trimLeadingRev].
  change (chunkedReader.isASCIISpace LF) with true.
  change (chunkedReader.isASCIISpace CR) with true. cbv iota.
  destruct (rev h) as [|c t] eqn:Hr.
  - apply (f_equal (@rev ascii)) in Hr. rewrite rev_involutive in Hr. subst h. reflexivity.
  - assert (Hc : chunkedReader.isASCIISpace c = false).
    { apply (Forall_rev) in Hh. rewrite Hr in Hh. inversion Hh; assumption. }
    cbn [chunkedReader.trimLeadingRev]. rewrite Hc. rewrite <- Hr. apply rev_involutive.
Qed.

Lemma removeChunkExtension_plain (h : bytes) :
  Forall (fun b => b <> ";"%char) h -> chunkedReader.removeChunkExtension h = h.
Proof.
  intros Hh. unfold chunkedReader.removeChunkExtension, Cut.
  change (B ";") with [";"%char]. rewrite (Index_byte_none h _ Hh). reflexivity.
Qed.

(** A size line that [parseHexUint] accepts has no line feed, no white
    space and no extension, and at most sixteen digits. *)
Lemma size_line_plain (h : bytes) (m : Z) :
  chunkedReader.parseHexUint h = (m, None) ->
  Forall (fun a => a <> LF) (h ++ [CR]) /\
  chunkedReader.trimTrailingWhitespace (h ++ CRLF) = h /\
  chunkedReader.removeChunkExtension h = h /\
  (length h <= 16)%nat.
Proof.
  intros Hp. destruct (parseHexLoop_digits 0 _ _ _ ltac:(lia) Hp) as [Hd Hl].
  assert (Hall : Forall (fun b => b <> LF /\ b <> ";"%char /\ chunkedReader.isASCIISpace b = false) h).
  { eapply Forall_impl; [exact Hd|]. intros b Hb. cbn beta in Hb.
    destruct (chunkedReader.hexValue b) as [d|] eqn:E; [|congruence].
    exact (hexValue_plain b d E). }
  repeat split.
  - apply Forall_app. split.
    + eapply Forall_impl; [exact Hall|]. intros b Hb; apply Hb.
    + constructor; [discriminate | constructor].
  - apply trimTrailingWhitespace_line.
    eapply Forall_impl; [exact Hall|]. intros b Hb; apply Hb.
  - apply removeChunkExtension_plain.
    eapply Forall_impl; [exact Hall|]. intros b Hb; apply Hb.
  - cbn in Hl. exact Hl.
Qed.

Lemma slice_prefix (bf : bytes) (r w : nat) (a x : bytes) :
  slice bf r w = a ++ x -> slice bf r (r + length a) = a.
Proof.
  unfold slice. intros Hs.
  assert (Hl : (length a <= w - r)%nat).
  { apply (f_equal (@length ascii)) in Hs. rewrite length_take, length_app in Hs. lia. }
  replace (r + length a - r)%nat with (length a) by lia.
  assert (Ht : take (length a) (take (w - r) (drop r bf)) = take (length a) (drop r bf)).
  { rewrite take_take. f_equal. lia. }
  rewrite <- Ht, Hs. apply take_app_length.
Qed.

Lemma slice_from (bf pre x post : bytes) (w : nat) :
  bf = pre ++ x ++ post -> (length pre + length x <= w)%nat ->
  slice bf (length pre) w = x ++ take (w - length pre - length x) post.
Proof.
  intros -> Hw. unfold slice. rewrite drop_app_length.
  rewrite take_app_ge by lia. reflexivity.
Qed.

Lemma frames_head (l : list (bytes * bytes)) :
  Forall stream.validFrame l ->
  exists post,
    stream.frames l = ((headLine l).1 ++ CRLF) ++ post
    /\ chunkedReader.parseHexUint (headLine l).1 = ((headLine l).2, None).
Proof.
  intros Hv. destruct l as [|[h d] l]; cbn [headLine stream.frames fst snd].
  - exists CRLF. split; reflexivity.
  - apply Forall_cons in Hv as [[Hp _] _]. cbn [fst snd] in Hp.
    eexists. split; [rewrite <- app_assoc; reflexivity | exact Hp].
Qed.

Section whole.
Context {R : Type} `{!io.Reader R}.

Lemma flushLine_atLine (bf : bytes) (w : nat) (pre h post footer out : bytes)
    (unread : Z) (room fromBody total : nat) :
  bf = pre ++ (h ++ CRLF) ++ post ->
  (length h + 2 <= room)%nat ->
  chunkedReader.flushLine (atLine bf w pre h unread footer room out fromBody total)
  = chunkedReader.mkChunked (bufio.mk bf (length pre + length h + 2) w None) unread None
      footer false (room - (length h + 2)) (out ++ h ++ CRLF) fromBody
      (total + (length h + 2)) (length pre, (length h + 2)%nat) 0.
Proof.
  intros Hbf Hroom. unfold chunkedReader.flushLine, chunkedReader.lineBytes, atLine. fields.
  rewrite (slice_mid bf pre (h ++ CRLF) post _ _ Hbf eq_refl)
    by (rewrite length_app; cbn; lia).
  rewrite Nat.min_r by lia. rewrite Nat.sub_diag, drop_0.
  rewrite firstn_all2 by (rewrite length_app; cbn; lia).
  reflexivity.
Qed.

(** Copying the size line and the data of a chunk. *)
Lemma step_line_and_data (fuel : nat) (rd : R) (bf : bytes) (w : nat)
    (pre h d post footer out : bytes) (room fromBody total : nat) :
  bf = pre ++ (h ++ CRLF) ++ d ++ post ->
  (length pre + length h + 2 + length d <= w)%nat ->
  (length h + 2 + length d <= room)%nat ->
  d <> [] ->
  chunkedReader.readStep fuel
    (atLine bf w pre h (Z.of_nat (length d)) footer room out fromBody total) rd
  = Some (chunkedReader.Continue
      (atFooter bf w (pre ++ (h ++ CRLF) ++ d) (length pre, (length h + 2)%nat) footer
         (room - (length h + 2) - length d) (out ++ (h ++ CRLF) ++ d)
         (fromBody + length d) (total + (length h + 2) + length d), rd)).
Proof.
  intros Hbf Hw Hroom Hd.
  assert (Hdl : (0 < length d)%nat) by (destruct d; [congruence | cbn; lia]).
  pose proof (flushLine_atLine bf w pre h (d ++ post) footer out (Z.of_nat (length d))
                room fromBody total Hbf ltac:(lia)) as HF.
  unfold atLine in *.
  unfold chunkedReader.readStep. fields.
  unfold chunkedReader.readLineAndBody. cbv zeta.
  rewrite HF. fields.
  destruct (Nat.ltb_spec 0 (length h + 2)); [|lia].
  destruct (Nat.eqb_spec room 0); [lia|].
  cbn [Nat.eqb negb].
  destruct (Z.eqb_spec (Z.of_nat (length d)) 0); [lia|].
  unfold chunkedReader.readBody. fields.
  destruct (Nat.eqb_spec (room - (length h + 2)) 0); [lia|].
  match goal with |- context [bufio.Read _ rd ?k] =>
    assert (Hk : k = length d) end.
  { destruct (Z.ltb_spec (Z.of_nat (length d)) (Z.of_nat (room - (length h + 2)))); lia. }
  rewrite Hk. rewrite bufio_Read_buffered by lia.
  rewrite Nat.min_l by lia.
  assert (Hbf' : bf = (pre ++ h ++ CRLF) ++ d ++ post)
    by (rewrite Hbf, <- !app_assoc; reflexivity).
  assert (Hlen : (length pre + length h + 2)%nat = length (pre ++ h ++ CRLF))
    by (rewrite !length_app; cbn; lia).
  rewrite (slice_mid bf (pre ++ h ++ CRLF) d post _ _ Hbf' Hlen eq_refl).
  rewrite Z.sub_diag. cbn [Z.eqb isNil andb].
  unfold atFooter. rewrite <- !app_assoc.
  repeat f_equal; rewrite ?length_app; cbn; lia.
Qed.

Lemma chunkHeaderAvailable_buffered (cp : chunkedReader.t) (l x : bytes) :
  slice (bufio.buf (chunkedReader.r cp)) (bufio.r (chunkedReader.r cp))
    (bufio.w (chunkedReader.r cp)) = l ++ LF :: x ->
  Forall (fun a => a <> LF) l ->
  chunkedReader.chunkHeaderAvailable cp = true.
Proof.
  intros Hs Hl. unfold chunkedReader.chunkHeaderAvailable, bufio.Buffered.
  assert (Hlen : (length l < bufio.w (chunkedReader.r cp) - bufio.r (chunkedReader.r cp))%nat).
  { apply (f_equal (@length ascii)) in Hs. unfold slice in Hs.
    rewrite length_take, length_app in Hs. cbn in Hs. lia. }
  destruct (Nat.ltb_spec 0 (bufio.w (chunkedReader.r cp) - bufio.r (chunkedReader.r cp))); [|lia].
  replace (bufio.r (chunkedReader.r cp)
           + (bufio.w (chunkedReader.r cp) - bufio.r (chunkedReader.r cp)))%nat
    with (bufio.w (chunkedReader.r cp)) by lia.
  rewrite Hs. unfold IndexByte. rewrite (Index_byte_first l x LF Hl). reflexivity.
Qed.

(** Reading a size line that is in the buffer. *)
Lemma beginChunk_buffered (rd : R) (bf : bytes) (r w : nat) (h x : bytes) (U : Z)
    (unread : Z) (footer : bytes) (ce : bool) (room : nat) (out : bytes)
    (fromBody total : nat) (line : nat * nat) (unwritten : nat) :
  slice bf r w = (h ++ CRLF) ++ x ->
  chunkedReader.parseHexUint h = (U, None) ->
  chunkedReader.beginChunk
    (chunkedReader.mkChunked (bufio.mk bf r w None) unread None footer ce room out
       fromBody total line unwritten) rd
  = (chunkedReader.mkChunked (bufio.mk bf (r + length h + 2) w None) U None footer ce room out
       fromBody total (r, (length h + 2)%nat) (length h + 2), rd).
Proof.
  intros Hs Hp.
  destruct (size_line_plain h U Hp) as (Hlf & Htrim & Hext & Hlen).
  assert (Hs' : slice bf r w = (h ++ [CR]) ++ LF :: x).
  { rewrite Hs. unfold CRLF. rewrite <- !app_assoc. reflexivity. }
  unfold chunkedReader.beginChunk, chunkedReader.readChunkLine. fields.
  rewrite (ReadSlice_buffered bf r w None rd (h ++ [CR]) x Hs' Hlf).
  fields. rewrite length_app. cbn [length].
  replace (S (length h + 1)) with (length h + 2)%nat by lia.
  replace (r + (length h + 1) + 1)%nat with (r + length h + 2)%nat by lia.
  unfold chunkedReader.maxLineLength.
  destruct (Nat.leb_spec 4096 (length h + 2)); [lia|].
  unfold chunkedReader.lineBytes. fields.
  replace (r + (length h + 2))%nat with (r + length (h ++ CRLF))%nat
    by (rewrite length_app; cbn; lia).
  rewrite (slice_prefix bf r w (h ++ CRLF) x Hs).
  rewrite Htrim, Hext, Hp. reflexivity.
Qed.

Lemma flushFooter_whole (b : bufio.Reader) (U : Z) (e : option error) (ce : bool)
    (room : nat) (out : bytes) (fromBody total : nat) (line : nat * nat) :
  (2 <= room)%nat ->
  chunkedReader.flushFooter
    (chunkedReader.mkChunked b U e CRLF ce room out fromBody total line 2)
  = chunkedReader.mkChunked b U e CRLF false (room - 2) (out ++ CRLF) fromBody (total + 2) line 0.
Proof.
  intros Hroom. unfold chunkedReader.flushFooter. fields.
  change (length CRLF) with 2%nat. rewrite Nat.min_r by lia. reflexivity.
Qed.

(** Copying the footer of a chunk and reading the next size line. *)
Lemma step_footer_and_line (fuel : nat) (rd : R) (bf : bytes) (w : nat)
    (pre nh post footer out : bytes) (line : nat * nat) (room fromBody total : nat) (U : Z) :
  bf = pre ++ CRLF ++ (nh ++ CRLF) ++ post ->
  (length pre + 2 + length nh + 2 <= w)%nat -> (w <= length bf)%nat ->
  (2 <= room)%nat ->
  length footer = 2%nat ->
  slice bf line.1 (line.1 + line.2) <> chunkedReader.zeroChunkLine ->
  chunkedReader.parseHexUint nh = (U, None) ->
  chunkedReader.readStep (S fuel) (atFooter bf w pre line footer room out fromBody total) rd
  = Some (chunkedReader.Continue
      (atLine bf w (pre ++ CRLF) nh U CRLF (room - 2) (out ++ CRLF) fromBody (total + 2), rd)).
Proof.
  intros Hbf Hw Hwb Hroom Hft Hline Hp.
  unfold atFooter, atLine.
  unfold chunkedReader.readStep. fields.
  assert (Hb2 : (bufio.Buffered (bufio.mk bf (length pre) w None) <? 2)%nat = false).
  { apply Nat.ltb_ge. unfold bufio.Buffered. fields. lia. }
  rewrite Hb2, andb_false_r. cbn [andb Nat.eqb].
  rewrite ReadFull_buffered by lia.
  assert (Hcr : slice bf (length pre) (length pre + 2) = CRLF).
  { apply (slice_mid bf pre CRLF ((nh ++ CRLF) ++ post)); [exact Hbf | reflexivity | reflexivity]. }
  rewrite Hcr. fields.
  assert (Hwa : writeAt footer 0 CRLF = CRLF).
  { unfold writeAt. destruct footer as [|a [|b [|c t]]]; try discriminate. reflexivity. }
  rewrite Hwa. change (bytes_eqb CRLF CRLF) with true. cbn [negb].
  change (length CRLF) with 2%nat.
  destruct (Nat.eqb_spec room 0); [lia|].
  rewrite flushFooter_whole by lia. fields.
  unfold chunkedReader.lineBytes at 1. fields.
  apply bytes_eqb_neq in Hline. rewrite Hline. rewrite andb_false_r.
  unfold chunkedReader.readLineAndBody. cbv zeta. fields.
  cbn [Nat.ltb Nat.leb Z.eqb].
  assert (Hsl : slice bf (length pre + 2) w
                = (nh ++ CRLF) ++ take (w - length (pre ++ CRLF) - length (nh ++ CRLF)) post).
  { replace (length pre + 2)%nat with (length (pre ++ CRLF)) by (rewrite length_app; reflexivity).
    apply slice_from.
    - rewrite Hbf, <- !app_assoc. reflexivity.
    - rewrite !length_app. cbn. lia. }
  destruct (size_line_plain nh U Hp) as (Hlf & _).
  rewrite (chunkHeaderAvailable_buffered _ (nh ++ [CR])
             (take (w - length (pre ++ CRLF) - length (nh ++ CRLF)) post)).
  2:{ fields. rewrite Hsl. unfold CRLF. rewrite <- !app_assoc. reflexivity. }
  2:{ exact Hlf. }
  rewrite andb_false_r.
  rewrite (beginChunk_buffered rd bf (length pre + 2) w nh _ U _ _ _ _ _ _ _ _ _ Hsl Hp).
  repeat f_equal; rewrite ?length_app; cbn; lia.
Qed.

(** Copying the size line of the last chunk. *)
Lemma step_last_line (fuel : nat) (rd : R) (bf : bytes) (w : nat)
    (pre post footer out : bytes) (room fromBody total : nat) :
  bf = pre ++ (B "0" ++ CRLF) ++ post ->
  (3 <= room)%nat ->
  chunkedReader.readStep fuel (atLine bf w pre (B "0") 0 footer room out fromBody total) rd
  = Some (chunkedReader.Continue
      (atFooter bf w (pre ++ B "0" ++ CRLF) (length pre, 3%nat) footer (room - 3)
         (out ++ B "0" ++ CRLF) fromBody (total + 3), rd)).
Proof.
  intros Hbf Hroom.
  pose proof (flushLine_atLine bf w pre (B "0") post footer out 0 room fromBody total Hbf
                ltac:(cbn; lia)) as HF.
  unfold atLine in *. unfold chunkedReader.readStep. fields.
  unfold chunkedReader.readLineAndBody. cbv zeta.
  rewrite HF. fields. change (length (B "0")) with 1%nat.
  cbn [length Nat.add Nat.ltb Nat.leb].
  destruct (Nat.eqb_spec room 0); [lia|].
  cbn [Nat.eqb negb Z.eqb].
  unfold chunkedReader.lineBytes. fields.
  change (length pre + 3)%nat with (length pre + length (B "0" ++ CRLF))%nat.
  rewrite (slice_mid bf pre (B "0" ++ CRLF) post _ _ Hbf eq_refl eq_refl).
  change (bytes_eqb (B "0" ++ CRLF) chunkedReader.zeroChunkLine) with true. cbv iota.
  unfold atFooter, chunkedReader.set_checkEnd. fields.
  repeat f_equal; rewrite ?length_app; cbn; lia.
Qed.

(** Copying the footer of the last chunk: [EOF]. *)
Lemma step_last_footer (fuel : nat) (rd : R) (bf : bytes) (w : nat)
    (pre post footer out : bytes) (line : nat * nat) (room fromBody total : nat) :
  bf = pre ++ CRLF ++ post ->
  (length pre + 2 <= w)%nat -> (w <= length bf)%nat ->
  (2 <= room)%nat ->
  length footer = 2%nat ->
  slice bf line.1 (line.1 + line.2) = chunkedReader.zeroChunkLine ->
  chunkedReader.readStep (S fuel) (atFooter bf w pre line footer room out fromBody total) rd
  = Some (chunkedReader.Continue
      (chunkedReader.mkChunked (bufio.mk bf (length pre + 2) w None) 0 (Some EOF) CRLF false
         (room - 2) (out ++ CRLF) fromBody (total + 2) line 0, rd)).
Proof.
  intros Hbf Hw Hwb Hroom Hft Hline.
  unfold atFooter. unfold chunkedReader.readStep. fields.
  assert (Hb2 : (bufio.Buffered (bufio.mk bf (length pre) w None) <? 2)%nat = false).
  { apply Nat.ltb_ge. unfold bufio.Buffered. fields. lia. }
  rewrite Hb2, andb_false_r. cbn [andb Nat.eqb].
  rewrite ReadFull_buffered by lia.
  assert (Hcr : slice bf (length pre) (length pre + 2) = CRLF).
  { apply (slice_mid bf pre CRLF post); [exact Hbf | reflexivity | reflexivity]. }
  rewrite Hcr. fields.
  assert (Hwa : writeAt footer 0 CRLF = CRLF).
  { unfold writeAt. destruct footer as [|a [|b [|c t]]]; try discriminate. reflexivity. }
  rewrite Hwa. change (bytes_eqb CRLF CRLF) with true. cbn [negb].
  change (length CRLF) with 2%nat.
  destruct (Nat.eqb_spec room 0); [lia|].
  rewrite flushFooter_whole by lia. fields.
  unfold chunkedReader.lineBytes. fields.
  rewrite Hline, bytes_eqb_refl. cbn [Z.eqb Nat.eqb andb].
  reflexivity.
Qed.

Lemma readLoop_step (fuel : nat) (cp cp' : chunkedReader.t) (rd rd' : R) :
  chunkedReader.readStep fuel cp rd = Some (chunkedReader.Continue (cp', rd')) ->
  chunkedReader.err cp = None ->
  chunkedReader.readLoop (S fuel) cp rd = chunkedReader.readLoop fuel cp' rd'.
Proof. intros Hs He. cbn [chunkedReader.readLoop]. rewrite He, Hs. reflexivity. Qed.

Lemma readLoop_done (fuel : nat) (cp : chunkedReader.t) (rd : R) (e : error) :
  chunkedReader.err cp = Some e ->
  chunkedReader.readLoop fuel cp rd = Some (cp, rd).
Proof. intros He. destruct fuel; cbn [chunkedReader.readLoop]; rewrite He; reflexivity. Qed.

(** From the size line of the first of the frames [l], all of them in the
    buffer, the loop copies the frames and the last chunk and ends with
    [EOF]: two passes for each frame, two for the last chunk. *)
Lemma readLoop_frames (l : list (bytes * bytes)) :
  forall (fuel : nat) (rd : R) (bf : bytes) (w : nat) (pre pad footer out : bytes)
         (room fromBody total : nat),
  Forall stream.validFrame l ->
  bf = pre ++ stream.frames l ++ pad ->
  w = (length pre + length (stream.frames l))%nat ->
  (length (stream.frames l) <= room)%nat ->
  length footer = 2%nat ->
  (2 * length l + 3 <= fuel)%nat ->
  exists cp',
    chunkedReader.readLoop fuel
      (atLine bf w pre (headLine l).1 (headLine l).2 footer room out fromBody total) rd
    = Some (cp', rd)
    /\ chunkedReader.output cp' = out ++ stream.frames l
    /\ chunkedReader.err cp' = Some EOF.
Proof.
  induction l as [|[h d] l IH]; intros fuel rd bf w pre pad footer out room fromBody total
    Hv Hbf Hw Hroom Hft Hfuel.
  - cbn [headLine fst snd stream.frames] in *. unfold stream.lastChunk in *.
    change (length (B "0" ++ CRLF ++ CRLF)) with 5%nat in *. cbn [length] in Hfuel.
    destruct fuel as [|[|[|fuel]]]; try lia.
    assert (Hlen : length bf = (length pre + 5 + length pad)%nat).
    { rewrite Hbf, !length_app. cbn. lia. }
    rewrite (readLoop_step _ _ _ rd rd
               (step_last_line _ rd bf w pre (CRLF ++ pad) footer out room fromBody total
                  ltac:(rewrite Hbf, <- !app_assoc; reflexivity) ltac:(lia)) eq_refl).
    rewrite (readLoop_step _ _ _ rd rd
               (step_last_footer fuel rd bf w (pre ++ B "0" ++ CRLF) pad footer
                  (out ++ B "0" ++ CRLF) (length pre, 3%nat) (room - 3) fromBody (total + 3)
                  ltac:(rewrite Hbf, <- !app_assoc; reflexivity)
                  ltac:(rewrite !length_app; cbn; lia) ltac:(lia) ltac:(lia) Hft
                  ltac:(apply (slice_mid bf pre (B "0" ++ CRLF) (CRLF ++ pad));
                        [rewrite Hbf, <- !app_assoc; reflexivity | reflexivity | reflexivity])) eq_refl).
    eexists. split; [apply (readLoop_done _ _ _ EOF); reflexivity|].
    split; [|reflexivity]. fields. rewrite <- !app_assoc. reflexivity.
  - apply Forall_cons in Hv as [[Hp Hd] Hv]. cbn [fst snd] in Hp, Hd.
    cbn [headLine fst snd].
    destruct (frames_head l Hv) as (post & Hfr & Hnp).
    cbn [stream.frames] in Hbf, Hw, Hroom.
    rewrite !length_app in Hw, Hroom. change (length CRLF) with 2%nat in Hw, Hroom.
    cbn [length] in Hfuel.
    destruct fuel as [|[|[|fuel]]]; try lia.
    rewrite (readLoop_step _ _ _ rd rd
               (step_line_and_data _ rd bf w pre h d (CRLF ++ stream.frames l ++ pad)
                  footer out room fromBody total
                  ltac:(rewrite Hbf, <- !app_assoc; reflexivity) ltac:(lia) ltac:(lia) Hd) eq_refl).
    assert (Hne : slice bf (length pre) (length pre + (length h + 2)) <> chunkedReader.zeroChunkLine).
    { rewrite (slice_mid bf pre (h ++ CRLF) (d ++ CRLF ++ stream.frames l ++ pad));
        [| rewrite Hbf, <- !app_assoc; reflexivity | reflexivity
         | rewrite length_app; reflexivity].
      intros Heq. apply app_inv_tail in Heq. subst h.
      vm_compute in Hp. injection Hp as Hp. destruct d; [congruence | discriminate]. }
    rewrite (readLoop_step _ _ _ rd rd
               (step_footer_and_line fuel rd bf w (pre ++ (h ++ CRLF) ++ d) (headLine l).1
                  (post ++ pad) footer (out ++ (h ++ CRLF) ++ d)
                  (length pre, (length h + 2)%nat) (room - (length h + 2) - length d)
                  (fromBody + length d) (total + (length h + 2) + length d) (headLine l).2
                  ltac:(rewrite Hbf, Hfr, <- !app_assoc; reflexivity)
                  ltac:(rewrite Hfr in Hw; rewrite !length_app in *; cbn in *; lia)
                  ltac:(rewrite Hbf, !length_app; cbn; lia)
                  ltac:(lia) Hft Hne Hnp) eq_refl).
    destruct (IH (S fuel) rd bf w ((pre ++ (h ++ CRLF) ++ d) ++ CRLF) pad CRLF
                ((out ++ (h ++ CRLF) ++ d) ++ CRLF)
                (room - (length h + 2) - length d - 2) (fromBody + length d)
                (total + (length h + 2) + length d + 2) Hv
                ltac:(rewrite Hbf, <- !app_assoc; reflexivity)
                ltac:(rewrite !length_app; cbn; lia) ltac:(lia) eq_refl ltac:(lia))
      as (cp' & Hrun & Hout & Herr).
    exists cp'. split; [exact Hrun|]. split; [|exact Herr].
    rewrite Hout. cbn [stream.frames]. rewrite <- !app_assoc. reflexivity.
Qed.

End whole.

Lemma fillLoop_data {R : Type} `{!io.Reader R} (i : nat) (b : bufio.Reader) (rd rd' : R)
    (data : bytes) :
  io.Read rd (length (bufio.buf b) - bufio.w b) = (data, None, rd') ->
  (0 < length data)%nat ->
  bufio.fillLoop (S i) b rd =
    (bufio.mk (writeAt (bufio.buf b) (bufio.w b) data) (bufio.r b)
       (bufio.w b + length data) (bufio.err b), rd').
Proof.
  intros Hr Hd. cbn [bufio.fillLoop]. rewrite Hr.
  destruct (Nat.ltb_spec 0 (length data)); [reflexivity | lia].
Qed.

(** The first pass of [Read] on a new reader whose source delivers the
    stream [P] in one piece: the buffer is filled with [P] and the first
    size line is read. *)
Lemma ReadSlice_fresh_size (size : nat) (P l x : bytes) :
  (bufio.minReadBufferSize <= size)%nat ->
  P = l ++ LF :: x -> Forall (fun a => a <> LF) l ->
  (length P <= size)%nat ->
  bufio.ReadSlice LF (bufio.NewReaderSize size) [P] =
    ((0%nat, S (length l)), None,
     bufio.mk (P ++ drop (length P) (repeat zero size)) (length l + 1) (length P) None,
     ([] : pieces)).
Proof.
  intros Hsize HP Hl Hlen.
  assert (Hpos : (0 < length P)%nat) by (rewrite HP, length_app; cbn; lia).
  unfold bufio.ReadSlice, bufio.NewReaderSize.
  rewrite Nat.max_l by exact Hsize.
  remember (repeat zero size) as Zs eqn:HZ.
  assert (HlZ : length Zs = size) by (subst Zs; apply repeat_length).
  cbn [bufio.buf]. rewrite HlZ.
  replace (size + 2)%nat with (S (S size)) by lia.
  cbn [bufio.ReadSliceLoop bufio.buf bufio.r bufio.w bufio.err Nat.add].
  change (slice Zs 0 0) with (@nil ascii).
  change (IndexByte [] LF) with (@None nat).
  unfold bufio.Buffered. cbn [bufio.r bufio.w Nat.sub]. rewrite HlZ.
  destruct (Nat.leb_spec size 0); [unfold bufio.minReadBufferSize in Hsize; lia|].
  unfold bufio.fill, bufio.slide. cbn [bufio.r Nat.ltb Nat.leb].
  unfold bufio.maxConsecutiveEmptyReads.
  rewrite (fillLoop_data 99 (bufio.mk Zs 0 0 None) [P] ([] : pieces) P); [| | exact Hpos].
  2:{ cbn [bufio.buf bufio.w]. rewrite HlZ, Nat.sub_0_r.
      unfold io.Read, pieces_Reader.
      destruct (Nat.leb_spec (length P) size); [reflexivity | lia]. }
  cbn [bufio.buf bufio.r bufio.w bufio.err].
  assert (Hwa : writeAt Zs 0 P = P ++ drop (length P) Zs) by reflexivity.
  rewrite Hwa. cbn [Nat.add].
  assert (Hs : slice (P ++ drop (length P) Zs) 0 (length P) = l ++ LF :: x).
  { rewrite <- HP. unfold slice. rewrite drop_0, Nat.sub_0_r.
    apply take_app_length. }
  rewrite Hs. unfold IndexByte. rewrite (Index_byte_first l x LF Hl).
  rewrite Nat.add_0_r. reflexivity.
Qed.

Lemma ReadSlice_fresh (P l x : bytes) :
  P = l ++ LF :: x -> Forall (fun a => a <> LF) l ->
  (length P <= bufio.defaultBufSize)%nat ->
  bufio.ReadSlice LF bufio.NewReader [P] =
    ((0%nat, S (length l)), None,
     bufio.mk (P ++ drop (length P) (repeat zero bufio.defaultBufSize)) (length l + 1)
       (length P) None, ([] : pieces)).
Proof.
  intros HP Hl Hlen.
  apply (ReadSlice_fresh_size bufio.defaultBufSize P l x); [| exact HP | exact Hl | exact Hlen].
  apply Nat.leb_le. reflexivity.
Qed.

Lemma step_first (fuel : nat) (P h x : bytes) (U : Z) (n : nat) :
  P = (h ++ CRLF) ++ x ->
  (length P <= bufio.defaultBufSize)%nat ->
  chunkedReader.parseHexUint h = (U, None) ->
  chunkedReader.readStep fuel
    (chunkedReader.mkChunked bufio.NewReader 0 None [zero; zero] false n [] 0 0 (0, 0)%nat 0)
    [P]
  = Some (chunkedReader.Continue
      (atLine (P ++ drop (length P) (repeat zero bufio.defaultBufSize)) (length P) [] h U
         [zero; zero] n [] 0 0, ([] : pieces))).
Proof.
  intros HP Hlen Hp.
  destruct (size_line_plain h U Hp) as (Hlf & Htrim & Hext & Hh).
  assert (HP' : P = (h ++ [CR]) ++ LF :: x).
  { rewrite HP. unfold CRLF. rewrite <- !app_assoc. reflexivity. }
  unfold chunkedReader.readStep. fields.
  unfold chunkedReader.readLineAndBody. cbv zeta. fields.
  cbn [Nat.ltb Nat.leb Z.eqb andb].
  unfold chunkedReader.beginChunk, chunkedReader.readChunkLine. fields.
  rewrite (ReadSlice_fresh P (h ++ [CR]) x HP' Hlf Hlen).
  fields. rewrite length_app. cbn [length].
  unfold chunkedReader.maxLineLength.
  destruct (Nat.leb_spec 4096 (S (length h + 1))); [lia|].
  unfold chunkedReader.lineBytes. fields.
  assert (Hsl : slice (P ++ drop (length P) (repeat zero bufio.defaultBufSize)) 0
                  (0 + S (length h + 1)) = h ++ CRLF).
  { apply (slice_mid _ [] (h ++ CRLF) (x ++ drop (length P) (repeat zero bufio.defaultBufSize)));
      [rewrite HP, <- !app_assoc; reflexivity | reflexivity
      | rewrite length_app; cbn; lia]. }
  rewrite Hsl, Htrim, Hext, Hp.
  unfold atLine. cbn [length Nat.add].
  replace (length h + 1 + 1)%nat with (length h + 2)%nat by lia.
  replace (S (length h + 1)) with (length h + 2)%nat by lia.
  reflexivity.
Qed.

(** A stream of frames that fits the 4096-byte buffer and arrives in one
    piece passes through in one [Read] of a large enough slice, followed by
    [EOF]: the buffer is filled once, so the view [cp.line] stays valid. *)
Theorem chunkedReader_whole_stream (l : list (bytes * bytes)) (n fuel : nat) :
  Forall stream.validFrame l ->
  (length (stream.frames l) <= bufio.defaultBufSize)%nat ->
  (length (stream.frames l) <= n)%nat ->
  (2 * length l + 4 <= fuel)%nat ->
  exists cp',
    chunkedReader.Read fuel chunkedReader.NewChunkedReader [stream.frames l] n
    = Some (stream.frames l, Some EOF, cp', ([] : pieces)).
Proof.
  intros Hv Hbuf Hn Hfuel.
  destruct (frames_head l Hv) as (post & Hfr & Hp).
  destruct fuel as [|fuel]; [lia|].
  unfold chunkedReader.Read, chunkedReader.NewChunkedReader. fields.
  rewrite (readLoop_step _ _ _ _ _
             (step_first fuel (stream.frames l) (headLine l).1 post (headLine l).2 n
                Hfr Hbuf Hp) eq_refl).
  destruct (readLoop_frames l fuel ([] : pieces)
              (stream.frames l ++ drop (length (stream.frames l))
                                    (repeat zero bufio.defaultBufSize))
              (length (stream.frames l)) []
              (drop (length (stream.frames l)) (repeat zero bufio.defaultBufSize))
              [zero; zero] [] n 0 0 Hv eq_refl eq_refl Hn eq_refl ltac:(lia))
    as (cp' & Hrun & Hout & Herr).
  exists cp'.
  match goal with |- match ?run with _ => _ end = _ =>
    assert (Ht : run = Some (cp', [])) by exact Hrun; rewrite Ht end.
  rewrite Hout, Herr. reflexivity.
Qed.

Corollary readToEnd_whole_stream (l : list (bytes * bytes)) (calls n fuel : nat) :
  Forall stream.validFrame l ->
  (length (stream.frames l) <= bufio.defaultBufSize)%nat ->
  (length (stream.frames l) <= n)%nat ->
  (2 * length l + 4 <= fuel)%nat ->
  chunkedReader.readToEnd (S calls) fuel n chunkedReader.NewChunkedReader [stream.frames l]
  = Some (stream.frames l, EOF).
Proof.
  intros Hv Hbuf Hn Hfuel.
  destruct (chunkedReader_whole_stream l n fuel Hv Hbuf Hn Hfuel) as (cp' & Hr).
  cbn [chunkedReader.readToEnd]. rewrite Hr. reflexivity.
Qed.

(** [parseHexUint] reads back what [%x] prints. *)
Lemma lor_shiftl_digit (q r : Z) :
  (0 <= r < 16)%Z -> Z.lor (Z.shiftl q 4) r = (q * 16 + r)%Z.
Proof.
  intros Hr.
  assert (Hl : Z.land (Z.shiftl q 4) r = 0%Z).
  { apply Z.bits_inj'. intros k Hk. rewrite Z.land_spec, Z.bits_0.
    destruct (Z.lt_ge_cases k 4) as [Hlt|Hge].
    - rewrite Z.shiftl_spec_low by exact Hlt. reflexivity.
    - destruct (Z.eq_dec r 0%Z) as [->|Hr0]; [rewrite Z.bits_0; apply andb_false_r|].
      rewrite (Z.bits_above_log2 r k), andb_false_r; [reflexivity | lia |].
      assert (Z.log2 r < 4)%Z by (apply Z.log2_lt_pow2; [lia | change (2 ^ 4)%Z with 16%Z; lia]).
      lia. }
  rewrite <- Z.lxor_lor, <- Z.add_nocarry_lxor by exact Hl.
  rewrite Z.shiftl_mul_pow2 by lia. reflexivity.
Qed.

Lemma hexValue_hexDigit (d : N) :
  (d < 16)%N -> chunkedReader.hexValue (stream.hexDigit d) = Some (Z.of_N d).
Proof.
  intros Hd. destruct d as [|p]; [reflexivity|].
  do 4 (destruct p as [p|p|]; try lia; try reflexivity).
Qed.

Lemma parseHexLoop_hexLoop (fuel : nat) :
  forall (n : N) (acc : bytes),
  (fuel <= 16)%nat -> (n < 16 ^ N.of_nat fuel)%N ->
  exists k, (k <= fuel)%nat /\
    chunkedReader.parseHexLoop 0 0 (stream.hexLoop fuel n acc)
    = chunkedReader.parseHexLoop k (Z.of_N n) acc.
Proof.
  induction fuel as [|fuel IH]; intros n acc Hf Hn.
  - exists 0%nat. cbn in Hn. assert (n = 0%N) as -> by lia. split; [lia | reflexivity].
  - cbn [stream.hexLoop]. destruct (N.ltb_spec n 16) as [Hlt|Hge].
    + exists 1%nat. split; [lia|]. rewrite N.mod_small by exact Hlt.
      cbn [chunkedReader.parseHexLoop]. rewrite (hexValue_hexDigit n Hlt).
      cbn [Nat.eqb]. rewrite lor_shiftl_digit by lia. reflexivity.
    + assert (Hq : (n / 16 < 16 ^ N.of_nat fuel)%N).
      { apply N.Div0.div_lt_upper_bound.
        rewrite Nat2N.inj_succ, N.pow_succ_r' in Hn. exact Hn. }
      destruct (IH (n / 16)%N (stream.hexDigit (n mod 16) :: acc) ltac:(lia) Hq)
        as (k & Hk & Heq).
      exists (S k). split; [lia|]. rewrite Heq.
      cbn [chunkedReader.parseHexLoop].
      assert (Hm : (n mod 16 < 16)%N) by (apply N.mod_lt; lia).
      rewrite (hexValue_hexDigit _ Hm).
      destruct (Nat.eqb_spec k 16); [lia|].
      rewrite lor_shiftl_digit
        by (split; [apply N2Z.is_nonneg
                   | change 16%Z with (Z.of_N 16); apply N2Z.inj_lt; exact Hm]).
      f_equal. rewrite (N.div_mod n 16) at 3 by lia.
      rewrite N2Z.inj_add, N2Z.inj_mul. change (Z.of_N 16) with 16%Z. lia.
Qed.

Lemma parseHexUint_hex (n : nat) :
  (N.of_nat n < 16 ^ 16)%N ->
  chunkedReader.parseHexUint (stream.hex n) = (Z.of_nat n, None).
Proof.
  intros Hn. unfold chunkedReader.parseHexUint, stream.hex.
  destruct (parseHexLoop_hexLoop 16 (N.of_nat n) [] ltac:(lia) Hn) as (k & _ & Heq).
  rewrite Heq. cbn [chunkedReader.parseHexLoop]. f_equal. lia.
Qed.

Lemma chunked_frames (chunks : list bytes) :
  stream.chunked chunks = stream.frames (map (fun d => (stream.hex (length d), d)) chunks).
Proof.
  unfold stream.chunked. induction chunks as [|d chunks IH]; [reflexivity|].
  cbn [map concat stream.frames]. rewrite <- IH. unfold stream.chunk.
  rewrite <- !app_assoc. reflexivity.
Qed.

(** The same for a stream made of chunks with data, as an encoder writes
    it. *)
Theorem chunkedReader_whole_chunked (chunks : list bytes) (n fuel : nat) :
  Forall (fun d => d <> []) chunks ->
  (length (stream.chunked chunks) <= bufio.defaultBufSize)%nat ->
  (length (stream.chunked chunks) <= n)%nat ->
  (2 * length chunks + 4 <= fuel)%nat ->
  chunkedReader.readToEnd 1 fuel n chunkedReader.NewChunkedReader [stream.chunked chunks]
  = Some (stream.chunked chunks, EOF).
Proof.
  intros Hd Hbuf Hn Hfuel.
  assert (Hv : Forall stream.validFrame (map (fun d => (stream.hex (length d), d)) chunks)).
  { clear Hn Hfuel. induction chunks as [|d chunks IH]; [constructor|].
    apply Forall_cons in Hd as [Hd0 Hd].
    unfold stream.chunked in Hbuf. cbn [map concat] in Hbuf.
    rewrite !length_app in Hbuf.
    assert (Hdl : (length d <= length (stream.chunk d))%nat)
      by (unfold stream.chunk; rewrite !length_app; lia).
    unfold bufio.defaultBufSize in *.
    cbn [map]. constructor.
    - split; [|exact Hd0]. cbn [fst snd]. apply parseHexUint_hex.
      change (16 ^ 16)%N with 18446744073709551616%N. lia.
    - apply IH; [exact Hd|]. unfold stream.chunked. rewrite length_app. lia. }
  rewrite chunked_frames in *.
  apply readToEnd_whole_stream; [exact Hv | exact Hbuf | exact Hn |].
  rewrite length_map. exact Hfuel.
Qed.


(** ** The claims on sample messages *)

Lemma parsed_ok (msg : bytes) (size : nat) (method : bytes) :
  (httpProcessor.ReadHeadersIfNeeded (sample.fresh msg size method)).1 = None ->
  httpProcessor.ReadHeadersIfNeeded (sample.fresh msg size method)
  = (None, sample.parsed msg size method).
Proof.
  unfold sample.parsed.
  destruct (httpProcessor.ReadHeadersIfNeeded _) as [e h]. cbn. intros ->. reflexivity.
Qed.


(** C3, as stated, fails: [Content-Length: abc] gives [(0, false)]. *)
Lemma GetContentLength_unparsable_is_false :
  let h' := sample.parsed sample.badLength 128 [] in
  httpProcessor.IsRequestChunked h' = false /\
  httpProcessor.header h' (B "Content-Length") = Some [B "abc"] /\
  strconv.ParseInt (B "abc") = None /\
  httpProcessor.GetContentLength h' <> (0, true)%Z.
Proof. vm_compute. repeat split; discriminate. Qed.

Lemma GetContentLength_unparsable_witness :
  httpProcessor.ReadHeadersIfNeeded (sample.fresh sample.badLength 128 [])
  = (None, sample.parsed sample.badLength 128 []) /\
  httpProcessor.GetContentLength (sample.parsed sample.badLength 128 []) = (0, false)%Z.
Proof.
  assert (Hread : httpProcessor.ReadHeadersIfNeeded (sample.fresh sample.badLength 128 [])
                  = (None, sample.parsed sample.badLength 128 []))
    by (apply parsed_ok; vm_compute; reflexivity).
  split; [exact Hread|].
  apply (GetContentLength_unparsable _ _ _ _ (B "abc") [] Hread); vm_compute; reflexivity.
Defined.

(** C9, as stated, fails: in [GET /foo] the first word is a token and the
    request-URI parses, and the message is taken for a response, because
    the line has no third part. *)
Lemma token_and_uri_not_request :
  let h' := sample.parsed sample.twoWords 128 [] in
  (httpProcessor.ReadHeadersIfNeeded (sample.fresh sample.twoWords 128 [])).1 = None /\
  Cut (slice (httpProcessor.buf h') 0 8) (B " ") = (B "GET", B "/foo", true) /\
  httpProcessor.validMethod (B "GET") = true /\
  is_Some (net.ParseRequestURI (B "/foo")) /\
  httpProcessor.request h' = false.
Proof. vm_compute. repeat split. eexists. reflexivity. Qed.

(** A status word with a sign is recorded as well. *)
Lemma signed_status_recorded :
  httpProcessor.responseStatusCode (sample.parsed sample.signedStatus 128 []) = 12%Z.
Proof. vm_compute. reflexivity. Qed.

Lemma start_line_classification_witness :
  httpProcessor.ReadHeadersIfNeeded (sample.fresh sample.plainRequest 128 [])
  = (None, sample.parsed sample.plainRequest 128 []) /\
  httpProcessor.request (sample.parsed sample.plainRequest 128 []) = true /\
  httpProcessor.requestMethod (sample.parsed sample.plainRequest 128 []) = B "GET".
Proof.
  assert (Hread : httpProcessor.ReadHeadersIfNeeded (sample.fresh sample.plainRequest 128 [])
                  = (None, sample.parsed sample.plainRequest 128 []))
    by (apply parsed_ok; vm_compute; reflexivity).
  split; [exact Hread|].
  destruct (start_line_classification _ _ _ _ Hread) as (i & Hi & Hcl).
  assert (i = 15%nat) as -> by (vm_compute in Hi; congruence).
  vm_compute in Hcl. destruct Hcl as [Hreq _].
  destruct (Hreq eq_refl eq_refl eq_refl) as (Hr & Hm & _).
  split; [exact Hr|]. vm_compute. reflexivity.
Defined.

Lemma replacement_after_drain_dropped_witness :
  httpProcessor.bufferUsed (sample.drained sample.plainRequest 128 []) = true /\
  exists h',
    httpProcessor.SetHostHeader (B "domain.io") (B "a.b.com")
      (sample.drained sample.plainRequest 128 []) = Done h' /\
    httpProcessor.buf h' = httpProcessor.buf (sample.drained sample.plainRequest 128 []).
Proof.
  assert (Hu : httpProcessor.bufferUsed (sample.drained sample.plainRequest 128 []) = true)
    by (vm_compute; reflexivity).
  split; [exact Hu|].
  destruct (replacement_after_drain_dropped (B "domain.io") (B "Host") (B "a.b.com") _ Hu)
    as [_ (h' & Hr & Hb & _)].
  exists h'. split; [exact Hr | exact Hb].
Defined.

(** C10, as stated, fails: with [?host=x] in the request target, [GetHost]
    keeps returning [x] after [SetHostHeader] has replaced [Host]. *)
Lemma GetHost_prefers_query :
  let h := sample.drained sample.hostInQuery 128 [] in
  httpProcessor.bufferUsed h = true /\
  httpProcessor.header h (B "Host") = Some [B "domain.io"] /\
  match httpProcessor.SetHostHeader (B "domain.io") (B "a.b.com") h with
  | Done h' =>
      httpProcessor.header h' (B "Host") = Some [B "a.b.com"] /\
      (httpProcessor.GetHost h').1 = inl (B "x") /\
      (httpProcessor.GetHost h').1 <> inl (B "a.b.com")
  | _ => False
  end.
Proof. vm_compute. repeat split; discriminate. Qed.

Lemma GetHost_after_drained_SetHostHeader_witness :
  httpProcessor.bufferUsed (sample.drained sample.plainRequest 128 []) = true /\
  exists h',
    httpProcessor.SetHostHeader (B "domain.io") (B "a.b.com")
      (sample.drained sample.plainRequest 128 []) = Done h' /\
    (httpProcessor.GetHost h').1 = inl (B "a.b.com").
Proof.
  assert (Hu : httpProcessor.bufferUsed (sample.drained sample.plainRequest 128 []) = true)
    by (vm_compute; reflexivity).
  split; [exact Hu|].
  destruct (GetHost_after_drained_SetHostHeader (B "domain.io") (B "a.b.com") (B "domain.io")
              (<[B "Host" := [B "domain.io"]]> ∅) _ Hu) as (h' & Hr & _ & _ & Hg).
  - vm_compute. reflexivity.
  - vm_compute. reflexivity.
  - exists h'. split; [exact Hr|]. rewrite Hg. vm_compute. reflexivity.
Defined.

(** C7 at a failing input: the proxy domain is [domain.io] and the request
    carries [Origin: https://DOMAIN.IO:123]. The comparison, made on
    lower-cased strings, says the origin names the domain; the replacement
    looks for [domain.io] as it is spelled, finds nothing, and leaves the
    [Origin] header as it was, in the parsed headers and in the bytes sent
    on, while [Host] is rewritten. *)
Lemma SetHostHeader_keeps_origin_of_other_case :
  let h := sample.fresh sample.upperOrigin 128 [] in
  Contains (ToLower (B "https://DOMAIN.IO:123")) (ToLower (B "domain.io")) = true /\
  match httpProcessor.SetHostHeader (B "domain.io") (B "a.b.com") h with
  | Done h' =>
      httpProcessor.header h' (B "Host") = Some [B "a.b.com"] /\
      httpProcessor.header h' (B "Origin") = Some [B "https://DOMAIN.IO:123"] /\
      httpProcessor.bodyReads 10 (httpProcessor.GetReader h') [128%nat] =
        Done [(sample.line "GET / HTTP/1.1" ++ sample.line "Host: a.b.com" ++
               sample.line "Origin: https://DOMAIN.IO:123" ++ CRLF, None)]
  | _ => False
  end.
Proof. vm_compute. repeat split. Qed.

(** With the domain spelled as configured, both headers are rewritten. *)
Lemma SetHostHeader_rewrites_origin_of_same_case :
  let msg := sample.line "GET / HTTP/1.1" ++ sample.line "Host: domain.io" ++
             sample.line "Origin: https://domain.io:123" ++ CRLF in
  match httpProcessor.SetHostHeader (B "domain.io") (B "a.b.com") (sample.fresh msg 128 []) with
  | Done h' =>
      httpProcessor.header h' (B "Host") = Some [B "a.b.com"] /\
      httpProcessor.header h' (B "Origin") = Some [B "https://a.b.com:123"] /\
      httpProcessor.bodyReads 10 (httpProcessor.GetReader h') [128%nat] =
        Done [(sample.line "GET / HTTP/1.1" ++ sample.line "Host: a.b.com" ++
               sample.line "Origin: https://a.b.com:123" ++ CRLF, None)]
  | _ => False
  end.
Proof. vm_compute. repeat split. Qed.


(** The reclaim scenario: [c1] takes [abc], takes it again, and [c2] is
    given a generated name. *)
Lemma tunnel_reclaim_scenario :
  let acquire := fun cid T r =>
    forward.acquireTunnelName (B "conn") (B "localhost") 80 (B "s") cid (B "abc")
      None (B "http") T r in
  let r1 := acquire (B "c1") ∅ [] in
  let r2 := acquire (B "c1") (forward.tunnels' r1) [] in
  let r3 := acquire (B "c2") (forward.tunnels' r2) (B "abcd") in
  forward.granted r1 = Some (B "abc") /\ forward.granted r2 = Some (B "abc") /\
  forward.granted r3 = Some (B "pqrs").
Proof. vm_compute. repeat split. Qed.

(** C6, as stated, fails: port 1000 is free, the listener cannot be bound,
    and the reply is a failure. *)
Lemma tcp_port_allocation_listen_fails :
  (∅ : gmap bytes forward.forwardsListenerData) !! forward.addrOf (B "localhost") 1000 = None /\
  match forward.acquireTCPPort (fun _ => false) (B "localhost") 0 (B "s1") (B "c1")
          (B "domain.io") ∅ with
  | Done res => forward.tcpReply res = forward.Failure
  | _ => False
  end.
Proof. split; [apply lookup_empty | vm_compute; reflexivity]. Qed.

Lemma tcp_port_allocation_witness :
  B "c1" <> [] /\ (1000 <= 1000 <= 65535)%Z /\
  (∅ : gmap bytes forward.forwardsListenerData) !! forward.addrOf (B "localhost") 1000 = None /\
  match forward.acquireTCPPort (fun _ => true) (B "localhost") 0 (B "s1") (B "c1")
          (B "domain.io") ∅ with
  | Done res => forward.tcpReply res = forward.Success 1000
  | _ => False
  end.
Proof.
  assert (Hc : B "c1" <> []) by discriminate.
  assert (Hr : (1000 <= 1000 <= 65535)%Z) by lia.
  assert (Hf : (∅ : gmap bytes forward.forwardsListenerData)
                 !! forward.addrOf (B "localhost") 1000 = None) by apply lookup_empty.
  split; [exact Hc|]. split; [exact Hr|]. split; [exact Hf|].
  rewrite (tcp_port_allocation (fun _ => true) (B "localhost") (B "s1") (B "c1") (B "domain.io")
             ∅ 1000 Hc Hr Hf); [reflexivity|].
  intros q Hq. lia.
Defined.

(** ** The chunked reader on two streams

    C1 at two failing inputs. [cp.line] is a view of the buffer of the
    [bufio.Reader], and the reader compares it with ["0\r\n"] after the
    buffer has been refilled.

    - The stream [stream.long], 8208 bytes, all of it available to the
      first read of the source: the line [1 CR LF] of the second chunk
      ends the 4096-byte buffer; the refill puts the [0 CR LF] of the
      third chunk's data in its place, and when the footer of the second
      chunk has been copied the reader takes the line for the last chunk's
      and reports [EOF] after 4099 bytes.
    - The empty stream [0 CR LF CR LF] arriving in two pieces, the line
      and the last CRLF: the CRLF is read over the line, the reader no
      longer sees the last chunk's line, asks for another chunk, and
      reports [ErrUnexpectedEOF] where [EOF] is due. *)
Theorem chunked_reader_stale_line :
  Z.of_nat (length stream.long) = 8208%Z /\
  chunkedReader.readToEnd 100 100 (2 ^ 15) chunkedReader.NewChunkedReader [stream.long]
  = Some (take 4099 stream.long, EOF) /\
  chunkedReader.readToEnd 100 100 512 chunkedReader.NewChunkedReader
    [B "0" ++ CRLF; CRLF]
  = Some (stream.chunked [], ErrUnexpectedEOF).
Proof. vm_compute. repeat split. Qed.

(** On streams that fit the buffer and arrive whole the reader passes the
    bytes through and reports [EOF]: the stream of the reader's tests. *)
Lemma chunked_reader_passes_through :
  let P := stream.chunked [B "hello, "; B "world! 0123456789abcdef"] in
  chunkedReader.readToEnd 100 100 512 chunkedReader.NewChunkedReader [P] = Some (P, EOF) /\
  chunkedReader.readToEnd 100 100 1 chunkedReader.NewChunkedReader [P] = Some (P, EOF).
Proof. vm_compute. repeat split. Qed.

(** * More of the code: utilities, handlers, processor *)

(** ** Searching and trimming *)

Lemma Index_Some_iff (s sep : bytes) (i : nat) :
  Index s sep = Some i <->
  exists pre post, s = pre ++ sep ++ post /\ length pre = i /\
    forall k, (k < i)%nat -> HasPrefix (drop k s) sep = false.
Proof.
  revert i. induction s as [|a s IH]; intros i; rewrite Index_unfold.
  - destruct (HasPrefix [] sep) eqn:Hp.
    + split.
      * intros [= <-]. apply HasPrefix_app in Hp as [t Ht]. exists [], t.
        split; [exact Ht|]. split; [reflexivity | intros k Hk; lia].
      * intros (pre & post & Hs & Hl & _). destruct pre; [cbn in Hl; congruence|discriminate].
    + split; [discriminate|]. intros (pre & post & Hs & Hl & _).
      destruct pre; [|discriminate]. cbn in Hs.
      assert (HasPrefix [] sep = true) by (apply HasPrefix_app; eauto). congruence.
  - destruct (HasPrefix (a :: s) sep) eqn:Hp.
    + split.
      * intros [= <-]. apply HasPrefix_app in Hp as [t Ht]. exists [], t.
        split; [exact Ht|]. split; [reflexivity | intros k Hk; lia].
      * intros (pre & post & Hs & Hl & Hno). destruct i as [|i]; [reflexivity|].
        specialize (Hno 0%nat ltac:(lia)). rewrite drop_0 in Hno. congruence.
    + split.
      * destruct (Index s sep) as [j|] eqn:Hj; [|discriminate].
        intros [= <-]. destruct (proj1 (IH j) eq_refl) as (pre & post & Hs & Hl & Hno).
        exists (a :: pre), post. split; [rewrite Hs; reflexivity|].
        split; [cbn; lia|]. intros [|k] Hk; [rewrite drop_0; exact Hp|].
        cbn [drop]. apply Hno. lia.
      * intros (pre & post & Hs & Hl & Hno). destruct pre as [|b pre].
        { cbn in Hs. assert (HasPrefix (a :: s) sep = true) by (apply HasPrefix_app; eauto).
          congruence. }
        injection Hs as <- Hs. cbn in Hl. subst i.
        assert (Hi : Index s sep = Some (length pre)).
        { apply IH. exists pre, post. split; [exact Hs|]. split; [reflexivity|].
          intros k Hk. apply (Hno (S k)). lia. }
        rewrite Hi. reflexivity.
Qed.

Lemma Index_zero_prefix (s sep : bytes) :
  handlers.isAt0 (Index s sep) = HasPrefix s sep.
Proof.
  rewrite Index_unfold. destruct (HasPrefix s sep); [reflexivity|].
  destruct s; [reflexivity|]. destruct (Index s sep); reflexivity.
Qed.

Lemma HasPrefix_app_l (p t : bytes) : HasPrefix (p ++ t) p = true.
Proof. apply HasPrefix_app. eauto. Qed.

Lemma TrimPrefix_app (p t : bytes) : TrimPrefix (p ++ t) p = t.
Proof. unfold TrimPrefix. rewrite HasPrefix_app_l. apply drop_app_length. Qed.

Lemma HasPrefix_nil (s : bytes) : HasPrefix s [] = true.
Proof. destruct s; reflexivity. Qed.

Lemma TrimPrefix_nil (s : bytes) : TrimPrefix s [] = s.
Proof. unfold TrimPrefix. rewrite HasPrefix_nil. apply drop_0. Qed.

Lemma TrimLeftSpace_split (s : bytes) :
  exists a, s = a ++ TrimLeftSpace s /\ Forall (fun c => isSpaceByte c = true) a.
Proof.
  induction s as [|c s (a & Hs & Ha)]; [exists []; split; [reflexivity | constructor]|].
  cbn [TrimLeftSpace]. destruct (isSpaceByte c) eqn:Hc.
  - exists (c :: a). split; [cbn; congruence | constructor; assumption].
  - exists []. split; [reflexivity | constructor].
Qed.

Lemma TrimLeftSpace_head (s : bytes) (c : ascii) (t : bytes) :
  TrimLeftSpace s = c :: t -> isSpaceByte c = false.
Proof.
  induction s as [|a s IH]; [discriminate|]. cbn [TrimLeftSpace].
  destruct (isSpaceByte a) eqn:Ha; [exact IH | intros [= <- _]; exact Ha].
Qed.

Lemma TrimLeftSpace_fixed (s : bytes) :
  match s with c :: _ => isSpaceByte c = false | [] => True end -> TrimLeftSpace s = s.
Proof. destruct s as [|c s]; [reflexivity|]. cbn. intros ->. reflexivity. Qed.

(** What [TrimSpace] gives is the string without a run of white space at
    either end. *)
Lemma TrimSpace_split (s : bytes) :
  exists a b, s = a ++ TrimSpace s ++ b /\
    Forall (fun c => isSpaceByte c = true) a /\ Forall (fun c => isSpaceByte c = true) b.
Proof.
  unfold TrimSpace.
  destruct (TrimLeftSpace_split s) as (a & Hs & Ha).
  destruct (TrimLeftSpace_split (rev (TrimLeftSpace s))) as (b & Hr & Hb).
  exists a, (rev b). split; [|split; [exact Ha | apply Forall_rev; exact Hb]].
  rewrite Hs at 1. f_equal.
  rewrite <- (rev_involutive (TrimLeftSpace s)) at 1. rewrite Hr at 1.
  apply rev_app_distr.
Qed.

Lemma TrimSpace_fixed (s : bytes) :
  match s with c :: _ => isSpaceByte c = false | [] => True end ->
  match rev s with c :: _ => isSpaceByte c = false | [] => True end ->
  TrimSpace s = s.
Proof.
  intros Hh Hl. unfold TrimSpace.
  rewrite (TrimLeftSpace_fixed s Hh), (TrimLeftSpace_fixed (rev s) Hl).
  apply rev_involutive.
Qed.

Lemma TrimSpace_ends (s : bytes) :
  match TrimSpace s with c :: _ => isSpaceByte c = false | [] => True end /\
  match rev (TrimSpace s) with c :: _ => isSpaceByte c = false | [] => True end.
Proof.
  unfold TrimSpace. rewrite rev_involutive.
  remember (TrimLeftSpace s) as u eqn:Hu.
  remember (TrimLeftSpace (rev u)) as v eqn:Hv.
  split.
  - destruct (rev v) as [|c t] eqn:Hrv; [exact I|].
    (* the head of [rev v] is the head of [u] *)
    destruct (TrimLeftSpace_split (rev u)) as (b & Hr & Hb). rewrite <- Hv in Hr.
    assert (Hu' : u = rev v ++ rev b).
    { rewrite <- (rev_involutive u), Hr. apply rev_app_distr. }
    rewrite Hrv in Hu'. cbn in Hu'.
    symmetry in Hu. rewrite Hu' in Hu. exact (TrimLeftSpace_head _ _ _ Hu).
  - destruct v as [|c t] eqn:Hvv; [exact I|].
    symmetry in Hv. exact (TrimLeftSpace_head _ _ _ Hv).
Qed.

(** ** utils.go: names out of hosts and paths *)

(** [extractSubdomain] gives a name exactly when the domain occurs in the
    host after at least one byte: the name is what stands before the byte
    in front of the first occurrence, without white space at its ends.
    That byte is dropped whatever it is, and the name may be empty. In
    every other case the error is the one message. *)
Theorem extractSubdomain_spec (host domainHost : bytes) :
  Forall (fun c => isASCII c = true) host ->
  (forall name,
     extractSubdomain host domainHost = inl name <->
     exists pre c post,
       host = pre ++ c :: domainHost ++ post /\
       (forall k, (k <= length pre)%nat -> HasPrefix (drop k host) domainHost = false) /\
       name = TrimSpace pre) /\
  (forall e,
     extractSubdomain host domainHost = inr e ->
     e = ErrorString "could not find a valid subdomain in http request headers" /\
     (HasPrefix host domainHost = true \/ Index host domainHost = None)).
Proof.
  intros _. unfold extractSubdomain. split.
  - intros name. destruct (Index host domainHost) as [[|i]|] eqn:Hi.
    + split; [discriminate|]. intros (pre & c & post & Hh & Hno & _).
      apply Index_Some_iff in Hi as (p0 & q0 & Hs & Hl & _).
      destruct p0; [|discriminate]. cbn in Hs.
      specialize (Hno 0%nat ltac:(lia)). rewrite drop_0 in Hno.
      assert (HasPrefix host domainHost = true) by (apply HasPrefix_app; eauto). congruence.
    + apply Index_Some_iff in Hi as (p0 & q0 & Hs & Hl & Hno).
      destruct (list.last p0) as [c|] eqn:Hlast.
      2:{ apply last_None in Hlast. subst p0. discriminate. }
      apply last_Some in Hlast as [pre ->].
      rewrite length_app in Hl. cbn in Hl.
      assert (Htake : take i host = pre).
      { rewrite Hs, <- app_assoc. replace i with (length pre) by lia. apply take_app_length. }
      rewrite Htake. split.
      * intros [= <-]. exists pre, c, q0. split; [rewrite Hs, <- !app_assoc; reflexivity|].
        split; [|reflexivity]. intros k Hk. apply Hno. lia.
      * intros (pre' & c' & post' & Hh & Hno' & ->). f_equal. f_equal.
        (* both decompositions cut at the first occurrence *)
        assert (Hi' : Index host domainHost = Some (S (length pre'))).
        { apply Index_Some_iff. exists (pre' ++ [c']), post'.
          split; [rewrite Hh, <- !app_assoc; reflexivity|].
          split; [rewrite length_app; cbn; lia|]. intros k Hk. apply Hno'. lia. }
        assert (Hi0 : Index host domainHost = Some (S i)).
        { apply Index_Some_iff. exists (pre ++ [c]), q0. split; [exact Hs|].
          split; [rewrite length_app; cbn; lia | exact Hno]. }
        rewrite Hi0 in Hi'. injection Hi' as Hi'.
        rewrite <- Htake, Hh. rewrite Hi'. apply take_app_length.
    + split; [discriminate|]. intros (pre & c & post & Hh & Hno & _).
      assert (Hi' : Index host domainHost = Some (S (length pre))).
      { apply Index_Some_iff. exists (pre ++ [c]), post.
        split; [rewrite Hh, <- !app_assoc; reflexivity|].
        split; [rewrite length_app; cbn; lia|]. intros k Hk. apply Hno. lia. }
      congruence.
  - intros e. destruct (Index host domainHost) as [[|i]|] eqn:Hi.
    + intros [= <-]. split; [reflexivity|]. left.
      rewrite <- Index_zero_prefix, Hi. reflexivity.
    + discriminate.
    + intros [= <-]. split; [reflexivity|]. right. reflexivity.
Qed.

Lemma extractSubdomain_spec_witness :
  extractSubdomain (B "my-sub.domain.io") (B "domain.io") = inl (B "my-sub") /\
  extractSubdomain (B "domain.io") (B "domain.io")
  = inr (ErrorString "could not find a valid subdomain in http request headers").
Proof.
  destruct (extractSubdomain_spec (B "my-sub.domain.io") (B "domain.io")
              ltac:(repeat constructor)) as [Hname _].
  destruct (extractSubdomain_spec (B "domain.io") (B "domain.io")
              ltac:(repeat constructor)) as [_ Herr].
  split.
  - apply Hname. exists (B "my-sub"), "."%char, []. split; [reflexivity|].
    split; [|reflexivity]. intros k Hk. cbn in Hk.
    do 7 (destruct k as [|k]; [reflexivity|]). lia.
  - destruct (extractSubdomain (B "domain.io") (B "domain.io")) as [n|e] eqn:He;
      [vm_compute in He; discriminate|].
    destruct (Herr e eq_refl) as [-> _]. reflexivity.
Defined.

(** A valid tunnel name has no white space at its ends. *)
Lemma nameByte_not_space (c : ascii) : nameByte c = true -> isSpaceByte c = false.
Proof. all_bytes c. Qed.

Lemma tunnelNameValid_bytes (s : bytes) :
  tunnelNameValid s = true -> s <> [] /\ Forall (fun c => nameByte c = true) s.
Proof.
  unfold tunnelNameValid. destruct s as [|a s]; [discriminate|].
  cbn [bytes_eqb orb].
  destruct (length (a :: s) <? 50)%nat; [|discriminate]. cbn [negb].
  destruct (byte_eqb (hd DASH (ToLower (a :: s))) DASH
            || byte_eqb (List.last (ToLower (a :: s)) DASH) DASH); [discriminate|].
  intros H. apply nameLoop_lower in H as [H _]. split; [discriminate | exact H].
Qed.

Lemma TrimSpace_name (s : bytes) :
  Forall (fun c => nameByte c = true) s -> TrimSpace s = s.
Proof.
  intros H. apply TrimSpace_fixed.
  - destruct s as [|c s]; [exact I|]. inversion H; subst. apply nameByte_not_space; assumption.
  - apply Forall_rev in H. destruct (rev s) as [|c t]; [exact I|].
    inversion H; subst. apply nameByte_not_space; assumption.
Qed.

(** A name that [tunnelNameValid] accepts comes back from the host
    [name.domain...]: whatever byte separates them, and whatever follows
    the domain, as long as the domain does not occur earlier in the host. *)
Theorem extractSubdomain_valid_name (name domainHost post : bytes) (c : ascii) :
  Forall (fun c => isASCII c = true) (name ++ c :: domainHost ++ post) ->
  tunnelNameValid name = true ->
  Index (name ++ c :: domainHost ++ post) domainHost = Some (S (length name)) ->
  extractSubdomain (name ++ c :: domainHost ++ post) domainHost = inl name.
Proof.
  intros _ Hv Hi. unfold extractSubdomain. rewrite Hi.
  rewrite take_app_length. f_equal.
  apply TrimSpace_name. apply tunnelNameValid_bytes. exact Hv.
Qed.

Lemma extractSubdomain_valid_name_witness :
  extractSubdomain (B "open-idc" ++ "."%char :: B "domain.io" ++ B ":80") (B "domain.io")
  = inl (B "open-idc").
Proof.
  apply (extractSubdomain_valid_name (B "open-idc") (B "domain.io") (B ":80") "."%char).
  - repeat constructor.
  - reflexivity.
  - reflexivity.
Defined.

(** The name [extractTunnelNameFromURLPath] gives is never empty, holds no
    slash and no white space at its ends, and is a part of the path. *)
Theorem extractTunnelNameFromURLPath_shape (path domainURLPath name : bytes) :
  Forall (fun c => isASCII c = true) path ->
  extractTunnelNameFromURLPath path domainURLPath = inl name ->
  name <> [] /\
  Forall (fun c => c <> "/"%char) name /\
  TrimSpace name = name /\
  exists before after, path = before ++ name ++ after.
Proof.
  intros _. unfold extractTunnelNameFromURLPath.
  set (domainPath := match Index domainURLPath (B "/") with
                     | Some i => if HasPrefix path (B "/") then drop i domainURLPath
                                 else drop (i + 1) domainURLPath
                     | None => if HasPrefix path (B "/") then B "/" else []
                     end).
  destruct (HasPrefix path domainPath) eqn:Hp; cbn [negb]; [|discriminate].
  remember (TrimPrefix (TrimPrefix path domainPath) (B "/")) as trimmedPath eqn:Htrimmed.
  remember (match Index trimmedPath (B "/") with
            | Some i => i | None => length trimmedPath end) as idx eqn:Hidx.
  destruct (bytes_eqb (TrimSpace (take idx trimmedPath)) []) eqn:He; [discriminate|].
  intros [= <-]. apply bytes_eqb_neq in He.
  (* the segment has no slash *)
  assert (Hseg : Forall (fun c => c <> "/"%char) (take idx trimmedPath)).
  { clear Htrimmed He. subst idx. destruct (Index trimmedPath (B "/")) as [i|] eqn:Hi.
    - apply Index_Some_iff in Hi as (pre & post & Hs & Hl & Hno).
      rewrite Hs. subst i. rewrite take_app_length.
      apply List.Forall_forall. intros c Hc ->.
      apply in_split in Hc as (l1 & l2 & ->).
      specialize (Hno (length l1) ltac:(rewrite length_app; cbn; lia)).
      rewrite Hs, <- !app_assoc, drop_app_length in Hno. cbn in Hno.
      destruct (l2 ++ "/"%char :: post); discriminate.
    - rewrite firstn_all. apply List.Forall_forall. intros c Hc ->.
      apply in_split in Hc as (l1 & l2 & Hs).
      assert (Hi' : exists i, Index trimmedPath (B "/") = Some i).
      { clear Hi. rewrite Hs. clear. induction l1 as [|a l1 [i IH]].
        - exists 0%nat. cbn. destruct l2; reflexivity.
        - rewrite Index_unfold. cbn [app]. destruct (HasPrefix (a :: l1 ++ "/"%char :: l2) (B "/")).
          + eauto.
          + rewrite IH. cbn. eauto. }
      destruct Hi' as [i Hi']. congruence. }
  destruct (TrimSpace_split (take idx trimmedPath)) as (a & b & Hab & _ & _).
  split; [exact He|]. split.
  { rewrite Hab in Hseg. apply Forall_app in Hseg as [_ Hseg].
    apply Forall_app in Hseg as [Hseg _]. exact Hseg. }
  split.
  { apply TrimSpace_fixed; apply TrimSpace_ends. }
  (* a part of the path *)
  assert (Htp : forall s p, exists u, s = u ++ TrimPrefix s p).
  { intros s p. unfold TrimPrefix. destruct (HasPrefix s p).
    - exists (take (length p) s). symmetry. apply take_drop.
    - exists []. reflexivity. }
  destruct (Htp path domainPath) as (u1 & Hu1).
  destruct (Htp (TrimPrefix path domainPath) (B "/")) as (u2 & Hu2).
  rewrite <- Htrimmed in Hu2.
  exists (u1 ++ u2 ++ a), (b ++ drop idx trimmedPath).
  rewrite Hu1 at 1. rewrite Hu2 at 1.
  rewrite <- (take_drop idx trimmedPath) at 1. rewrite Hab at 1.
  rewrite <- !app_assoc. reflexivity.
Qed.

Lemma extractTunnelNameFromURLPath_shape_witness :
  B "tunnel" <> [] /\
  Forall (fun c => c <> "/"%char) (B "tunnel") /\
  TrimSpace (B "tunnel") = B "tunnel" /\
  exists before after, B "/x/y/z/tunnel/c" = before ++ B "tunnel" ++ after.
Proof.
  apply (extractTunnelNameFromURLPath_shape (B "/x/y/z/tunnel/c") (B "/x/y/z") (B "tunnel")).
  - repeat constructor.
  - reflexivity.
Defined.

Lemma first_segment (domainURLPath sep name rest : bytes) :
  Forall (fun c => isASCII c = true) (domainURLPath ++ sep ++ name ++ rest) ->
  (domainURLPath = [] \/ exists d, domainURLPath = "/"%char :: d) ->
  (sep = [] \/ sep = B "/") ->
  name <> [] -> Forall (fun c => c <> "/"%char) name -> TrimSpace name = name ->
  (rest = [] \/ exists r, rest = "/"%char :: r) ->
  extractTunnelNameFromURLPath (domainURLPath ++ sep ++ name ++ rest) domainURLPath = inl name.
Proof.
  intros _ HD Hsep Hne Hslash Htrim Hrest.
  assert (Hhead : HasPrefix (name ++ rest) (B "/") = false).
  { destruct name as [|c name]; [congruence|]. inversion Hslash; subst.
    cbn. apply byte_eqb_neq in H1. rewrite H1. reflexivity. }
  assert (Hsegment : forall s, s = name ++ rest ->
            (let idx := match Index s (B "/") with Some i => i | None => length s end in
             take idx s) = name).
  { intros s ->. cbv zeta. destruct Hrest as [-> | [r ->]].
    - rewrite app_nil_r.
      change (Index name (B "/")) with (Index name ["/"%char]).
      rewrite (Index_byte_none name "/"%char Hslash). apply firstn_all.
    - change (Index (name ++ "/"%char :: r) (B "/")) with (Index (name ++ "/"%char :: r) ["/"%char]).
      rewrite (Index_byte_first name r "/"%char Hslash). apply take_app_length. }
  assert (Hfinish : forall trimmedPath, trimmedPath = name ++ rest ->
            (let idx := match Index trimmedPath (B "/") with
                        | Some i => i | None => length trimmedPath end in
             let tunnelName := TrimSpace (take idx trimmedPath) in
             if bytes_eqb tunnelName []
             then inr (ErrorString "could not find a valid tunnelName in http request path")
             else @inl bytes error tunnelName) = inl name).
  { intros t Ht. cbv zeta. pose proof (Hsegment t Ht) as Hs. cbv zeta in Hs. rewrite Hs, Htrim.
    apply bytes_eqb_neq in Hne. rewrite Hne. reflexivity. }
  assert (Htrim2 : TrimPrefix (sep ++ name ++ rest) (B "/") = name ++ rest).
  { destruct Hsep as [-> | ->].
    - cbn [app]. unfold TrimPrefix. rewrite Hhead. reflexivity.
    - apply TrimPrefix_app. }
  unfold extractTunnelNameFromURLPath.
  destruct HD as [-> | [d ->]].
  - (* no path in the domain *)
    cbn [app]. change (Index [] (B "/")) with (@None nat).
    destruct Hsep as [-> | ->].
    + cbn [app]. rewrite Hhead, HasPrefix_nil, TrimPrefix_nil. cbn [negb].
      assert (Ht : TrimPrefix (name ++ rest) (B "/") = name ++ rest)
        by (unfold TrimPrefix; rewrite Hhead; reflexivity).
      rewrite Ht. apply Hfinish. reflexivity.
    + rewrite !HasPrefix_app_l. cbn [negb]. rewrite TrimPrefix_app.
      assert (Ht : TrimPrefix (name ++ rest) (B "/") = name ++ rest)
        by (unfold TrimPrefix; rewrite Hhead; reflexivity).
      rewrite Ht. apply Hfinish. reflexivity.
  - assert (Hi : Index ("/"%char :: d) (B "/") = Some 0%nat)
      by (cbn; destruct d; reflexivity).
    rewrite Hi.
    assert (Hp : HasPrefix (("/"%char :: d) ++ sep ++ name ++ rest) (B "/") = true)
      by (cbn; destruct (d ++ sep ++ name ++ rest); reflexivity).
    rewrite Hp, drop_0, HasPrefix_app_l. cbn [negb].
    rewrite TrimPrefix_app, Htrim2. apply Hfinish. reflexivity.
Qed.

(** The name is the first segment of the path behind the path of the
    domain; the slash between the two may be missing. *)
Theorem extractTunnelNameFromURLPath_segment (domainURLPath sep name rest : bytes) :
  Forall (fun c => isASCII c = true) (domainURLPath ++ sep ++ name ++ rest) ->
  (domainURLPath = [] \/ exists d, domainURLPath = "/"%char :: d) ->
  (sep = [] \/ sep = B "/") ->
  name <> [] -> Forall (fun c => c <> "/"%char) name -> TrimSpace name = name ->
  (rest = [] \/ exists r, rest = "/"%char :: r) ->
  extractTunnelNameFromURLPath (domainURLPath ++ sep ++ name ++ rest) domainURLPath = inl name.
Proof. apply first_segment. Qed.

Lemma extractTunnelNameFromURLPath_segment_witness :
  extractTunnelNameFromURLPath (B "/x/y/z" ++ B "/" ++ B "tunnel" ++ B "/c") (B "/x/y/z")
  = inl (B "tunnel").
Proof.
  apply (extractTunnelNameFromURLPath_segment (B "/x/y/z") (B "/") (B "tunnel") (B "/c")).
  - repeat constructor.
  - right. exists (B "x/y/z"). reflexivity.
  - right. reflexivity.
  - discriminate.
  - repeat constructor; discriminate.
  - reflexivity.
  - right. exists (B "c"). reflexivity.
Defined.

(** ** Names the handler grants *)

Lemma lowerAlnum_facts (c : ascii) :
  isLowerAlnum c = true ->
  lowerByte c = c /\ isNameChar c = true /\ byte_eqb c DASH = false.
Proof. all_bytes c. Qed.

Lemma nameLoop_alnum (s : bytes) :
  Forall (fun c => isLowerAlnum c = true) s -> nameLoop s = true.
Proof.
  induction s as [|c s IH]; [reflexivity|]. intros H. inversion H as [|? ? Hc Hs]; subst.
  destruct (lowerAlnum_facts c Hc) as (_ & Hn & Hd).
  cbn [nameLoop]. rewrite Hn, Hd. cbn [andb]. exact (IH Hs).
Qed.

Lemma generateRandomTunnelName_valid (rnd name rest : bytes) :
  generateRandomTunnelName rnd = Some (name, rest) -> tunnelNameValid name = true.
Proof.
  unfold generateRandomTunnelName, tunnelNameLength.
  destruct (Nat.ltb_spec (length rnd) 4) as [|Hlen]; [discriminate|].
  intros [= <- _].
  destruct rnd as [|a [|b [|c [|d rnd]]]]; try (cbn in Hlen; lia).
  change (take 4 (a :: b :: c :: d :: rnd)) with [a; b; c; d]. cbn [map].
  pose proof (charMap_alnum a) as Ha. pose proof (charMap_alnum b) as Hb.
  pose proof (charMap_alnum c) as Hc. pose proof (charMap_alnum d) as Hd.
  set (x := charMap (byteZ a mod 36)) in *. set (y := charMap (byteZ b mod 36)) in *.
  set (z := charMap (byteZ c mod 36)) in *. set (w := charMap (byteZ d mod 36)) in *.
  destruct (lowerAlnum_facts x Ha) as (Hx1 & _ & Hx3).
  destruct (lowerAlnum_facts w Hd) as (Hw1 & _ & Hw3).
  destruct (lowerAlnum_facts y Hb) as (Hy1 & _ & _).
  destruct (lowerAlnum_facts z Hc) as (Hz1 & _ & _).
  unfold tunnelNameValid. cbn [bytes_eqb length Nat.ltb Nat.leb negb orb].
  unfold ToLower. cbn [map hd List.last]. rewrite Hx1, Hy1, Hz1, Hw1, Hx3, Hw3. cbn [orb].
  apply nameLoop_alnum. repeat constructor; assumption.
Qed.

Lemma drawName_valid (fuel : nat) (addr : bytes)
    (tunnels : gmap bytes forward.sshTunnelsListenerData) (name : bytes) (taken : bool)
    (rnd n rest : bytes) :
  forward.drawName fuel addr tunnels name taken rnd = Some (n, rest) ->
  (taken = false /\ n = name) \/ tunnelNameValid n = true.
Proof.
  revert name taken rnd. induction fuel as [|fuel IH]; intros name taken rnd.
  - cbn. destruct taken; [discriminate|]. intros [= <- _]. left. auto.
  - cbn [forward.drawName]. destruct taken.
    + destruct (generateRandomTunnelName rnd) as [[g rnd1]|] eqn:Hg; [|discriminate].
      intros Hd. destruct (IH _ _ _ Hd) as [[_ ->] | Hv]; [|right; exact Hv].
      right. exact (generateRandomTunnelName_valid _ _ _ Hg).
    + intros [= <- _]. left. auto.
Qed.

(** Every name the HTTP branch of [forwardHandler] grants passes
    [tunnelNameValid], the requested one as well as a generated one; it is
    entered in the table for the caller under the address and that name. *)
Theorem granted_name_valid
    (connId bindAddr : bytes) (bindPort : Z) (sessionHex cID name : bytes)
    (header : option bytes) (connType : bytes)
    (tunnels : gmap bytes forward.sshTunnelsListenerData) (rnd n : bytes) :
  let res := forward.acquireTunnelName connId bindAddr bindPort sessionHex cID name header
               connType tunnels rnd in
  forward.granted res = Some n ->
  tunnelNameValid n = true /\
  forward.tunnels' res !! (forward.JoinHostPort bindAddr (forward.Itoa bindPort) ++ n)
  = Some (forward.mkTunnel connId (bindAddr, bindPort) sessionHex cID header connType).
Proof.
  cbv zeta. unfold forward.acquireTunnelName.
  destruct (tunnelNameValid name) eqn:Hv.
  - destruct (tunnels !! (forward.JoinHostPort bindAddr (forward.Itoa bindPort) ++ name))
      as [s|] eqn:Hl.
    + destruct (bytes_eqb (forward.clientID s) cID).
      * destruct (forward.drawName _ _ _ _ false _) as [[g r]|] eqn:Hd; cbn; [|discriminate].
        intros [= ->]. rewrite lookup_insert_eq. split; [|reflexivity].
        destruct (drawName_valid _ _ _ _ _ _ _ _ Hd) as [[_ ->] | H]; assumption.
      * destruct (forward.drawName _ _ _ _ true _) as [[g r]|] eqn:Hd; cbn; [|discriminate].
        intros [= ->]. rewrite lookup_insert_eq. split; [|reflexivity].
        destruct (drawName_valid _ _ _ _ _ _ _ _ Hd) as [[H _] | H]; [discriminate | assumption].
    + destruct (forward.drawName _ _ _ _ false _) as [[g r]|] eqn:Hd; cbn; [|discriminate].
      intros [= ->]. rewrite lookup_insert_eq. split; [|reflexivity].
      destruct (drawName_valid _ _ _ _ _ _ _ _ Hd) as [[_ ->] | H]; assumption.
  - destruct (forward.drawName _ _ _ _ true _) as [[g r]|] eqn:Hd; cbn; [|discriminate].
    intros [= ->]. rewrite lookup_insert_eq. split; [|reflexivity].
    destruct (drawName_valid _ _ _ _ _ _ _ _ Hd) as [[H _] | H]; [discriminate | assumption].
Qed.

Lemma granted_name_valid_witness :
  tunnelNameValid (B "tuvw") = true /\
  forward.tunnels'
    (forward.acquireTunnelName (B "conn") (B "localhost") 80 (B "5e55") (B "me") (B "bad--name")
       None (B "http") ∅ (B "ABCDEFGH"))
  !! (forward.JoinHostPort (B "localhost") (forward.Itoa 80) ++ B "tuvw")
  = Some (forward.mkTunnel (B "conn") (B "localhost", 80%Z) (B "5e55") (B "me") None (B "http")).
Proof.
  apply (granted_name_valid (B "conn") (B "localhost") 80 (B "5e55") (B "me") (B "bad--name")
           None (B "http") ∅ (B "ABCDEFGH") (B "tuvw")).
  vm_compute. reflexivity.
Defined.

(** ** The command of a forward request *)

Lemma lowerByte_comma (a : ascii) : byte_eqb (lowerByte a) ","%char = byte_eqb a ","%char.
Proof. all_bytes a. Qed.

Lemma lowerByte_space (a : ascii) : isSpaceByte (lowerByte a) = isSpaceByte a.
Proof. all_bytes a. Qed.

Lemma lowerByte_idem (a : ascii) : lowerByte (lowerByte a) = lowerByte a.
Proof. all_bytes a. Qed.

Lemma ToLower_idem (s : bytes) : ToLower (ToLower s) = ToLower s.
Proof.
  unfold ToLower. rewrite map_map. apply map_ext. intros a. apply lowerByte_idem.
Qed.

Lemma splitLoop_lower (cur s : bytes) :
  splitLoop ","%char (ToLower cur) (ToLower s) = map ToLower (splitLoop ","%char cur s).
Proof.
  revert cur. induction s as [|a s IH]; intros cur; cbn [ToLower map splitLoop].
  - unfold ToLower. rewrite map_rev. reflexivity.
  - rewrite lowerByte_comma. destruct (byte_eqb a ","%char).
    + cbn [map]. f_equal; [unfold ToLower; rewrite map_rev; reflexivity|].
      exact (IH []).
    + exact (IH (a :: cur)).
Qed.

Lemma TrimLeftSpace_lower (s : bytes) :
  TrimLeftSpace (ToLower s) = ToLower (TrimLeftSpace s).
Proof.
  induction s as [|a s IH]; [reflexivity|].
  cbn [ToLower map TrimLeftSpace]. rewrite lowerByte_space.
  destruct (isSpaceByte a); [exact IH | reflexivity].
Qed.

Lemma TrimSpace_lower (s : bytes) : TrimSpace (ToLower s) = ToLower (TrimSpace s).
Proof.
  unfold TrimSpace. rewrite TrimLeftSpace_lower.
  assert (Hr : forall t, rev (ToLower t) = ToLower (rev t))
    by (intros t; unfold ToLower; symmetry; apply map_rev).
  rewrite Hr, TrimLeftSpace_lower, Hr. reflexivity.
Qed.

Lemma commandPart_lower (p : bytes) (c : handlers.command) :
  handlers.commandPart (ToLower p) c = handlers.commandPart p c.
Proof.
  unfold handlers.commandPart. rewrite TrimSpace_lower, ToLower_idem. reflexivity.
Qed.

Lemma commandLoop_lower (ps : list bytes) (c : handlers.command) :
  handlers.commandLoop (map ToLower ps) c = handlers.commandLoop ps c.
Proof.
  revert c. induction ps as [|p ps IH]; intros c; [reflexivity|].
  cbn [map handlers.commandLoop]. rewrite commandPart_lower.
  destruct (handlers.commandPart p c); [apply IH | reflexivity].
Qed.

(** The command is read without regard to the case of its letters: keys
    and values, the tunnel name and the client id among them, are
    lower-cased before they are used. *)
Theorem parseCommand_case (request sessionHex : bytes) :
  Forall (fun c => isASCII c = true) request ->
  handlers.parseCommand (ToLower request) sessionHex = handlers.parseCommand request sessionHex.
Proof.
  intros _. unfold handlers.parseCommand, Split.
  change (@nil ascii) with (ToLower []) at 1.
  rewrite splitLoop_lower, commandLoop_lower. reflexivity.
Qed.

Lemma parseCommand_case_witness :
  handlers.parseCommand (ToLower (B "ID=Me, TunnelName=My-Sub,type=HTTP")) (B "5e55")
  = handlers.parseCommand (B "ID=Me, TunnelName=My-Sub,type=HTTP") (B "5e55").
Proof.
  apply (parseCommand_case (B "ID=Me, TunnelName=My-Sub,type=HTTP") (B "5e55")).
  repeat constructor.
Defined.

Lemma find_snoc {A : Type} (f : A -> bool) (l : list A) (x : A) :
  List.find f (l ++ [x]) =
  match List.find f l with Some y => Some y | None => if f x then Some x else None end.
Proof.
  induction l as [|a l IH]; cbn; [reflexivity|]. destruct (f a); [reflexivity | exact IH].
Qed.

Lemma lastValue_cons (key p : bytes) (parts : list bytes) (d : bytes) :
  lastValue key (p :: parts) d =
  lastValue key parts (if HasPrefix p key then drop (length key) p else d).
Proof.
  unfold lastValue. cbn [rev]. rewrite find_snoc.
  destruct (List.find _ (rev parts)); [reflexivity|].
  destruct (HasPrefix p key); reflexivity.
Qed.

Lemma keys_exclusive (p : bytes) :
  (HasPrefix p (B "id=") = true ->
   HasPrefix p (B "tunnelname=") = false /\ HasPrefix p (B "type=") = false /\
   HasPrefix p (B "header=") = false) /\
  (HasPrefix p (B "tunnelname=") = true ->
   HasPrefix p (B "type=") = false /\ HasPrefix p (B "header=") = false) /\
  (HasPrefix p (B "type=") = true -> HasPrefix p (B "header=") = false).
Proof.
  split; [|split]; intros Hp; apply HasPrefix_app in Hp as [t ->]; repeat split.
Qed.

Lemma commandLoop_closed (ps : list bytes) :
  forall c : handlers.command,
  let parts := map (fun p => ToLower (TrimSpace p)) ps in
  handlers.commandLoop ps c =
  match List.find badTypePart parts with
  | Some p => inr (B "invalid connectionType " ++ drop 5 p)
  | None =>
      inl (handlers.mkCommand
             (lastValue (B "id=") parts (handlers.cmdClientID c))
             (lastValue (B "tunnelname=") parts (handlers.cmdTunnelName c))
             (lastValue (B "header=") parts (handlers.cmdHeader c))
             (lastValue (B "type=") parts (handlers.cmdConnectionType c))
             (existsb (fun p => HasPrefix p (B "header=")) parts
              || handlers.cmdHeaderSpecified c))
  end.
Proof.
  induction ps as [|p ps IH]; intros c; cbv zeta.
  - destruct c. reflexivity.
  - cbn [map handlers.commandLoop List.find existsb]. rewrite !lastValue_cons.
    unfold handlers.commandPart. rewrite !Index_zero_prefix.
    set (np := ToLower (TrimSpace p)).
    destruct (keys_exclusive np) as (Hid & Htn & Hty).
    unfold badTypePart at 1.
    destruct (HasPrefix np (B "id=")) eqn:H1.
    { destruct (Hid eq_refl) as (-> & -> & ->). cbn [andb orb].
      rewrite IH. reflexivity. }
    destruct (HasPrefix np (B "tunnelname=")) eqn:H2.
    { destruct (Htn eq_refl) as (-> & ->). cbn [andb orb].
      rewrite IH. reflexivity. }
    destruct (HasPrefix np (B "type=")) eqn:H3.
    { rewrite (Hty eq_refl). cbn [andb orb].
      change (length (B "type=")) with 5%nat.
      assert (Hk : negb (bytes_eqb (drop 5 np) (B "https"))
                   && negb (bytes_eqb (drop 5 np) (B "http"))
                   && negb (bytes_eqb (drop 5 np) (B "tcp"))
                   = negb (knownType (drop 5 np))).
      { unfold knownType. destruct (bytes_eqb (drop 5 np) (B "https")),
          (bytes_eqb (drop 5 np) (B "http")), (bytes_eqb (drop 5 np) (B "tcp")); reflexivity. }
      rewrite Hk. destruct (negb (knownType (drop 5 np))); [reflexivity|].
      rewrite IH. reflexivity. }
    destruct (HasPrefix np (B "header=")) eqn:H4.
    { cbn [andb orb]. rewrite IH. cbn [handlers.cmdClientID handlers.cmdTunnelName
        handlers.cmdHeader handlers.cmdConnectionType handlers.cmdHeaderSpecified].
      rewrite orb_true_r. reflexivity. }
    cbn [andb orb]. rewrite IH. reflexivity.
Qed.

(** What the command loop of [forwardHandler] computes, in closed form.
    The request is refused at the first part [type=...] whose value is not
    [http], [https] or [tcp]; otherwise each of [id=], [tunnelname=],
    [type=] and [header=] has the value of its last part (empty when there
    is none), and an empty client id is replaced by the session id. *)
Theorem parseCommand_closed (request sessionHex : bytes) :
  Forall (fun c => isASCII c = true) request ->
  let parts := commandParts request in
  handlers.parseCommand request sessionHex =
  match List.find badTypePart parts with
  | Some p => inr (B "invalid connectionType " ++ drop 5 p)
  | None =>
      inl (handlers.mkCommand
             (if bytes_eqb (lastValue (B "id=") parts []) [] then sessionHex
              else lastValue (B "id=") parts [])
             (lastValue (B "tunnelname=") parts [])
             (lastValue (B "header=") parts [])
             (lastValue (B "type=") parts [])
             (existsb (fun p => HasPrefix p (B "header=")) parts))
  end.
Proof.
  intros _. cbv zeta. unfold handlers.parseCommand, commandParts.
  rewrite commandLoop_closed. cbv zeta.
  destruct (List.find badTypePart _); [reflexivity|].
  cbn [handlers.cmdClientID handlers.cmdTunnelName handlers.cmdHeader
       handlers.cmdConnectionType handlers.cmdHeaderSpecified].
  rewrite orb_false_r. reflexivity.
Qed.

Lemma parseCommand_closed_witness :
  handlers.parseCommand (B "id=a, tunnelname=x,tunnelname=my-sub,type=http") (B "5e55")
  = inl (handlers.mkCommand (B "a") (B "my-sub") [] (B "http") false) /\
  handlers.parseCommand (B "tunnelname=x,type=ftp,type=http") (B "5e55")
  = inr (B "invalid connectionType ftp").
Proof.
  split.
  - rewrite (parseCommand_closed (B "id=a, tunnelname=x,tunnelname=my-sub,type=http") (B "5e55"));
      [reflexivity | repeat constructor].
  - rewrite (parseCommand_closed (B "tunnelname=x,type=ftp,type=http") (B "5e55"));
      [reflexivity | repeat constructor].
Defined.

(** ** The tables of tunnels and listeners *)

Lemma acquireTunnelName_table
    (connId bindAddr : bytes) (bindPort : Z) (sessionHex cID name : bytes)
    (header : option bytes) (connType : bytes)
    (tunnels : gmap bytes forward.sshTunnelsListenerData) (rnd n : bytes) :
  let res := forward.acquireTunnelName connId bindAddr bindPort sessionHex cID name header
               connType tunnels rnd in
  forward.granted res = Some n ->
  forward.tunnels' res =
    <[forward.addrOf bindAddr bindPort ++ n :=
        forward.mkTunnel connId (bindAddr, bindPort) sessionHex cID header connType]> tunnels
  /\ tunnelNameValid n = true
  /\ (tunnels !! (forward.addrOf bindAddr bindPort ++ n) = None \/
      exists d, tunnels !! (forward.addrOf bindAddr bindPort ++ n) = Some d
                /\ forward.clientID d = cID).
Proof.
  cbv zeta. unfold forward.acquireTunnelName, forward.addrOf.
  set (addr := forward.JoinHostPort bindAddr (forward.Itoa bindPort)).
  assert (Hdraw : forall fuel t0 flag r g r',
            forward.drawName fuel addr tunnels t0 flag r = Some (g, r') ->
            (flag = false /\ g = t0) \/
            (tunnelNameValid g = true /\ tunnels !! (addr ++ g) = None)).
  { induction fuel as [|fuel IH]; intros t0 flag r g r'.
    - cbn. destruct flag; [discriminate|]. intros [= <- _]. left. auto.
    - cbn [forward.drawName]. destruct flag; [|intros [= <- _]; left; auto].
      destruct (generateRandomTunnelName r) as [[g0 r0]|] eqn:Hg; [|discriminate].
      intros Hd. destruct (IH _ _ _ _ _ Hd) as [[Hf ->] | H]; [|right; exact H].
      right. split; [exact (generateRandomTunnelName_valid _ _ _ Hg)|].
      destruct (tunnels !! (addr ++ g0)); [discriminate | reflexivity]. }
  destruct (tunnelNameValid name) eqn:Hv.
  - destruct (tunnels !! (addr ++ name)) as [s|] eqn:Hl.
    + destruct (bytes_eqb (forward.clientID s) cID) eqn:Hc.
      * destruct (forward.drawName _ _ _ _ false _) as [[g r]|] eqn:Hd; cbn; [|discriminate].
        intros [= ->]. split; [reflexivity|].
        destruct (Hdraw _ _ _ _ _ _ Hd) as [[_ ->] | [H1 H2]]; [|auto].
        split; [exact Hv|]. right. exists s. split; [exact Hl|].
        apply bytes_eqb_eq. exact Hc.
      * destruct (forward.drawName _ _ _ _ true _) as [[g r]|] eqn:Hd; cbn; [|discriminate].
        intros [= ->]. split; [reflexivity|].
        destruct (Hdraw _ _ _ _ _ _ Hd) as [[H _] | [H1 H2]]; [discriminate | auto].
    + destruct (forward.drawName _ _ _ _ false _) as [[g r]|] eqn:Hd; cbn; [|discriminate].
      intros [= ->]. split; [reflexivity|].
      destruct (Hdraw _ _ _ _ _ _ Hd) as [[_ ->] | [H1 H2]]; auto.
  - destruct (forward.drawName _ _ _ _ true _) as [[g r]|] eqn:Hd; cbn; [|discriminate].
    intros [= ->]. split; [reflexivity|].
    destruct (Hdraw _ _ _ _ _ _ Hd) as [[H _] | [H1 H2]]; [discriminate | auto].
Qed.

(** A cancel request for port 80 from the session that acquired a tunnel
    name takes the entry of that name out of the table and nothing else:
    when the name was free before, the table is what it was before the
    acquisition. *)
Theorem cancel_after_acquire
    (connId bindAddr : bytes) (sessionHex cID name : bytes)
    (header : option bytes) (connType : bytes)
    (tunnels : gmap bytes forward.sshTunnelsListenerData)
    (forwards : gmap bytes forward.forwardsListenerData) (rnd n : bytes) :
  let res := forward.acquireTunnelName connId bindAddr 80 sessionHex cID name header
               connType tunnels rnd in
  let key := forward.addrOf bindAddr 80 ++ n in
  forward.granted res = Some n ->
  handlers.cancelForwardHandler (Some n) sessionHex bindAddr 80 (forward.tunnels' res) forwards
  = Done (true, delete key tunnels, []) /\
  (tunnels !! key = None -> delete key tunnels = tunnels).
Proof.
  cbv zeta. intros Hg.
  destruct (acquireTunnelName_table connId bindAddr 80 sessionHex cID name header connType
              tunnels rnd n Hg) as (Ht & _ & _).
  split; [|apply delete_id].
  unfold handlers.cancelForwardHandler. rewrite Ht.
  change (80 =? handlers.httpBindPort)%Z with true. cbv iota.
  unfold forward.addrOf. rewrite lookup_insert_eq.
  cbn [forward.sessionID]. rewrite bytes_eqb_refl.
  rewrite delete_insert_eq. reflexivity.
Qed.

Lemma cancel_after_acquire_witness :
  handlers.cancelForwardHandler (Some (B "my-sub")) (B "5e55") (B "localhost") 80
    (forward.tunnels'
       (forward.acquireTunnelName (B "conn") (B "localhost") 80 (B "5e55") (B "me") (B "my-sub")
          None (B "http") ∅ [])) ∅
  = Done (true, delete (forward.addrOf (B "localhost") 80 ++ B "my-sub") ∅, []) /\
  ((∅ : gmap bytes forward.sshTunnelsListenerData)
     !! (forward.addrOf (B "localhost") 80 ++ B "my-sub") = None ->
   delete (forward.addrOf (B "localhost") 80 ++ B "my-sub")
     (∅ : gmap bytes forward.sshTunnelsListenerData) = ∅).
Proof.
  apply (cancel_after_acquire (B "conn") (B "localhost") (B "5e55") (B "me") (B "my-sub")
           None (B "http") ∅ ∅ [] (B "my-sub")).
  reflexivity.
Defined.

(** [cancelForwardHandler] replies [true] to every request whose payload
    it can read; it adds no entry to the table of tunnels and changes
    none, and the only entry it can remove is the one of the connection's
    own tunnel name, and only when that entry carries the session id of
    the connection. *)
Theorem cancel_removes_own_entry_only
    (connTunnelName : option bytes) (sessionHex bindAddr : bytes) (bindPort : Z)
    (tunnels tunnels1 : gmap bytes forward.sshTunnelsListenerData)
    (forwards : gmap bytes forward.forwardsListenerData) (reply : bool) (closed : list bytes) :
  handlers.cancelForwardHandler connTunnelName sessionHex bindAddr bindPort tunnels forwards
  = Done (reply, tunnels1, closed) ->
  reply = true /\
  (forall k d, tunnels1 !! k = Some d -> tunnels !! k = Some d) /\
  (forall k d, tunnels !! k = Some d -> tunnels1 !! k = None ->
     forward.sessionID d = sessionHex /\ bindPort = 80%Z /\
     exists n, connTunnelName = Some n /\ k = forward.addrOf bindAddr 80 ++ n).
Proof.
  unfold handlers.cancelForwardHandler, handlers.httpBindPort.
  assert (Hsame : forall t1 : gmap bytes forward.sshTunnelsListenerData,
            t1 = tunnels ->
            (forall k d, t1 !! k = Some d -> tunnels !! k = Some d) /\
            (forall k d, tunnels !! k = Some d -> t1 !! k = None ->
               forward.sessionID d = sessionHex /\ bindPort = 80%Z /\
               exists n, connTunnelName = Some n /\ k = forward.addrOf bindAddr 80 ++ n)).
  { intros t1 ->. split; [auto|]. intros k d H1 H2. congruence. }
  destruct (Z.eqb_spec bindPort 80) as [->|Hp].
  - destruct connTunnelName as [n|].
    + destruct (tunnels !! (forward.JoinHostPort bindAddr (forward.Itoa 80) ++ n))
        as [s|] eqn:Hl.
      * destruct (bytes_eqb (forward.sessionID s) sessionHex) eqn:Hs.
        -- intros [= <- <- <-]. split; [reflexivity|]. split.
           ++ intros k d Hk. apply lookup_delete_Some in Hk as [_ Hk]. exact Hk.
           ++ intros k d Hk Hd. apply lookup_delete_None in Hd as [<- | Hd]; [|congruence].
              rewrite Hl in Hk. injection Hk as <-.
              split; [apply bytes_eqb_eq; exact Hs|]. split; [reflexivity|].
              exists n. split; reflexivity.
        -- intros [= <- <- <-]. split; [reflexivity | apply Hsame; reflexivity].
      * intros [= <- <- <-]. split; [reflexivity | apply Hsame; reflexivity].
    + intros [= <- <- <-]. split; [reflexivity | apply Hsame; reflexivity].
  - destruct (forwards !! forward.JoinHostPort bindAddr (forward.Itoa bindPort)) as [o|].
    + destruct (forward.listener o); [|discriminate].
      intros [= <- <- <-]. split; [reflexivity | apply Hsame; reflexivity].
    + intros [= <- <- <-]. split; [reflexivity | apply Hsame; reflexivity].
Qed.

Lemma cancel_removes_own_entry_only_witness :
  let own := forward.mkTunnel (B "c1") (B "localhost", 80%Z) (B "5e55") (B "me") None (B "http") in
  let other :=
    forward.mkTunnel (B "c2") (B "localhost", 80%Z) (B "0ther") (B "you") None (B "http") in
  let tunnels : gmap bytes forward.sshTunnelsListenerData :=
    <[ forward.addrOf (B "localhost") 80 ++ B "abcd" := own ]>
      {[ forward.addrOf (B "localhost") 80 ++ B "wxyz" := other ]} in
  let tunnels1 : gmap bytes forward.sshTunnelsListenerData :=
    {[ forward.addrOf (B "localhost") 80 ++ B "wxyz" := other ]} in
  handlers.cancelForwardHandler (Some (B "abcd")) (B "5e55") (B "localhost") 80 tunnels
    (∅ : gmap bytes forward.forwardsListenerData)
  = Done (true, tunnels1, []) /\
  (forall k d, tunnels1 !! k = Some d -> tunnels !! k = Some d) /\
  (forall k d, tunnels !! k = Some d -> tunnels1 !! k = None ->
     forward.sessionID d = B "5e55" /\
     k = forward.addrOf (B "localhost") 80 ++ B "abcd").
Proof.
  cbv zeta.
  match goal with |- ?run /\ _ => assert (Hrun : run) by by_evaluation end.
  split; [exact Hrun|].
  destruct (cancel_removes_own_entry_only _ _ _ _ _ _ _ _ _ Hrun) as (_ & Hkeep & Hgone).
  split; [exact Hkeep|]. intros k d Hk Hn.
  destruct (Hgone k d Hk Hn) as (Hs & _ & n & [= <-] & ->). split; [exact Hs | reflexivity].
Defined.

(** A client that comes back under a new session takes its name over; the
    clean-up and the cancel request of the old session then leave the
    entry alone, because it carries the new session id. *)
Theorem reconnect_survives_old_session
    (conn1 conn2 bindAddr : bytes) (session1 session2 cID name : bytes)
    (header1 header2 : option bytes) (type1 type2 : bytes)
    (tunnels : gmap bytes forward.sshTunnelsListenerData)
    (forwards : gmap bytes forward.forwardsListenerData) (rnd1 rnd2 n : bytes) :
  let res1 := forward.acquireTunnelName conn1 bindAddr 80 session1 cID name header1 type1
                tunnels rnd1 in
  let res2 := forward.acquireTunnelName conn2 bindAddr 80 session2 cID n header2 type2
                (forward.tunnels' res1) rnd2 in
  let entry := forward.mkTunnel conn2 (bindAddr, 80%Z) session2 cID header2 type2 in
  forward.granted res1 = Some n ->
  session1 <> session2 ->
  forward.granted res2 = Some n /\
  forward.tunnels' res2 !! (forward.addrOf bindAddr 80 ++ n) = Some entry /\
  handlers.cancelForwardHandler (Some n) session1 bindAddr 80 (forward.tunnels' res2) forwards
  = Done (true, forward.tunnels' res2, []) /\
  forall forwards1 closed t1,
    handlers.connectionCleanup (Some n) (Some (bindAddr, 80%Z)) session1
      (forward.tunnels' res2) forwards = Done (t1, forwards1, closed) ->
    t1 = forward.tunnels' res2.
Proof.
  cbv zeta. intros Hg Hs.
  destruct (acquireTunnelName_table conn1 bindAddr 80 session1 cID name header1 type1
              tunnels rnd1 n Hg) as (Ht1 & Hv & _).
  set (key := forward.addrOf bindAddr 80 ++ n) in *.
  set (t1 := forward.tunnels' (forward.acquireTunnelName conn1 bindAddr 80 session1 cID name
                                 header1 type1 tunnels rnd1)) in *.
  assert (Hres2 : forward.acquireTunnelName conn2 bindAddr 80 session2 cID n header2 type2 t1 rnd2
                  = forward.mkHttpResult (Some n)
                      (<[key := forward.mkTunnel conn2 (bindAddr, 80%Z) session2 cID header2 type2]> t1)
                      ((if negb (bytes_eqb n []) && negb true
                        then [B "Specified tunnelName '" ++ n ++ B "' not valid" ++ [LF]]
                        else []) ++ []) rnd2).
  { unfold forward.acquireTunnelName. rewrite Hv.
    fold (forward.addrOf bindAddr 80). fold key.
    rewrite Ht1, lookup_insert_eq. cbn [forward.clientID]. rewrite bytes_eqb_refl.
    cbn [forward.drawName]. reflexivity. }
  rewrite Hres2. cbn [forward.granted forward.tunnels'].
  split; [reflexivity|]. split; [apply lookup_insert_eq|].
  assert (Hneq : bytes_eqb session2 session1 = false)
    by (apply bytes_eqb_neq; congruence).
  split.
  - unfold handlers.cancelForwardHandler.
    change (80 =? handlers.httpBindPort)%Z with true. cbv iota.
    fold (forward.addrOf bindAddr 80). fold key.
    rewrite lookup_insert_eq. cbn [forward.sessionID]. rewrite Hneq. reflexivity.
  - intros forwards1 closed t2. unfold handlers.connectionCleanup.
    fold (forward.addrOf bindAddr 80). fold key.
    rewrite lookup_insert_eq. cbn [forward.sessionID]. rewrite Hneq.
    destruct (forwards !! forward.addrOf bindAddr 80) as [o|].
    + destruct (bytes_eqb (forward.conType o) (B "tcp")
                && bytes_eqb (forward.fSessionID o) session1).
      * destruct (forward.listener o); [|discriminate]. intros [= <- _ _]. reflexivity.
      * intros [= <- _ _]. reflexivity.
    + intros [= <- _ _]. reflexivity.
Qed.

Lemma reconnect_survives_old_session_witness :
  let res1 := forward.acquireTunnelName (B "c1") (B "localhost") 80 (B "5e55") (B "me")
                (B "my-sub") None (B "http") ∅ [] in
  let res2 := forward.acquireTunnelName (B "c2") (B "localhost") 80 (B "5e56") (B "me")
                (B "my-sub") None (B "http") (forward.tunnels' res1) [] in
  forward.granted res2 = Some (B "my-sub") /\
  forward.tunnels' res2 !! (forward.addrOf (B "localhost") 80 ++ B "my-sub")
  = Some (forward.mkTunnel (B "c2") (B "localhost", 80%Z) (B "5e56") (B "me") None (B "http")) /\
  handlers.cancelForwardHandler (Some (B "my-sub")) (B "5e55") (B "localhost") 80
    (forward.tunnels' res2) ∅
  = Done (true, forward.tunnels' res2, []) /\
  forall forwards1 closed t1,
    handlers.connectionCleanup (Some (B "my-sub")) (Some (B "localhost", 80%Z)) (B "5e55")
      (forward.tunnels' res2) ∅ = Done (t1, forwards1, closed) ->
    t1 = forward.tunnels' res2.
Proof.
  cbv zeta.
  apply (reconnect_survives_old_session (B "c1") (B "c2") (B "localhost") (B "5e55") (B "5e56")
           (B "me") (B "my-sub") None None (B "http") (B "http") ∅ ∅ [] [] (B "my-sub")).
  - reflexivity.
  - discriminate.
Defined.

Lemma acquireTCPPort_success (listen : bytes -> bool) (bindAddr : bytes) (bindPort : Z)
    (sessionHex cID domainHost : bytes)
    (forwards : gmap bytes forward.forwardsListenerData) (res : forward.tcpResult) (p : Z) :
  forward.acquireTCPPort listen bindAddr bindPort sessionHex cID domainHost forwards = Done res ->
  forward.tcpReply res = forward.Success p ->
  p <> 0%Z ->
  forward.forwards' res =
    <[forward.addrOf bindAddr p :=
        forward.mkForward (Some (forward.addrOf bindAddr p)) cID sessionHex (B "tcp")]> forwards
  /\ listen (forward.addrOf bindAddr p) = true
  /\ (bindPort <> 0%Z -> p = bindPort).
Proof.
  unfold forward.acquireTCPPort, forward.addrOf.
  set (pick := if (bindPort =? 0)%Z then _ else _).
  assert (Hpick : pick = (p, p, forward.JoinHostPort bindAddr (forward.Itoa p)) \/
                  (exists a, pick = (0%Z, bindPort, a)) \/
                  (exists q a, pick = (q, q, a) /\ q <> p)).
  { subst pick. destruct (Z.eqb_spec bindPort 0) as [->|Hb].
    - destruct (forward.scanPorts _ _ _ _) as [q|].
      + destruct (Z.eq_dec q p) as [->|Hq]; [left; reflexivity|].
        right. right. eauto.
      + right. left. eauto.
    - destruct (Z.eq_dec bindPort p) as [->|Hq]; [left; reflexivity|].
      right. right. eauto. }
  assert (Hb : bindPort <> 0%Z -> pick = (bindPort, bindPort,
                 forward.JoinHostPort bindAddr (forward.Itoa bindPort))).
  { subst pick. intros Hb. destruct (Z.eqb_spec bindPort 0); [congruence | reflexivity]. }
  destruct pick as [[rq pp] addr] eqn:Hpk.
  intros Hrun Hrep Hp0.
  assert (Hrq : rq = p).
  { revert Hrun Hrep.
    destruct (negb _ || _).
    - destruct (if bytes_eqb _ cID then _ else _) as [cl| |]; try discriminate.
      destruct (listen addr); intros [= <-]; cbn; intros [= <-]; reflexivity.
    - intros [= <-]. cbn. discriminate. }
  subst rq.
  destruct Hpick as [Hpick | [[a Hpick] | (q & a & Hpick & Hq)]];
    try (injection Hpick as ? ? ?; congruence).
  injection Hpick as -> ->.
  revert Hrun Hrep.
  destruct (negb _ || _).
  - destruct (if bytes_eqb _ cID then _ else _) as [cl| |]; try discriminate.
    destruct (listen _) eqn:Hl; intros [= <-]; cbn; [|discriminate].
    intros _. split; [reflexivity|]. split; [reflexivity|].
    intros Hne. specialize (Hb Hne). congruence.
  - intros [= <-]. cbn. discriminate.
Qed.

(** A cancel request for a port other than 80 closes the listener that is
    registered for the address, with no regard to the session that asks:
    after one client has been given a TCP port, the cancel request of any
    session closes that client's listener. Both tables stay as they are. *)
Theorem tcp_cancel_closes_any_listener (listen : bytes -> bool) (bindAddr : bytes) (bindPort : Z)
    (sessionA cidA domainHost : bytes)
    (forwards : gmap bytes forward.forwardsListenerData) (res : forward.tcpResult) (p : Z)
    (nameB : option bytes) (sessionB : bytes)
    (tunnels : gmap bytes forward.sshTunnelsListenerData) :
  forward.acquireTCPPort listen bindAddr bindPort sessionA cidA domainHost forwards = Done res ->
  forward.tcpReply res = forward.Success p ->
  p <> 0%Z -> p <> 80%Z ->
  handlers.cancelForwardHandler nameB sessionB bindAddr p tunnels (forward.forwards' res)
  = Done (true, tunnels, [forward.addrOf bindAddr p]).
Proof.
  intros Hrun Hrep Hp0 Hp80.
  destruct (acquireTCPPort_success _ _ _ _ _ _ _ _ _ Hrun Hrep Hp0) as (Hf & _ & _).
  unfold handlers.cancelForwardHandler, handlers.httpBindPort.
  destruct (Z.eqb_spec p 80); [congruence|].
  fold (forward.addrOf bindAddr p). rewrite Hf, lookup_insert_eq. reflexivity.
Qed.

Lemma tcp_cancel_closes_any_listener_witness :
  handlers.cancelForwardHandler None (B "0ther") (B "localhost") 5000 ∅
    {[ forward.addrOf (B "localhost") 5000 :=
         forward.mkForward (Some (forward.addrOf (B "localhost") 5000)) (B "me") (B "5e55")
           (B "tcp") ]}
  = Done (true, ∅, [forward.addrOf (B "localhost") 5000]).
Proof.
  refine (tcp_cancel_closes_any_listener (fun _ => true) (B "localhost") 5000 (B "5e55") (B "me")
            (B "domain.io") ∅
            (forward.mkTcpResult (forward.Success 5000)
               {[ forward.addrOf (B "localhost") 5000 :=
                    forward.mkForward (Some (forward.addrOf (B "localhost") 5000)) (B "me")
                      (B "5e55") (B "tcp") ]}
               [B "domain.io:5000" ++ [LF]] [])
            5000 None (B "0ther") ∅ _ _ _ _).
  - vm_compute. reflexivity.
  - reflexivity.
  - discriminate.
  - discriminate.
Defined.

(** The clean-up at the end of a connection removes nothing that belongs
    to another session: every tunnel entry with another session id stays,
    every listener entry stays that has another session id or is not of
    type [tcp] (the shared HTTP listener among them), no entry is added or
    changed, and a listener is closed only when its entry is removed. *)
Theorem cleanup_spares_others
    (subdomain : option bytes) (forwardRequest : option (bytes * Z)) (sessionHex : bytes)
    (tunnels tunnels1 : gmap bytes forward.sshTunnelsListenerData)
    (forwards forwards1 : gmap bytes forward.forwardsListenerData) (closed : list bytes) :
  handlers.connectionCleanup subdomain forwardRequest sessionHex tunnels forwards
  = Done (tunnels1, forwards1, closed) ->
  (forall k d, tunnels1 !! k = Some d -> tunnels !! k = Some d) /\
  (forall k d, tunnels !! k = Some d -> forward.sessionID d <> sessionHex ->
     tunnels1 !! k = Some d) /\
  (forall k o, forwards1 !! k = Some o -> forwards !! k = Some o) /\
  (forall k o, forwards !! k = Some o ->
     forward.fSessionID o <> sessionHex \/ forward.conType o <> B "tcp" ->
     forwards1 !! k = Some o) /\
  (forall l, In l closed ->
     exists k o, forwards !! k = Some o /\ forwards1 !! k = None /\
                 forward.listener o = Some l).
Proof.
  unfold handlers.connectionCleanup.
  set (t1 := match subdomain with Some _ => _ | None => _ end).
  assert (Ht : (forall k d, t1 !! k = Some d -> tunnels !! k = Some d) /\
               (forall k d, tunnels !! k = Some d -> forward.sessionID d <> sessionHex ->
                  t1 !! k = Some d)).
  { subst t1. destruct subdomain as [sd|]; [|auto]. destruct forwardRequest as [[a p]|]; [|auto].
    destruct (tunnels !! (forward.JoinHostPort a (forward.Itoa p) ++ sd)) as [s|] eqn:Hl; [|auto].
    destruct (bytes_eqb (forward.sessionID s) sessionHex) eqn:Hs; [|auto].
    apply bytes_eqb_eq in Hs. split.
    - intros k d Hk. apply lookup_delete_Some in Hk as [_ Hk]. exact Hk.
    - intros k d Hk Hd. apply lookup_delete_Some. split; [|exact Hk].
      intros <-. congruence. }
  destruct Ht as [Ht1 Ht2].
  assert (Hsame : closed = [] -> forwards1 = forwards ->
            (forall k o, forwards1 !! k = Some o -> forwards !! k = Some o) /\
            (forall k o, forwards !! k = Some o ->
               forward.fSessionID o <> sessionHex \/ forward.conType o <> B "tcp" ->
               forwards1 !! k = Some o) /\
            (forall l, In l closed ->
               exists k o, forwards !! k = Some o /\ forwards1 !! k = None /\
                           forward.listener o = Some l)).
  { intros -> ->. split; [auto|]. split; [auto|]. intros l []. }
  destruct forwardRequest as [[a p]|].
  2:{ intros [= <- <- <-]. split; [exact Ht1|]. split; [exact Ht2|]. apply Hsame; reflexivity. }
  destruct (forwards !! forward.JoinHostPort a (forward.Itoa p)) as [o|] eqn:Hl.
  2:{ intros [= <- <- <-]. split; [exact Ht1|]. split; [exact Ht2|]. apply Hsame; reflexivity. }
  destruct (bytes_eqb (forward.conType o) (B "tcp")) eqn:Hc; cbn [andb].
  2:{ intros [= <- <- <-]. split; [exact Ht1|]. split; [exact Ht2|]. apply Hsame; reflexivity. }
  destruct (bytes_eqb (forward.fSessionID o) sessionHex) eqn:Hs.
  2:{ intros [= <- <- <-]. split; [exact Ht1|]. split; [exact Ht2|]. apply Hsame; reflexivity. }
  destruct (forward.listener o) as [l|] eqn:Hli; [|discriminate].
  intros [= <- <- <-]. apply bytes_eqb_eq in Hc, Hs.
  split; [exact Ht1|]. split; [exact Ht2|]. split; [|split].
  - intros k o' Hk. apply lookup_delete_Some in Hk as [_ Hk]. exact Hk.
  - intros k o' Hk Hor. apply lookup_delete_Some. split; [|exact Hk].
    intros <-. rewrite Hl in Hk. injection Hk as <-. destruct Hor; congruence.
  - intros l' [<- | []]. exists (forward.JoinHostPort a (forward.Itoa p)), o.
    split; [exact Hl|]. split; [apply lookup_delete_eq | exact Hli].
Qed.

Lemma cleanup_spares_others_witness :
  let http := forward.mkForward (Some (B "localhost:80")) [] [] (B "http") in
  let tcp := forward.mkForward (Some (B "localhost:5224")) (B "me") (B "5e55") (B "tcp") in
  let other :=
    forward.mkTunnel (B "c2") (B "localhost", 80%Z) (B "0ther") (B "you") None (B "http") in
  let tunnels : gmap bytes forward.sshTunnelsListenerData := {[ B "localhost:80wxyz" := other ]} in
  let forwards : gmap bytes forward.forwardsListenerData :=
    <[ B "localhost:5224" := tcp ]> {[ B "localhost:80" := http ]} in
  let forwards1 : gmap bytes forward.forwardsListenerData := {[ B "localhost:80" := http ]} in
  handlers.connectionCleanup None (Some (B "localhost", 5224%Z)) (B "5e55") tunnels forwards
  = Done (tunnels, forwards1, [B "localhost:5224"]) /\
  (forall k o, forwards !! k = Some o ->
     forward.fSessionID o <> B "5e55" \/ forward.conType o <> B "tcp" ->
     forwards1 !! k = Some o) /\
  (forall l, In l [B "localhost:5224"] ->
     exists k o, forwards !! k = Some o /\ forwards1 !! k = None /\
                 forward.listener o = Some l).
Proof.
  cbv zeta.
  match goal with |- ?run /\ _ => assert (Hrun : run) by by_evaluation end.
  split; [exact Hrun|].
  destruct (cleanup_spares_others _ _ _ _ _ _ _ _ Hrun) as (_ & _ & _ & Hkeep & Hclosed).
  split; [exact Hkeep | exact Hclosed].
Defined.

(** A TCP port given to a client is released when its connection ends:
    the clean-up of the session takes the entry out and closes the
    listener; if the address had no entry before the forward request, the
    table of listeners is what it was before. *)
Theorem tcp_port_released (listen : bytes -> bool) (bindAddr : bytes) (bindPort : Z)
    (sessionHex cID domainHost : bytes) (subdomain : option bytes)
    (tunnels : gmap bytes forward.sshTunnelsListenerData)
    (forwards : gmap bytes forward.forwardsListenerData) (res : forward.tcpResult) (p : Z) :
  forward.acquireTCPPort listen bindAddr bindPort sessionHex cID domainHost forwards = Done res ->
  forward.tcpReply res = forward.Success p ->
  p <> 0%Z ->
  exists tunnels1,
    handlers.connectionCleanup subdomain (Some (bindAddr, p)) sessionHex tunnels
      (forward.forwards' res)
    = Done (tunnels1, delete (forward.addrOf bindAddr p) forwards, [forward.addrOf bindAddr p]) /\
    (forwards !! forward.addrOf bindAddr p = None ->
     delete (forward.addrOf bindAddr p) forwards = forwards).
Proof.
  intros Hrun Hrep Hp0.
  destruct (acquireTCPPort_success _ _ _ _ _ _ _ _ _ Hrun Hrep Hp0) as (Hf & _ & _).
  unfold handlers.connectionCleanup.
  fold (forward.addrOf bindAddr p). rewrite Hf, lookup_insert_eq.
  cbn [forward.conType forward.fSessionID forward.listener].
  rewrite !bytes_eqb_refl. cbn [andb].
  rewrite delete_insert_eq. eexists. split; [reflexivity | apply delete_id].
Qed.

Lemma tcp_port_released_witness :
  exists tunnels1,
    handlers.connectionCleanup None (Some (B "localhost", 1000%Z)) (B "5e55") ∅
      (forward.forwards'
         (forward.mkTcpResult (forward.Success 1000)
            {[ forward.addrOf (B "localhost") 1000 :=
                 forward.mkForward (Some (forward.addrOf (B "localhost") 1000)) (B "me")
                   (B "5e55") (B "tcp") ]}
            [B "domain.io:1000" ++ [LF]] []))
    = Done (tunnels1, delete (forward.addrOf (B "localhost") 1000) ∅,
            [forward.addrOf (B "localhost") 1000]) /\
    ((∅ : gmap bytes forward.forwardsListenerData) !! forward.addrOf (B "localhost") 1000 = None ->
     delete (forward.addrOf (B "localhost") 1000) (∅ : gmap bytes forward.forwardsListenerData)
     = ∅).
Proof.
  refine (tcp_port_released (fun _ => true) (B "localhost") 0 (B "5e55") (B "me")
            (B "domain.io") None ∅ ∅ _ 1000 _ _ _).
  - vm_compute. reflexivity.
  - reflexivity.
  - discriminate.
Defined.

(** Once the HTTP listener of an address is in the table, a later HTTP
    forward request uses it without listening again, and a TCP forward
    request for that address is refused and changes nothing: the entry of
    the HTTP listener has no client id, and the handler's is never empty. *)
Theorem http_listener_kept (listen listen1 listen2 : bytes -> bool) (bindAddr : bytes)
    (bindPort : Z) (sessionHex cID domainHost : bytes)
    (forwards forwards1 : gmap bytes forward.forwardsListenerData) (created : bool) :
  forwards !! forward.addrOf bindAddr bindPort = None ->
  handlers.httpListener listen (forward.addrOf bindAddr bindPort) forwards
  = Some (forwards1, created) ->
  bindPort <> 0%Z -> cID <> [] ->
  created = true /\
  handlers.httpListener listen1 (forward.addrOf bindAddr bindPort) forwards1
  = Some (forwards1, false) /\
  forward.acquireTCPPort listen2 bindAddr bindPort sessionHex cID domainHost forwards1
  = Done (forward.mkTcpResult forward.Failure forwards1
            [B "TCP port " ++ forward.Itoa bindPort ++ B " is already taken." ++ [LF]] []).
Proof.
  intros Hfree Hl Hp Hc. unfold handlers.httpListener in Hl. rewrite Hfree in Hl.
  destruct (listen _); [|discriminate]. injection Hl as <- <-.
  split; [reflexivity|]. split.
  - unfold handlers.httpListener. rewrite lookup_insert_eq. reflexivity.
  - unfold forward.acquireTCPPort. destruct (Z.eqb_spec bindPort 0); [congruence|].
    fold (forward.addrOf bindAddr bindPort). rewrite lookup_insert_eq.
    cbn [forward.fClientID negb orb].
    assert (He : bytes_eqb [] cID = false) by (apply bytes_eqb_neq; congruence).
    rewrite He. reflexivity.
Qed.

Lemma http_listener_kept_witness :
  true = true /\
  handlers.httpListener (fun _ => false) (forward.addrOf (B "localhost") 80)
    {[ forward.addrOf (B "localhost") 80 :=
         forward.mkForward (Some (forward.addrOf (B "localhost") 80)) [] [] (B "http") ]}
  = Some ({[ forward.addrOf (B "localhost") 80 :=
               forward.mkForward (Some (forward.addrOf (B "localhost") 80)) [] [] (B "http") ]},
          false) /\
  forward.acquireTCPPort (fun _ => true) (B "localhost") 80 (B "5e55") (B "me") (B "domain.io")
    {[ forward.addrOf (B "localhost") 80 :=
         forward.mkForward (Some (forward.addrOf (B "localhost") 80)) [] [] (B "http") ]}
  = Done (forward.mkTcpResult forward.Failure
            {[ forward.addrOf (B "localhost") 80 :=
                 forward.mkForward (Some (forward.addrOf (B "localhost") 80)) [] [] (B "http") ]}
            [B "TCP port " ++ forward.Itoa 80 ++ B " is already taken." ++ [LF]] []).
Proof.
  refine (http_listener_kept (fun _ => true) (fun _ => false) (fun _ => true) (B "localhost") 80
            (B "5e55") (B "me") (B "domain.io") ∅ _ true _ _ _ _).
  - reflexivity.
  - by_evaluation.
  - discriminate.
  - discriminate.
Defined.

(** ** The processor: errors, accessors *)

Section processor_more.
Context {R : Type} `{!io.Reader R} `{!io.ReaderOK R} `{!net.Lib}.
Import httpProcessor processorOps.

#[local] Arguments writeAt : simpl never.
#[local] Arguments slice : simpl never.
#[local] Arguments wrap64 : simpl never.
#[local] Arguments Index : simpl never.
#[local] Arguments adjustBodyReader : simpl never.
#[local] Arguments parseStartLine : simpl never.
#[local] Arguments parseHeaders : simpl never.

Lemma Read_error_recorded (h : t R) (n : nat) (data : bytes) (e : error) (h' : t R) :
  Read h n = (data, Some e, h') -> lastError h' = Some e.
Proof.
  unfold Read. cbv beta zeta. intros Hr.
  repeat case_match; simplify_eq; try reflexivity; try assumption.
Qed.

(** An error that [Read] has reported stays: every later [Read] gives no
    byte and the same error and leaves the processor, its source
    included, as it is. [Close] puts the processor in that state with
    [io.ErrUnexpectedEOF]. *)
Theorem Read_error_sticky (h : t R) (n : nat) (data : bytes) (e : error) (h' : t R) :
  Read h n = (data, Some e, h') ->
  (forall m, Read h' m = ([], Some e, h')) /\
  (forall m, Read (Close h) m = ([], Some ErrUnexpectedEOF, Close h)).
Proof.
  intros Hr. pose proof (Read_error_recorded _ _ _ _ _ Hr) as He. split.
  - intros m. unfold Read. rewrite He. reflexivity.
  - intros m. reflexivity.
Qed.

(** After the headers of a fresh processor have been read, [GetURLPath]
    gives the path of the request target when the start line is a request
    line (two spaces, a token as method) whose target parses; for a
    response and for a target that does not parse it gives the error
    "could not find URL path". *)
Theorem GetURLPath_after_headers (rd : R) (buffer method : bytes) (h1 : t R) (i : nat) :
  ReadHeadersIfNeeded (seeded rd buffer method) = (None, h1) ->
  let b := writeAt buffer 0 (io.Read rd (length buffer)).1.1 in
  Index b CRLF = Some i ->
  (GetURLPath (seeded rd buffer method)).1 =
  (let '(m, uri, _, ok) := parseRequestLine (slice b 0 i) in
   if ok && validMethod m then
     match net.ParseRequestURI uri with
     | Some u => inl (net.Path u)
     | None => inr (ErrorString "could not find URL path")
     end
   else inr (ErrorString "could not find URL path")).
Proof.
  intros Hread b Hi. unfold GetURLPath. rewrite Hread.
  destruct (ReadHeaders_fresh _ _ _ _ Hread) as (data & rd' & i' & d & mime & Hrd & Hi' & Hd & Hm & ->).
  subst b. rewrite Hrd in Hi |- *. cbn [fst] in Hi |- *.
  rewrite Hi in Hi'. injection Hi' as <-.
  match goal with |- context [adjustBodyReader ?x] =>
    destruct (adjustBodyReader_frame x) as
      (_ & _ & _ & _ & _ & _ & _ & _ & _ & _ & _ & _ & _ & -> & _) end.
  cbn [URL set_parsedHeaders set_headers].
  destruct (parseRequestLine (slice (writeAt buffer 0 data) 0 i)) as [[[m uri] proto] ok] eqn:Hp.
  destruct (ok && validMethod m) eqn:Hv.
  - apply andb_true_iff in Hv as [-> Hv].
    match goal with |- context [parseStartLine ?l ?x] =>
      destruct (parseStartLine_request _ _ _ _ x Hp Hv) as (_ & _ & _ & -> & _) end.
    cbn [URL]. destruct (net.ParseRequestURI uri); reflexivity.
  - match goal with |- context [parseStartLine ?l ?x] =>
      pose proof (parseStartLine_response l x eq_refl) as Hresp end.
    rewrite Hp in Hresp. destruct (Hresp Hv) as (_ & _ & _ & -> & _). reflexivity.
Qed.

(** [GetHeaders] gives the header block of the message: what [textproto]
    reads from the bytes of the first read between the end of the start
    line and the end of the blank line. [GetReferer] gives the value of
    [Referer] when that block has exactly one, and its error otherwise. *)
Theorem GetReferer_after_headers (rd : R) (buffer method : bytes) (h1 : t R) :
  ReadHeadersIfNeeded (seeded rd buffer method) = (None, h1) ->
  let b := writeAt buffer 0 (io.Read rd (length buffer)).1.1 in
  exists (i d : nat) (mime : gmap bytes (list bytes)),
    Index b CRLF = Some i /\ Index b (CRLF ++ CRLF) = Some (S d) /\
    net.ReadMIMEHeader (slice b (i + 2) (S d + 4)) = inl mime /\
    (GetHeaders (seeded rd buffer method)).1 = (Some mime, None) /\
    (GetReferer (seeded rd buffer method)).1 =
    match mime !! B "Referer" with
    | Some [v] => inl v
    | _ => inr (ErrorString "could not find Referer header")
    end.
Proof.
  intros Hread. cbv zeta.
  destruct (headers_after_headers rd buffer method h1 Hread)
    as (i & d & mime & Hi & Hd & Hm & Hh).
  exists i, d, mime. split; [exact Hi|]. split; [exact Hd|]. split; [exact Hm|].
  unfold GetHeaders, GetReferer, header. rewrite Hread, Hh. cbn [fst].
  split; [reflexivity|].
  destruct (mime !! B "Referer") as [[|v [|w l]]|]; reflexivity.
Qed.

End processor_more.

(** ** The processor passes its source through *)

Section runs.
Context `{!net.Lib}.
Import httpProcessor processorOps.

#[local] Arguments writeAt : simpl never.
#[local] Arguments slice : simpl never.
#[local] Arguments wrap64 : simpl never.
#[local] Arguments Index : simpl never.
#[local] Arguments adjustBodyReader : simpl never.
#[local] Arguments parseStartLine : simpl never.
#[local] Arguments parseHeaders : simpl never.

Lemma length_slice (s : bytes) (lo hi : nat) :
  (hi <= length s)%nat -> length (slice s lo hi) = (hi - lo)%nat.
Proof. intros Hh. unfold slice. rewrite length_take, length_drop. lia. Qed.

Lemma slice_advance (s : bytes) (lo hi k : nat) :
  (lo + k <= hi)%nat ->
  slice s lo hi = take k (slice s lo hi) ++ slice s (lo + k) hi.
Proof.
  intros Hk. unfold slice.
  rewrite <- (take_drop k (take (hi - lo) (drop lo s))) at 1. f_equal.
  rewrite skipn_firstn_comm, drop_drop. f_equal. lia.
Qed.

Lemma pieces_read_concat (ps : pieces) (n : nat) (data : bytes) (e : option error)
    (ps' : pieces) :
  io.Read ps n = (data, e, ps') ->
  concat ps = data ++ concat ps' /\
  (e = None ->
   (length ps' <= length ps)%nat /\
   ((0 < n)%nat ->
    (length (concat ps') + length ps' < length (concat ps) + length ps)%nat)) /\
  (e <> None -> e = Some EOF /\ data = [] /\ ps = []).
Proof.
  unfold io.Read, pieces_Reader. destruct ps as [|s rest].
  - intros [= <- <- <-]. split; [reflexivity|]. split; [discriminate|]. auto.
  - destruct (Nat.leb_spec (length s) n) as [Hle|Hgt].
    + intros [= <- <- <-]. split; [reflexivity|]. split; [|congruence].
      intros _. cbn [concat length]. rewrite !length_app. lia.
    + intros [= <- <- <-]. split.
      * cbn [concat]. rewrite app_assoc, take_drop. reflexivity.
      * split; [|congruence]. intros _. cbn [concat length].
        rewrite !length_app, length_drop. lia.
Qed.

(** One read of a steady processor with a slice that is not empty. *)
Lemma Read_steady (h : t pieces) (n : nat) (data : bytes) (e : option error) (h' : t pieces) :
  steady h -> (0 < n)%nat ->
  Read h n = (data, e, h') ->
  (e = None /\ steady h' /\ remaining h = data ++ remaining h' /\
   (readsLeft h' < readsLeft h)%nat /\ (length data <= n)%nat /\
   headerBodyReader h' = headerBodyReader h) \/
  (e = Some EOF /\ data = [] /\ remaining h = []).
Proof.
  intros (Herr & Hparsed & Hcur) Hn. unfold Read. rewrite Herr. cbv beta zeta.
  destruct (bufferUsed h) eqn:Hused; cbn [negb].
  - (* straight from the source *)
    destruct (io.Read (reader h) n) as [[d e1] rd'] eqn:Hrd.
    destruct (pieces_read_concat _ _ _ _ _ Hrd) as (Hcat & Hnone & Hsome).
    pose proof (io.Read_le (reader h) n) as Hle. rewrite Hrd in Hle. cbn in Hle.
    intros [= <- <- <-]. destruct e1 as [e1|].
    + right. destruct (Hsome ltac:(discriminate)) as (-> & -> & Hnil).
      split; [reflexivity|]. split; [reflexivity|].
      unfold remaining. rewrite Hused, Hnil. reflexivity.
    + left. destruct (Hnone eq_refl) as (_ & Hlt). specialize (Hlt Hn).
      split; [reflexivity|]. split.
      { split; [exact Herr|]. split; [exact Hparsed|]. cbn. rewrite Hused. discriminate. }
      split.
      { unfold remaining. cbn. rewrite Hused. exact Hcat. }
      split; [|split; [exact Hle | reflexivity]].
      unfold readsLeft. cbn. rewrite Hused. lia.
  - rewrite Hparsed. cbn [negb andb]. rewrite Hparsed. cbn [negb].
    destruct (Nat.eqb_spec n 0) as [|_]; [lia|].
    destruct (Hcur eq_refl) as ((Hr0 & Hrw) & Hwb & Hw63).
    set (pending := slice (buf h) (Z.to_nat (bufReadPos h)) (Z.to_nat (bufWritePos h))).
    assert (Hlen : length pending = Z.to_nat (bufWritePos h - bufReadPos h)).
    { subst pending. rewrite length_slice by lia. lia. }
    assert (Hdata : (length (take n pending) <= length pending)%nat)
      by (rewrite length_take; lia).
    assert (Hwrap : wrap64 (bufReadPos h + Z.of_nat (length (take n pending)))
                    = (bufReadPos h + Z.of_nat (length (take n pending)))%Z)
      by (apply wrap64_small; lia).
    cbn [bufReadPos bufWritePos set_bufReadPos]. rewrite Hwrap.
    intros [= <- <- <-]. left. split; [reflexivity|].
    destruct (Z.eqb_spec (bufReadPos h + Z.of_nat (length (take n pending))) (bufWritePos h))
      as [Heq|Hne].
    + (* the buffer is drained *)
      assert (Hall : take n pending = pending).
      { apply take_ge. rewrite length_take in Heq. lia. }
      split.
      { split; [exact Herr|]. split; [exact Hparsed|]. cbn. discriminate. }
      split.
      { unfold remaining. cbn. rewrite Hused. fold pending. rewrite Hall. reflexivity. }
      split; [|split; [rewrite length_take; lia | reflexivity]].
      unfold readsLeft. cbn. rewrite Hused. lia.
    + assert (Hk : length (take n pending) = n).
      { rewrite length_take in Hne |- *. lia. }
      split.
      { split; [exact Herr|]. split; [exact Hparsed|]. cbn. intros _. lia. }
      split.
      { unfold remaining. cbn. rewrite Hused. fold pending. rewrite app_assoc. f_equal.
        replace (Z.to_nat (bufReadPos h + Z.of_nat (length (take n pending))))
          with (Z.to_nat (bufReadPos h) + n)%nat by lia.
        assert (Hroom : (Z.to_nat (bufReadPos h) + n <= Z.to_nat (bufWritePos h))%nat) by lia.
        subst pending. apply slice_advance. exact Hroom. }
      split; [|split; [lia | reflexivity]].
      unfold readsLeft. cbn. rewrite Hused. rewrite Hk. lia.
Qed.

Lemma readAll_steady (n fuel : nat) :
  (0 < n)%nat ->
  forall h : t pieces, steady h -> (readsLeft h < fuel)%nat ->
  exists hf, readAll fuel n h = Some (remaining h, EOF, hf).
Proof.
  intros Hn. induction fuel as [|fuel IH]; intros h Hs Hf; [lia|].
  cbn [readAll]. destruct (Read h n) as [[data e] h'] eqn:Hr.
  destruct (Read_steady _ _ _ _ _ Hs Hn Hr)
    as [(-> & Hs' & Hrem & Hlt & _ & _) | (-> & -> & Hrem)].
  - destruct (IH h' Hs' ltac:(lia)) as [hf Hf']. rewrite Hf', Hrem. eauto.
  - rewrite Hrem. eauto.
Qed.

Lemma steady_set_reader (h : t pieces) (b : bodyReader) :
  steady h -> steady (set_headerBodyReader b h) /\
  remaining (set_headerBodyReader b h) = remaining h /\
  readsLeft (set_headerBodyReader b h) = readsLeft h.
Proof. intros Hs. split; [exact Hs|]. split; reflexivity. Qed.

Lemma bodyReadAll_limit (n fuel calls : nat) :
  (0 < n)%nat ->
  forall (h : t pieces) (N : Z),
  steady h -> headerBodyReader h = limitReader N -> (readsLeft h < calls)%nat ->
  exists hf, bodyReadAll calls fuel n h = Done (take (Z.to_nat N) (remaining h), EOF, hf).
Proof.
  intros Hn. induction calls as [|calls IH]; intros h N Hs Hb Hc; [lia|].
  cbn [bodyReadAll]. unfold bodyRead. rewrite Hb. unfold limitRead.
  destruct (Z.leb_spec N 0) as [HN|HN].
  { replace (Z.to_nat N) with 0%nat by lia. eauto. }
  set (n' := if (N <? Z.of_nat n)%Z then Z.to_nat N else n).
  assert (Hn' : (0 < n')%nat /\ (Z.of_nat n' <= N)%Z).
  { subst n'. destruct (Z.ltb_spec N (Z.of_nat n)); lia. }
  destruct (Read h n') as [[data e] h'] eqn:Hr.
  destruct (Read_steady _ _ _ _ _ Hs (proj1 Hn') Hr)
    as [(-> & Hs' & Hrem & Hlt & Hle & Hsame) | (-> & -> & Hrem)].
  - destruct (steady_set_reader h' (limitReader (N - Z.of_nat (length data))) Hs')
      as (Hs2 & Hr2 & Hl2).
    destruct (IH _ (N - Z.of_nat (length data))%Z Hs2 eq_refl ltac:(lia)) as [hf Hf].
    rewrite Hf, Hr2, Hrem. eexists. f_equal. f_equal. f_equal.
    replace (Z.to_nat N) with (length data + Z.to_nat (N - Z.of_nat (length data)))%nat by lia.
    symmetry. apply take_app_add.
  - rewrite Hrem. destruct (Z.to_nat N); eauto.
Qed.

Lemma bodyReadAll_self (n fuel calls : nat) :
  (0 < n)%nat ->
  forall h : t pieces,
  steady h -> headerBodyReader h = selfReader -> (readsLeft h < calls)%nat ->
  exists hf, bodyReadAll calls fuel n h = Done (remaining h, EOF, hf).
Proof.
  intros Hn. induction calls as [|calls IH]; intros h Hs Hb Hc; [lia|].
  cbn [bodyReadAll]. unfold bodyRead. rewrite Hb.
  destruct (Read h n) as [[data e] h'] eqn:Hr.
  destruct (Read_steady _ _ _ _ _ Hs Hn Hr)
    as [(-> & Hs' & Hrem & Hlt & _ & Hsame) | (-> & -> & Hrem)].
  - destruct (IH h' Hs' ltac:(congruence) ltac:(lia)) as [hf Hf]. rewrite Hf, Hrem. eauto.
  - rewrite Hrem. eauto.
Qed.

(** The processor of a message whose headers have just been read. *)
Lemma parsed_steady (ps : pieces) (buffer method : bytes) (h1 : t pieces) :
  (Z.of_nat (length buffer) < 2 ^ 63)%Z ->
  ReadHeadersIfNeeded (seeded ps buffer method) = (None, h1) ->
  steady h1 /\ remaining h1 = concat ps /\
  (readsLeft h1 <= length (concat ps) + length ps + 1)%nat.
Proof.
  intros Hlen Hread.
  destruct (ReadHeaders_fresh _ _ _ _ Hread)
    as (data & rd' & i & d & mime & Hrd & Hi & Hd & Hm & ->).
  pose proof (io.Read_le ps (length buffer)) as Hle. rewrite Hrd in Hle. cbn in Hle.
  destruct (pieces_read_concat _ _ _ _ _ Hrd) as (Hcat & Hnone & _).
  destruct (Hnone eq_refl) as (Hw & _).
  assert (Hwr : wrap64 (0 + Z.of_nat (length data)) = Z.of_nat (length data))
    by (apply wrap64_small; lia).
  assert (Hlb : length (writeAt buffer 0 data) = length buffer)
    by (apply length_writeAt; simpl; lia).
  unfold steady, remaining, readsLeft.
  match goal with |- context [adjustBodyReader ?x] =>
    destruct (adjustBodyReader_frame x) as
      (-> & -> & -> & -> & _ & _ & -> & -> & -> & _) end.
  cbn [buf reader bufReadPos bufWritePos bufferUsed parsedHeaders lastError
       set_parsedHeaders set_headers].
  match goal with |- context [parseStartLine ?l ?x] =>
    destruct (parseStartLine_frame l x) as
      (-> & -> & -> & -> & _ & _ & -> & _ & -> & _) end.
  cbn [buf reader bufReadPos bufWritePos bufferUsed parsedHeaders lastError].
  rewrite Hwr, Hlb.
  split; [|split].
  - split; [reflexivity|]. split; [reflexivity|]. intros _. lia.
  - rewrite Hcat. f_equal.
    replace (Z.to_nat (Z.of_nat (length data))) with (0 + length data)%nat by lia.
    change (Z.to_nat 0) with 0%nat.
    apply (slice_mid _ [] data (drop (0 + length data) buffer)); reflexivity.
  - rewrite Hcat, length_app. lia.
Qed.

(** When the headers of a message have been read, reading the processor
    to the end with a slice that is not empty gives the bytes of the
    source, every one of them once and in order, followed by [io.EOF]:
    first what was read into the buffer, then the rest straight from the
    source. The body reader of an upgraded connection is the processor,
    and gives the same. *)
Theorem processor_passes_stream (ps : pieces) (buffer method : bytes) (h1 : t pieces)
    (n calls fuel : nat) :
  (Z.of_nat (length buffer) < 2 ^ 63)%Z ->
  ReadHeadersIfNeeded (seeded ps buffer method) = (None, h1) ->
  (0 < n)%nat ->
  (length (concat ps) + length ps + 1 < calls)%nat ->
  (exists hf, readAll calls n h1 = Some (concat ps, EOF, hf)) /\
  (headerBodyReader h1 = selfReader ->
   exists hf, bodyReadAll calls fuel n h1 = Done (concat ps, EOF, hf)).
Proof.
  intros Hlen Hread Hn Hcalls.
  destruct (parsed_steady _ _ _ _ Hlen Hread) as (Hs & Hrem & Hleft).
  split.
  - destruct (readAll_steady n calls Hn h1 Hs ltac:(lia)) as [hf Hf].
    exists hf. rewrite Hf, Hrem. reflexivity.
  - intros Hself.
    destruct (bodyReadAll_self n fuel calls Hn h1 Hs Hself ltac:(lia)) as [hf Hf].
    exists hf. rewrite Hf, Hrem. reflexivity.
Qed.

(** The body reader of a message that is neither chunked nor an upgrade
    is [io.LimitReader (h, N)] with [N] the start of the body plus the
    adjusted content length: read to the end, it gives the first [N]
    bytes of the source and then [io.EOF], or all of the source when that
    is shorter. *)
Theorem body_reader_limit (ps : pieces) (buffer method : bytes) (h1 : t pieces) (N : Z)
    (n fuel calls : nat) :
  (Z.of_nat (length buffer) < 2 ^ 63)%Z ->
  ReadHeadersIfNeeded (seeded ps buffer method) = (None, h1) ->
  headerBodyReader h1 = limitReader N ->
  (0 < n)%nat ->
  (length (concat ps) + length ps + 1 < calls)%nat ->
  N = wrap64 (bodyStartsIndex h1 + (GetContentLength h1).1) /\
  exists hf, bodyReadAll calls fuel n h1 = Done (take (Z.to_nat N) (concat ps), EOF, hf).
Proof.
  intros Hlen Hread Hlim Hn Hcalls.
  destruct (parsed_steady _ _ _ _ Hlen Hread) as (Hs & Hrem & Hleft).
  split.
  - destruct (ReadHeaders_fresh _ _ _ _ Hread)
      as (data & rd' & i & d & mime & Hrd & Hi & Hd & Hm & ->).
    revert Hlim. clear.
    match goal with |- context [adjustBodyReader ?x] => generalize x end.
    intros h. unfold adjustBodyReader. cbv zeta.
    repeat case_match; cbn; try discriminate; intros [= <-]; reflexivity.
  - destruct (bodyReadAll_limit n fuel calls Hn h1 N Hs Hlim ltac:(lia)) as [hf Hf].
    exists hf. rewrite Hf, Hrem. reflexivity.
Qed.

End runs.

(** ** Rewriting the buffered header block *)

Lemma HasPrefix_app_inv (x a b : bytes) :
  HasPrefix x (a ++ b) = true -> HasPrefix x a = true.
Proof.
  intros Hx. apply HasPrefix_app in Hx as [t ->]. rewrite <- app_assoc. apply HasPrefix_app_l.
Qed.

(** Where a string occurs first, a longer string that starts with it and
    occurs there occurs first as well. *)
Lemma Index_longer (s a b pre post : bytes) :
  s = pre ++ (a ++ b) ++ post ->
  Index s a = Some (length pre) ->
  Index s (a ++ b) = Some (length pre).
Proof.
  intros Hs Hi. apply Index_Some_iff in Hi as (_ & _ & _ & _ & Hno).
  apply Index_Some_iff. exists pre, post. split; [exact Hs|]. split; [reflexivity|].
  intros k Hk. specialize (Hno k Hk).
  destruct (HasPrefix (drop k s) (a ++ b)) eqn:Hp; [|reflexivity].
  apply HasPrefix_app_inv in Hp. congruence.
Qed.

Lemma ReplaceOnce_at (s old new pre post : bytes) :
  s = pre ++ old ++ post -> Index s old = Some (length pre) ->
  ReplaceOnce s old new = pre ++ new ++ post.
Proof.
  intros -> Hi. unfold ReplaceOnce. rewrite Hi.
  rewrite take_app_length. f_equal. f_equal.
  rewrite drop_app_ge by lia.
  replace (length pre + length old - length pre)%nat with (length old) by lia.
  apply drop_app_length.
Qed.

Section rewriting.
Context {R : Type} `{!io.Reader R} `{!net.Lib}.
Import httpProcessor processorOps.

#[local] Arguments writeAt : simpl never.
#[local] Arguments slice : simpl never.
#[local] Arguments wrap64 : simpl never.
#[local] Arguments Index : simpl never.
#[local] Arguments adjustBodyReader : simpl never.
#[local] Arguments parseHeaders : simpl never.

Lemma ReadHeadersIfNeeded_parsed (h : t R) :
  lastError h = None -> parsedHeaders h = true ->
  ReadHeadersIfNeeded h = (None, h).
Proof.
  intros He Hp. unfold ReadHeadersIfNeeded. destruct (bufferUsed h) eqn:Hu; [reflexivity|].
  cbn [negb]. unfold Read. rewrite He, Hu. cbv beta zeta. cbn [negb].
  rewrite Hp. cbn [negb andb]. rewrite Hp. reflexivity.
Qed.

Lemma adjustBufferPositions_fields (offset : Z) (h : t R) :
  let h2 := adjustBufferPositions offset h in
  buf h2 = buf h /\ reader h2 = reader h /\ bufReadPos h2 = bufReadPos h /\
  bufWritePos h2 = wrap64 (bufWritePos h + offset) /\
  bodyStartsIndex h2 = wrap64 (bodyStartsIndex h + offset) /\
  bufferBytesRead h2 = wrap64 (bufferBytesRead h + offset) /\
  headers h2 = headers h /\ URL h2 = URL h /\ request h2 = request h /\
  requestRawURI h2 = requestRawURI h /\ requestMethod h2 = requestMethod h /\
  lastError h2 = lastError h /\ parsedHeaders h2 = parsedHeaders h /\
  bufferUsed h2 = bufferUsed h /\ totalBytes h2 = totalBytes h.
Proof.
  cbv zeta. unfold adjustBufferPositions.
  match goal with |- context [adjustBodyReader ?x] =>
    destruct (adjustBodyReader_frame x) as
      (-> & -> & -> & -> & -> & -> & -> & -> & -> & -> & -> & -> & -> & -> & -> & _) end.
  cbn. repeat split; reflexivity.
Qed.

(** [replaceHeader] on a processor whose headers are parsed and whose
    buffer is still in use: when the first occurrence of the header name
    in the buffer is the header line (behind a line feed, in front of a
    colon) and the first occurrence of the old value in that line is the
    value, the value is replaced in the buffer as well as in the parsed
    headers, and the write cursor and the start of the body move by the
    difference of the lengths. *)
Theorem replaceHeader_rewrites (h : t R) (m : gmap bytes (list bytes))
    (name old new pre mid tail post : bytes) :
  lastError h = None -> parsedHeaders h = true -> bufferUsed h = false ->
  headers h = Some m -> m !! name = Some [old] ->
  let line := name ++ ":"%char :: mid ++ old ++ tail in
  buf h = pre ++ LF :: line ++ LF :: post ->
  Index (buf h) name = Some (S (length pre)) ->
  Forall (fun c => c <> LF) line ->
  Index line old = Some (length name + 1 + length mid)%nat ->
  exists h',
    replaceHeader name new h = Done h' /\
    buf h' = pre ++ LF :: (name ++ ":"%char :: mid ++ new ++ tail) ++ LF :: post /\
    headers h' = Some (<[name := [new]]> m) /\
    bufWritePos h' = wrap64 (bufWritePos h + (Z.of_nat (length new) - Z.of_nat (length old))) /\
    bodyStartsIndex h'
    = wrap64 (bodyStartsIndex h + (Z.of_nat (length new) - Z.of_nat (length old))) /\
    bufReadPos h' = bufReadPos h /\ reader h' = reader h.
Proof.
  intros He Hp Hu Hh Hm line Hbuf Hname Hlf Hold.
  assert (Hbuf' : buf h = (pre ++ [LF]) ++ line ++ LF :: post)
    by (rewrite Hbuf, <- app_assoc; reflexivity).
  assert (Hlen1 : length (pre ++ [LF]) = S (length pre)) by (rewrite length_app; cbn; lia).
  unfold replaceHeader. rewrite (ReadHeadersIfNeeded_parsed h He Hp). cbn [snd].
  rewrite Hh, Hm. cbn [bufferUsed set_headers buf]. rewrite Hu. cbn [negb].
  (* the search *)
  assert (Hfind : findHeader (S (length (buf h))) (buf h) name 0 = Done (Some (S (length pre)))).
  { cbn [findHeader]. destruct (Nat.leb_spec (length (buf h)) 0) as [Hz|_].
    { rewrite Hbuf, length_app in Hz. cbn in Hz. lia. }
    rewrite drop_0, Hname. cbn [Nat.add].
    assert (Hd1 : drop (S (length pre) + length name) (buf h)
                  = ":"%char :: mid ++ old ++ tail ++ LF :: post).
    { assert (Hb2 : buf h = ((pre ++ [LF]) ++ name)
                             ++ ":"%char :: mid ++ old ++ tail ++ LF :: post).
      { rewrite Hbuf'. subst line. rewrite <- !app_assoc. cbn [app].
        rewrite <- !app_assoc. reflexivity. }
      rewrite Hb2.
      replace (S (length pre) + length name)%nat with (length ((pre ++ [LF]) ++ name))
        by (rewrite !length_app; cbn; lia).
      apply drop_app_length. }
    change (S (length pre + length name)) with (S (length pre) + length name)%nat.
    rewrite Hd1. change (byte_eqb ":"%char ":"%char) with true. cbn [negb].
    assert (Hd2 : drop (length pre) (buf h) = LF :: line ++ LF :: post)
      by (rewrite Hbuf; apply drop_app_length).
    rewrite Hd2. change (byte_eqb LF LF) with true. reflexivity. }
  rewrite Hfind.
  assert (Hd3 : drop (S (length pre)) (buf h) = line ++ LF :: post)
    by (rewrite Hbuf', <- Hlen1; apply drop_app_length).
  rewrite Hd3, (Index_byte_first line post LF Hlf).
  assert (Htemp : slice (buf h) (S (length pre)) (length line + S (length pre)) = line).
  { apply (slice_mid _ (pre ++ [LF]) line (LF :: post)); [exact Hbuf' | lia | lia]. }
  rewrite Htemp.
  assert (Hfix : ReplaceOnce line old new = name ++ ":"%char :: mid ++ new ++ tail).
  { assert (Hl : line = (name ++ ":"%char :: mid) ++ old ++ tail)
      by (subst line; rewrite <- app_assoc; reflexivity).
    rewrite (ReplaceOnce_at line old new (name ++ ":"%char :: mid) tail Hl).
    - rewrite <- app_assoc. reflexivity.
    - rewrite Hold. f_equal. rewrite length_app. cbn. lia. }
  rewrite Hfix.
  assert (Hline : Index (buf h) line = Some (length (pre ++ [LF]))).
  { subst line. apply (Index_longer _ name _ (pre ++ [LF]) (LF :: post)).
    - exact Hbuf'.
    - rewrite Hlen1. exact Hname. }
  rewrite (ReplaceOnce_at (buf h) line _ (pre ++ [LF]) (LF :: post) Hbuf' Hline).
  eexists. split; [reflexivity|].
  match goal with |- context [adjustBufferPositions ?o ?x] =>
    destruct (adjustBufferPositions_fields o x) as
      (-> & -> & -> & -> & -> & _ & -> & _) end.
  cbn. rewrite <- !app_assoc. repeat split; reflexivity.
Qed.

Lemma in_drop (l : bytes) (c : ascii) (k : nat) : In c (drop k l) -> In c l.
Proof. intros Hc. rewrite <- (take_drop k l). apply in_or_app. right. exact Hc. Qed.

(** The request target stands behind the method and a space, and
    nowhere before: the method is made of token bytes, and the target has
    a byte that is none and has no space. *)
Lemma Index_target (method uri post : bytes) :
  validMethod method = true ->
  Exists (fun c => isTokenByte c = false) uri ->
  Forall (fun c => c <> " "%char) uri ->
  Index (method ++ " "%char :: uri ++ post) uri = Some (S (length method)).
Proof.
  intros Hv Hex Hsp.
  unfold validMethod in Hv. apply andb_true_iff in Hv as [_ Hv].
  rewrite forallb_forall in Hv.
  apply Index_Some_iff. exists (method ++ [" "%char]), post.
  split; [rewrite <- !app_assoc; reflexivity|].
  split; [rewrite length_app; cbn; lia|].
  intros k Hk.
  destruct (HasPrefix (drop k (method ++ " "%char :: uri ++ post)) uri) eqn:Hp; [|reflexivity].
  exfalso. apply HasPrefix_app in Hp as [t Ht].
  rewrite drop_app_le in Ht by lia.
  apply List.app_eq_app in Ht as [l [[Hm Hl] | [Hu Hl]]].
  - (* the target inside the method *)
    apply List.Exists_exists in Hex as (c & Hc & Hnt).
    assert (Hin : In c method).
    { apply (in_drop _ _ k). rewrite Hm. apply in_or_app. left. exact Hc. }
    rewrite (Hv c Hin) in Hnt. discriminate.
  - destruct l as [|a l].
    + rewrite app_nil_r in Hu. subst uri.
      apply List.Exists_exists in Hex as (c & Hc & Hnt).
      rewrite (Hv c (in_drop _ _ _ Hc)) in Hnt. discriminate.
    + injection Hl as <- _. subst uri.
      apply Forall_app in Hsp as [_ Hsp]. inversion Hsp. congruence.
Qed.

(** [replaceHttpRequestURL] on a request whose headers are parsed and
    whose buffer is still in use puts the new target in the place of the
    old one in the start line, records it, and moves the write cursor and
    the start of the body by the difference of the lengths. *)
Theorem replaceHttpRequestURL_rewrites (urlParse : bytes -> option net.URL) (h : t R)
    (u u' : net.URL) (method uri newURL line rest : bytes) :
  lastError h = None -> parsedHeaders h = true -> bufferUsed h = false ->
  request h = true -> URL h = Some u -> requestRawURI h = uri ->
  urlParse newURL = Some u' ->
  buf h = method ++ " "%char :: uri ++ line ++ LF :: rest ->
  validMethod method = true ->
  Exists (fun c => isTokenByte c = false) uri ->
  Forall (fun c => c <> " "%char) uri ->
  Forall (fun c => c <> LF) (uri ++ line) ->
  let h' := replaceHttpRequestURL urlParse newURL h in
  buf h' = method ++ " "%char :: newURL ++ line ++ LF :: rest /\
  requestRawURI h' = newURL /\ URL h' = Some u' /\
  bufWritePos h' = wrap64 (bufWritePos h + (Z.of_nat (length newURL) - Z.of_nat (length uri))) /\
  bodyStartsIndex h'
  = wrap64 (bodyStartsIndex h + (Z.of_nat (length newURL) - Z.of_nat (length uri))) /\
  bufReadPos h' = bufReadPos h /\ reader h' = reader h /\ headers h' = headers h.
Proof.
  intros He Hp Hu Hreq Hurl Hraw Hparse Hbuf Hv Hex Hsp Hlf. cbv zeta.
  assert (Hbuf' : buf h = (method ++ [" "%char]) ++ (uri ++ line) ++ LF :: rest)
    by (rewrite Hbuf, <- !app_assoc; reflexivity).
  assert (Hlen1 : length (method ++ [" "%char]) = S (length method))
    by (rewrite length_app; cbn; lia).
  unfold replaceHttpRequestURL. rewrite (ReadHeadersIfNeeded_parsed h He Hp). cbn [snd].
  rewrite Hurl, Hreq, Hparse. cbn [bufferUsed set_URL buf requestRawURI]. rewrite Hu, Hraw.
  cbn [negb].
  assert (Hi : Index (buf h) uri = Some (S (length method))).
  { rewrite Hbuf. apply Index_target; assumption. }
  rewrite Hi.
  assert (Hd : drop (S (length method)) (buf h) = (uri ++ line) ++ LF :: rest)
    by (rewrite Hbuf', <- Hlen1; apply drop_app_length).
  rewrite Hd, (Index_byte_first (uri ++ line) rest LF Hlf).
  assert (Htemp : slice (buf h) (S (length method)) (length (uri ++ line) + S (length method))
                  = uri ++ line).
  { apply (slice_mid _ (method ++ [" "%char]) (uri ++ line) (LF :: rest));
      [exact Hbuf' | lia | lia]. }
  rewrite Htemp.
  assert (Hfix : ReplaceOnce (uri ++ line) uri newURL = newURL ++ line).
  { apply (ReplaceOnce_at (uri ++ line) uri newURL [] line); [reflexivity|].
    rewrite Index_unfold, HasPrefix_app_l. reflexivity. }
  rewrite Hfix.
  assert (Hline : Index (buf h) (uri ++ line) = Some (length (method ++ [" "%char]))).
  { apply (Index_longer _ uri line (method ++ [" "%char]) (LF :: rest)).
    - exact Hbuf'.
    - rewrite Hlen1. exact Hi. }
  rewrite (ReplaceOnce_at (buf h) (uri ++ line) _ (method ++ [" "%char]) (LF :: rest) Hbuf' Hline).
  match goal with |- context [adjustBufferPositions ?o ?x] =>
    pose proof (adjustBufferPositions_fields o x) as Hf; cbv zeta in Hf;
    generalize dependent (adjustBufferPositions o x) end.
  intros h2 (E1 & E2 & E3 & E4 & E5 & _ & E7 & E8 & _).
  cbn [requestRawURI set_requestRawURI buf URL bufWritePos bodyStartsIndex bufReadPos reader
       headers].
  rewrite E1, E2, E3, E4, E5, E7, E8.
  cbn [buf URL bufWritePos bodyStartsIndex bufReadPos reader headers set_buf set_URL].
  rewrite <- !app_assoc. repeat split; reflexivity.
Qed.

(** When [url.Parse] refuses the new target, the assignment
    [h.URL, err = url.Parse (newURL)] has left the request without a URL:
    the buffer and the raw target are as before, and [GetURLPath] fails
    from then on. *)
Theorem replaceHttpRequestURL_refused (urlParse : bytes -> option net.URL) (h : t R)
    (u : net.URL) (newURL : bytes) :
  lastError h = None -> parsedHeaders h = true ->
  request h = true -> URL h = Some u ->
  urlParse newURL = None ->
  let h' := replaceHttpRequestURL urlParse newURL h in
  URL h' = None /\ buf h' = buf h /\ requestRawURI h' = requestRawURI h /\
  (GetURLPath h').1 = inr (ErrorString "could not find URL path").
Proof.
  intros He Hp Hreq Hurl Hparse. cbv zeta.
  unfold replaceHttpRequestURL. rewrite (ReadHeadersIfNeeded_parsed h He Hp). cbn [snd].
  rewrite Hurl, Hreq, Hparse.
  split; [reflexivity|]. split; [reflexivity|]. split; [reflexivity|].
  unfold GetURLPath. rewrite ReadHeadersIfNeeded_parsed by assumption. reflexivity.
Qed.

End rewriting.


(** ** From a granted name to the tunnel *)

Lemma nameByte_not_slash (c : ascii) : nameByte c = true -> c <> "/"%char.
Proof. all_bytes c. Qed.

Section routes.
Context {R : Type} `{!io.Reader R} `{!net.Lib}.
Import httpProcessor processorOps.

(** A request for a name that the forward handler has granted reaches the
    entry of the client that was granted it, in both modes of the server:
    by the host [name.domain], when the domain does not occur earlier in
    the host, and by the path [/domain-path/name/...]. The content length
    must be readable. *)
Theorem route_after_acquire
    (connId bindAddr : bytes) (bindPort : Z) (sessionHex cID name : bytes)
    (header : option bytes) (connType : bytes)
    (tunnels : gmap bytes forward.sshTunnelsListenerData) (rnd n : bytes)
    (domainHost domainURIPath : bytes) (hadPreviousRequests : bool) (h h' : t R) :
  let res := forward.acquireTunnelName connId bindAddr bindPort sessionHex cID name header
               connType tunnels rnd in
  let entry := forward.mkTunnel connId (bindAddr, bindPort) sessionHex cID header connType in
  let addr := forward.addrOf bindAddr bindPort in
  forward.granted res = Some n ->
  (GetContentLength h').2 = true ->
  (forall (c : ascii) (post : bytes),
     Forall (fun c => isASCII c = true) (n ++ c :: domainHost ++ post) ->
     GetHost h = (inl (n ++ c :: domainHost ++ post), h') ->
     Index (n ++ c :: domainHost ++ post) domainHost = Some (S (length n)) ->
     routeRequest false domainHost domainURIPath hadPreviousRequests addr
       (forward.tunnels' res) h = (Routed n entry, h')) /\
  (forall rest : bytes,
     Forall (fun c => isASCII c = true) (domainURIPath ++ B "/" ++ n ++ rest) ->
     GetURLPath h = (inl (domainURIPath ++ B "/" ++ n ++ rest), h') ->
     (domainURIPath = [] \/ exists d, domainURIPath = "/"%char :: d) ->
     (rest = [] \/ exists r, rest = "/"%char :: r) ->
     routeRequest true domainHost domainURIPath hadPreviousRequests addr
       (forward.tunnels' res) h = (Routed n entry, h')).
Proof.
  cbv zeta. intros Hg Hcl.
  destruct (acquireTunnelName_table connId bindAddr bindPort sessionHex cID name header connType
              tunnels rnd n Hg) as (Ht & Hv & _).
  destruct (tunnelNameValid_bytes n Hv) as [Hne Hbytes].
  split.
  - intros c post _ Hhost Hi. unfold routeRequest. rewrite Hhost.
    unfold extractSubdomain. rewrite Hi, take_app_length, (TrimSpace_name n Hbytes).
    rewrite Hcl. cbn [negb]. rewrite Ht, lookup_insert_eq. reflexivity.
  - intros rest Hascii Hpath HD Hrest. unfold routeRequest. rewrite Hpath.
    rewrite (first_segment domainURIPath (B "/") n rest Hascii HD (or_intror eq_refl) Hne);
      [| | apply TrimSpace_name; exact Hbytes | exact Hrest].
    + rewrite Hcl. cbn [negb]. rewrite Ht, lookup_insert_eq. reflexivity.
    + eapply Forall_impl; [exact Hbytes|]. intros c Hc. apply nameByte_not_slash. exact Hc.
Qed.

End routes.

(** ** The chunked reader: size lines, errors, whole streams *)

Lemma hexValue_range (b : ascii) (d : Z) :
  chunkedReader.hexValue b = Some d -> (0 <= d < 16)%Z.
Proof.
  intros H. destruct b as [[] [] [] [] [] [] [] []]; vm_compute in H;
    try discriminate; injection H as <-; lia.
Qed.

Lemma parseHexLoop_value (v : bytes) :
  forall (i : nat) (n : Z),
  (0 <= n)%Z ->
  Forall (fun b => chunkedReader.hexValue b <> None) v -> (i + length v <= 16)%nat ->
  chunkedReader.parseHexLoop i n v
  = (fold_left (fun acc b => (acc * 16 + default 0 (chunkedReader.hexValue b))%Z) v n, None).
Proof.
  induction v as [|b v IH]; intros i n Hn Hhex Hlen; [reflexivity|].
  inversion Hhex as [|? ? Hb Hv]; subst. cbn [chunkedReader.parseHexLoop fold_left].
  destruct (chunkedReader.hexValue b) as [d|] eqn:Hd; [|congruence].
  pose proof (hexValue_range b d Hd) as Hr.
  cbn [length] in Hlen. destruct (Nat.eqb_spec i 16); [lia|].
  rewrite lor_shiftl_digit by exact Hr. cbn [default]. change (id d) with d.
  apply IH; [lia | exact Hv | lia].
Qed.

Lemma fold_hex_bound (v : bytes) :
  forall n : Z, (0 <= n)%Z ->
  Forall (fun b => chunkedReader.hexValue b <> None) v ->
  (0 <= fold_left (fun acc b => (acc * 16 + default 0 (chunkedReader.hexValue b))%Z) v n
   < (n + 1) * 16 ^ Z.of_nat (length v))%Z.
Proof.
  induction v as [|b v IH]; intros n Hn Hhex.
  - cbn. lia.
  - inversion Hhex as [|? ? Hb Hv]; subst. cbn [fold_left].
    destruct (chunkedReader.hexValue b) as [d|] eqn:Hd; [|congruence].
    pose proof (hexValue_range b d Hd) as Hr. cbn [default]. change (id d) with d.
    specialize (IH (n * 16 + d)%Z ltac:(lia) Hv).
    cbn [length]. rewrite Nat2Z.inj_succ, Z.pow_succ_r by lia.
    assert (Hpow : (0 < 16 ^ Z.of_nat (length v))%Z) by (apply Z.pow_pos_nonneg; lia).
    nia.
Qed.

Lemma parseHexLoop_error (v : bytes) :
  forall (i : nat) (n m : Z) (e : error),
  chunkedReader.parseHexLoop i n v = (m, Some e) ->
  m = 0%Z /\ (e = ErrorString "invalid byte in chunk length"
            \/ e = ErrorString "http chunk length too large").
Proof.
  induction v as [|b v IH]; intros i n m e; cbn [chunkedReader.parseHexLoop]; [discriminate|].
  destruct (chunkedReader.hexValue b) as [d|].
  - destruct (i =? 16)%nat.
    + intros [= <- <-]. auto.
    + apply IH.
  - intros [= <- <-]. auto.
Qed.

(** [parseHexUint] accepts exactly the strings of at most sixteen
    hexadecimal digits of either case (the empty string among them) and
    gives the number they stand for, which fits 64 bits; on every other
    string it gives 0 and one of its two errors. *)
Theorem parseHexUint_spec (v : bytes) (n : Z) :
  (chunkedReader.parseHexUint v = (n, None) <->
   Forall (fun b => chunkedReader.hexValue b <> None) v /\ (length v <= 16)%nat
   /\ n = hexNumber v) /\
  (chunkedReader.parseHexUint v = (n, None) -> (0 <= n < 2 ^ 64)%Z) /\
  (forall e, chunkedReader.parseHexUint v = (n, Some e) ->
     n = 0%Z /\ (e = ErrorString "invalid byte in chunk length"
               \/ e = ErrorString "http chunk length too large")).
Proof.
  unfold chunkedReader.parseHexUint, hexNumber.
  assert (Hiff : chunkedReader.parseHexLoop 0 0 v = (n, None) <->
                 Forall (fun b => chunkedReader.hexValue b <> None) v /\ (length v <= 16)%nat
                 /\ n = fold_left (fun acc b =>
                          (acc * 16 + default 0 (chunkedReader.hexValue b))%Z) v 0%Z).
  { split.
    - intros Hp. destruct (parseHexLoop_digits 0 0 v n ltac:(lia) Hp) as [Hhex Hlen].
      split; [exact Hhex|]. split; [exact Hlen|].
      rewrite (parseHexLoop_value v 0 0 ltac:(lia) Hhex Hlen) in Hp. congruence.
    - intros (Hhex & Hlen & ->). apply parseHexLoop_value; [lia | exact Hhex | exact Hlen]. }
  split; [exact Hiff|]. split.
  - intros Hp. apply Hiff in Hp as (Hhex & Hlen & ->).
    pose proof (fold_hex_bound v 0 ltac:(lia) Hhex) as Hb.
    assert (Hpow : (16 ^ Z.of_nat (length v) <= 16 ^ 16)%Z)
      by (apply Z.pow_le_mono_r; lia).
    change (2 ^ 64)%Z with (16 ^ 16)%Z. lia.
  - intros e. apply parseHexLoop_error.
Qed.

Lemma trimLeadingRev_stop (x y : bytes) (c : ascii) :
  chunkedReader.isASCIISpace c = false ->
  chunkedReader.trimLeadingRev (x ++ c :: y) = chunkedReader.trimLeadingRev x ++ c :: y.
Proof.
  intros Hc. induction x as [|a x IH]; cbn [app chunkedReader.trimLeadingRev].
  - rewrite Hc. reflexivity.
  - destruct (chunkedReader.isASCIISpace a); [exact IH | reflexivity].
Qed.

Lemma trimLeadingRev_spaces (x : bytes) :
  Forall (fun c => chunkedReader.isASCIISpace c = true) x ->
  chunkedReader.trimLeadingRev x = [].
Proof.
  induction x as [|a x IH]; [reflexivity|]. intros Hx. inversion Hx as [|? ? Ha Hx']; subst.
  cbn. rewrite Ha. exact (IH Hx').
Qed.

(** A size line is read up to its first semicolon and without the white
    space at its end: a chunk extension and blanks behind the digits do
    not change the size. *)
Theorem size_line_extension (h tail : bytes) :
  Forall (fun b => chunkedReader.hexValue b <> None) h ->
  (Forall (fun c => chunkedReader.isASCIISpace c = true) tail \/
   exists ext, tail = ";"%char :: ext) ->
  chunkedReader.removeChunkExtension (chunkedReader.trimTrailingWhitespace (h ++ tail)) = h.
Proof.
  intros Hhex Htail.
  assert (Hplain : Forall (fun c => c <> ";"%char) h /\
                   Forall (fun c => chunkedReader.isASCIISpace c = false) h).
  { split; eapply Forall_impl; try exact Hhex; intros b Hb;
      destruct (chunkedReader.hexValue b) as [d|] eqn:Hd; try congruence;
      apply (hexValue_plain b d Hd). }
  destruct Hplain as [Hsemi Hsp].
  assert (Htrim_h : chunkedReader.trimLeadingRev (rev h) = rev h).
  { destruct (rev h) as [|c t] eqn:Hr; [reflexivity|].
    assert (Hc : chunkedReader.isASCIISpace c = false).
    { apply Forall_rev in Hsp. rewrite Hr in Hsp. inversion Hsp; assumption. }
    cbn. rewrite Hc. reflexivity. }
  assert (Hcut : forall e, chunkedReader.removeChunkExtension (h ++ e) = h ->
                           True) by auto.
  unfold chunkedReader.trimTrailingWhitespace.
  destruct Htail as [Hws | [ext ->]].
  - rewrite rev_app_distr.
    assert (Hgo : chunkedReader.trimLeadingRev (rev tail ++ rev h) = rev h).
    { apply Forall_rev in Hws. revert Hws. generalize (rev tail). intros x Hx.
      induction x as [|a x IH]; [exact Htrim_h|].
      inversion Hx as [|? ? Ha Hx']; subst. cbn. rewrite Ha. exact (IH Hx'). }
    rewrite Hgo, rev_involutive.
    unfold chunkedReader.removeChunkExtension, Cut.
    change (B ";") with [";"%char]. rewrite (Index_byte_none h ";"%char Hsemi). reflexivity.
  - rewrite rev_app_distr. cbn [rev]. rewrite <- app_assoc. cbn [app].
    rewrite trimLeadingRev_stop by reflexivity.
    rewrite rev_app_distr. cbn [rev app]. rewrite rev_involutive, <- app_assoc. cbn [app].
    unfold chunkedReader.removeChunkExtension, Cut.
    change (B ";") with [";"%char].
    rewrite (Index_byte_first h _ ";"%char Hsemi). cbn [fst].
    apply take_app_length.
Qed.

Lemma size_line_extension_witness :
  chunkedReader.removeChunkExtension
    (chunkedReader.trimTrailingWhitespace (B "1A" ++ B ";name=value" ++ CRLF)) = B "1A".
Proof.
  apply (size_line_extension (B "1A") (B ";name=value" ++ CRLF)).
  - repeat constructor; discriminate.
  - right. eexists. reflexivity.
Defined.

(** An error that the chunked reader has reported stays, [io.EOF]
    included: every later [Read] gives no byte and the same error, and
    does not read from the source. *)
Theorem chunkedReader_error_sticky {R : Type} `{!io.Reader R}
    (fuel : nat) (cp cp' : chunkedReader.t) (rd rd' : R) (n : nat) (data : bytes) (e : error) :
  chunkedReader.Read fuel cp rd n = Some (data, Some e, cp', rd') ->
  forall fuel' m, exists cp'',
    chunkedReader.Read fuel' cp' rd' m = Some ([], Some e, cp'', rd') /\
    chunkedReader.err cp'' = Some e.
Proof.
  unfold chunkedReader.Read.
  destruct (chunkedReader.readLoop fuel _ rd) as [[c1 r1]|]; [|discriminate].
  intros [= _ He <- <-] fuel' m.
  match goal with |- context [chunkedReader.readLoop fuel' ?c0 r1] =>
    assert (Hdone : chunkedReader.readLoop fuel' c0 r1 = Some (c0, r1))
      by (destruct fuel'; cbn [chunkedReader.readLoop chunkedReader.err]; rewrite He;
          reflexivity);
    rewrite Hdone; exists c0 end.
  cbn. split; [rewrite He; reflexivity | exact He].
Qed.

Lemma chunkedReader_error_sticky_witness :
  exists cp' rd',
    chunkedReader.Read 10 chunkedReader.NewChunkedReader ([B "zz" ++ CRLF] : pieces) 8
    = Some ([], Some (ErrorString "invalid byte in chunk length"), cp', rd') /\
    forall fuel' m, exists cp'',
      chunkedReader.Read fuel' cp' rd' m
      = Some ([], Some (ErrorString "invalid byte in chunk length"), cp'', rd') /\
      chunkedReader.err cp'' = Some (ErrorString "invalid byte in chunk length").
Proof.
  destruct (chunkedReader.Read 10 chunkedReader.NewChunkedReader ([B "zz" ++ CRLF] : pieces) 8)
    as [[[[data e] cp'] rd']|] eqn:Hread.
  - assert (Hde : data = [] /\ e = Some (ErrorString "invalid byte in chunk length")).
    { assert (Hc : option_map (fun x => (x.1.1.1, x.1.1.2))
                     (chunkedReader.Read 10 chunkedReader.NewChunkedReader
                        ([B "zz" ++ CRLF] : pieces) 8)
                   = Some ([], Some (ErrorString "invalid byte in chunk length")))
        by (vm_compute; reflexivity).
      rewrite Hread in Hc. cbn in Hc. split; congruence. }
    destruct Hde as [-> ->]. exists cp', rd'. split; [reflexivity|].
    exact (chunkedReader_error_sticky 10 chunkedReader.NewChunkedReader cp'
             ([B "zz" ++ CRLF] : pieces) rd' 8 []
             (ErrorString "invalid byte in chunk length") Hread).
  - exfalso.
    assert (Hc : chunkedReader.Read 10 chunkedReader.NewChunkedReader
                   ([B "zz" ++ CRLF] : pieces) 8 <> None) by (vm_compute; discriminate).
    exact (Hc Hread).
Defined.

(** A stream of chunks that fits the 4096-byte buffer and arrives in one
    piece comes out of one [Read] byte for byte, size lines and line ends
    included, with [io.EOF]; the sizes may be spelled in any way
    [parseHexUint] reads. *)
Theorem chunked_stream_passes_through (l : list (bytes * bytes)) (n fuel : nat) :
  Forall stream.validFrame l ->
  (length (stream.frames l) <= bufio.defaultBufSize)%nat ->
  (length (stream.frames l) <= n)%nat ->
  (2 * length l + 4 <= fuel)%nat ->
  (exists cp',
     chunkedReader.Read fuel chunkedReader.NewChunkedReader [stream.frames l] n
     = Some (stream.frames l, Some EOF, cp', ([] : pieces))) /\
  chunkedReader.readToEnd 1 fuel n chunkedReader.NewChunkedReader [stream.frames l]
  = Some (stream.frames l, EOF).
Proof.
  intros Hv Hbuf Hn Hfuel. split.
  - apply chunkedReader_whole_stream; assumption.
  - apply readToEnd_whole_stream; assumption.
Qed.

Lemma chunked_stream_passes_through_witness :
  let l := [(B "0A", B "0123456789"); (B "3", B "abc")] in
  (exists cp',
     chunkedReader.Read 8 chunkedReader.NewChunkedReader [stream.frames l] 64
     = Some (stream.frames l, Some EOF, cp', ([] : pieces))) /\
  chunkedReader.readToEnd 1 8 64 chunkedReader.NewChunkedReader [stream.frames l]
  = Some (stream.frames l, EOF).
Proof.
  cbv zeta.
  apply (chunked_stream_passes_through [(B "0A", B "0123456789"); (B "3", B "abc")] 64 8).
  - repeat constructor; cbn; discriminate.
  - apply Nat.leb_le. reflexivity.
  - apply Nat.leb_le. reflexivity.
  - cbn. lia.
Defined.

(** ** eofReader.go *)

(** The wrapper hands on what the wrapped reader gives, bytes and errors
    alike, and its flag is set from the first read on that reported
    [io.EOF] and never cleared. *)
Theorem eofReader_flag {R : Type} `{!io.Reader R} (sizes : list nat) :
  forall (rd : R) (flag : bool),
  readSeq (eofReader.mk rd flag) sizes =
  ((readSeq rd sizes).1,
   eofReader.mk (readSeq rd sizes).2
     (flag || existsb (fun res => isEOF res.2) (readSeq rd sizes).1)).
Proof.
  induction sizes as [|n sizes IH]; intros rd flag.
  - cbn. rewrite orb_false_r. reflexivity.
  - cbn [readSeq]. unfold io.Read at 1, eofReader.Read. cbn [eofReader.r eofReader.EOF].
    destruct (io.Read rd n) as [[data e] rd'].
    rewrite IH. destruct (readSeq rd' sizes) as [rest rd''].
    cbn [fst snd existsb]. f_equal. f_equal.
    destruct (isEOF e), flag; reflexivity.
Qed.

(** ** main.go: the delay of the accept loop *)

Lemma nextDelay_backoff (k : nat) :
  accept.nextDelay (match k with O => 0%Z | S k' => backoff k' end) = backoff k.
Proof.
  unfold accept.nextDelay, backoff, accept.Second, accept.Millisecond.
  destruct k as [|k].
  - reflexivity.
  - assert (Hpow : (0 < 2 ^ Z.of_nat k)%Z) by (apply Z.pow_pos_nonneg; lia).
    rewrite Nat2Z.inj_succ, Z.pow_succ_r by lia.
    destruct (Z.eqb_spec (Z.min (5 * 1000000 * 2 ^ Z.of_nat k) (1000 * 1000000)) 0); [lia|].
    rewrite wrap64_small by lia.
    destruct (Z.ltb_spec (1 * (1000 * 1000000))
                (Z.min (5 * 1000000 * 2 ^ Z.of_nat k) (1000 * 1000000) * 2)); lia.
Qed.

(** The accept loop never sets its delay back: the [k]-th temporary
    error of a run is followed by a sleep of 5 ms doubled [k-1] times and
    cut at one second, however many connections were accepted in
    between. *)
Theorem accept_delays (results : list accept.result) :
  sleeps (accept.run 0 results)
  = map backoff (seq 0 (length (filter (fun res => isTemporary res = true) results))).
Proof.
  change 0%Z with (match 0%nat with O => 0%Z | S k' => backoff k' end).
  generalize 0%nat as k.
  induction results as [|res rest IH]; intros k; [reflexivity|].
  destruct res; cbn [accept.run accept.step].
  - cbn [sleeps]. rewrite filter_cons_False by (cbn; discriminate).
    apply IH.
  - rewrite nextDelay_backoff. cbn [sleeps].
    rewrite filter_cons_True by reflexivity. cbn [length seq map]. f_equal.
    apply (IH (S k)).
  - cbn [sleeps]. rewrite filter_cons_False by (cbn; discriminate).
    apply IH.
Qed.

(** After [ReadHeadersIfNeeded] has run without error, [GetHost] and
    [GetURLPath] leave the processor it left. *)
Lemma GetHost_after {R : Type} `{!io.Reader R} `{!net.Lib} (h h1 : httpProcessor.t R) :
  httpProcessor.ReadHeadersIfNeeded h = (None, h1) ->
  httpProcessor.GetHost h = ((httpProcessor.GetHost h).1, h1).
Proof.
  intros Hread. unfold httpProcessor.GetHost. rewrite Hread.
  destruct (httpProcessor.URL h1) as [u|]; [|reflexivity].
  destruct (negb _); reflexivity.
Qed.

Lemma GetURLPath_after {R : Type} `{!io.Reader R} `{!net.Lib} (h h1 : httpProcessor.t R) :
  httpProcessor.ReadHeadersIfNeeded h = (None, h1) ->
  processorOps.GetURLPath h = ((processorOps.GetURLPath h).1, h1).
Proof.
  intros Hread. unfold processorOps.GetURLPath. rewrite Hread.
  destruct (httpProcessor.URL h1) as [u|]; reflexivity.
Qed.

(** ** The properties above on sample messages *)

Lemma Read_error_sticky_witness :
  exists e h',
    httpProcessor.Read (seeded ([] : pieces) (sample.buffer 64) []) 8 = ([], Some e, h') /\
    (forall m, httpProcessor.Read h' m = ([], Some e, h')) /\
    (forall m, httpProcessor.Read (processorOps.Close (seeded ([] : pieces) (sample.buffer 64) [])) m
               = ([], Some ErrUnexpectedEOF,
                  processorOps.Close (seeded ([] : pieces) (sample.buffer 64) []))).
Proof.
  destruct (httpProcessor.Read (seeded ([] : pieces) (sample.buffer 64) []) 8)
    as [[data e] h'] eqn:Hread.
  assert (Hde : data = [] /\ e <> None).
  { assert (Hc : let x := httpProcessor.Read (seeded ([] : pieces) (sample.buffer 64) []) 8 in
                 x.1.1 = [] /\ x.1.2 <> None) by (vm_compute; split; [reflexivity|discriminate]).
    cbv zeta in Hc. rewrite Hread in Hc. exact Hc. }
  destruct Hde as [-> He]. destruct e as [e|]; [|congruence].
  exists e, h'. split; [reflexivity|].
  exact (Read_error_sticky (seeded ([] : pieces) (sample.buffer 64) []) 8 [] e h' Hread).
Defined.

Lemma GetURLPath_after_headers_witness :
  (processorOps.GetURLPath (sample.fresh messages.withReferer 128 [])).1 = inl (B "/a/b").
Proof.
  assert (Hread : httpProcessor.ReadHeadersIfNeeded (sample.fresh messages.withReferer 128 [])
                  = (None, sample.parsed messages.withReferer 128 []))
    by (apply parsed_ok; vm_compute; reflexivity).
  etransitivity.
  - exact (GetURLPath_after_headers (R := pieces) [messages.withReferer] (sample.buffer 128) []
             (sample.parsed messages.withReferer 128 []) 21 Hread
             ltac:(vm_compute; reflexivity)).
  - vm_compute. reflexivity.
Defined.

Lemma GetReferer_after_headers_witness :
  (processorOps.GetReferer (sample.fresh messages.withReferer 128 [])).1
  = inl (B "http://domain.io/abc/").
Proof.
  assert (Hread : httpProcessor.ReadHeadersIfNeeded (sample.fresh messages.withReferer 128 [])
                  = (None, sample.parsed messages.withReferer 128 []))
    by (apply parsed_ok; vm_compute; reflexivity).
  destruct (GetReferer_after_headers (R := pieces) [messages.withReferer] (sample.buffer 128) []
              (sample.parsed messages.withReferer 128 []) Hread)
    as (i & d & mime & Hi & Hd & Hm & _ & Hr).
  header_value Hi Hd Hm (B "Referer") (Some [B "http://domain.io/abc/"]) Href.
  etransitivity; [exact Hr|]. rewrite Href. reflexivity.
Defined.

Lemma processor_passes_stream_witness :
  (exists hf, processorOps.readAll 200 16 (httpProcessor.ReadHeadersIfNeeded
                                             (seeded messages.upgrade (sample.buffer 128) [])).2
              = Some (concat messages.upgrade, EOF, hf)) /\
  (exists hf, processorOps.bodyReadAll 200 0 16 (httpProcessor.ReadHeadersIfNeeded
                                                   (seeded messages.upgrade (sample.buffer 128) [])).2
              = Done (concat messages.upgrade, EOF, hf)).
Proof.
  destruct (httpProcessor.ReadHeadersIfNeeded (seeded messages.upgrade (sample.buffer 128) []))
    as [e h1] eqn:Hread.
  assert (Hfacts : e = None /\ httpProcessor.headerBodyReader h1 = httpProcessor.selfReader).
  { assert (Hc : let x := httpProcessor.ReadHeadersIfNeeded
                            (seeded messages.upgrade (sample.buffer 128) []) in
                 x.1 = None /\ httpProcessor.headerBodyReader x.2 = httpProcessor.selfReader)
      by (vm_compute; split; reflexivity).
    cbv zeta in Hc. rewrite Hread in Hc. exact Hc. }
  destruct Hfacts as [-> Hself]. cbn [snd].
  destruct (processor_passes_stream messages.upgrade (sample.buffer 128) [] h1 16 200 0
              ltac:(vm_compute; reflexivity) Hread ltac:(lia)
              ltac:(apply Nat.ltb_lt; vm_compute; reflexivity)) as [Hall Hbody].
  split; [exact Hall | exact (Hbody Hself)].
Defined.

Lemma body_reader_limit_witness :
  exists hf, processorOps.bodyReadAll 200 0 16 (httpProcessor.ReadHeadersIfNeeded
                                                  (seeded messages.withBody (sample.buffer 128) [])).2
             = Done (sample.line "POST /a HTTP/1.1" ++ sample.line "Host: domain.io" ++
                     sample.line "Content-Length: 5" ++ CRLF ++ B "hello", EOF, hf).
Proof.
  destruct (httpProcessor.ReadHeadersIfNeeded (seeded messages.withBody (sample.buffer 128) []))
    as [e h1] eqn:Hread.
  assert (Hfacts : e = None /\ httpProcessor.headerBodyReader h1 = httpProcessor.limitReader 61).
  { assert (Hc : let x := httpProcessor.ReadHeadersIfNeeded
                            (seeded messages.withBody (sample.buffer 128) []) in
                 x.1 = None /\ httpProcessor.headerBodyReader x.2 = httpProcessor.limitReader 61)
      by (vm_compute; split; reflexivity).
    cbv zeta in Hc. rewrite Hread in Hc. exact Hc. }
  destruct Hfacts as [-> Hlim]. cbn [snd].
  destruct (body_reader_limit messages.withBody (sample.buffer 128) [] h1 61 16 0 200
              ltac:(vm_compute; reflexivity) Hread Hlim ltac:(lia)
              ltac:(apply Nat.ltb_lt; vm_compute; reflexivity)) as [_ [hf Hf]].
  exists hf. rewrite Hf. reflexivity.
Defined.

Lemma replaceHeader_rewrites_witness :
  exists h',
    httpProcessor.replaceHeader (B "Host") (B "localhost:3000")
      (sample.parsed sample.plainRequest 64 []) = Done h' /\
    take 41 (httpProcessor.buf h')
    = sample.line "GET /a HTTP/1.1" ++ sample.line "Host: localhost:3000" ++ CRLF /\
    httpProcessor.headers h' = Some {[ B "Host" := [B "localhost:3000"] ]} /\
    httpProcessor.bufWritePos h' = 41%Z /\ httpProcessor.bodyStartsIndex h' = 41%Z.
Proof.
  destruct (replaceHeader_rewrites (R := pieces) (sample.parsed sample.plainRequest 64 [])
              {[ B "Host" := [B "domain.io"] ]}
              (B "Host") (B "domain.io") (B "localhost:3000")
              (B "GET /a HTTP/1.1" ++ [CR]) (B " ") [CR] (CRLF ++ repeat zero 28)
              ltac:(vm_compute; reflexivity) ltac:(vm_compute; reflexivity)
              ltac:(vm_compute; reflexivity) ltac:(vm_compute; reflexivity)
              ltac:(vm_compute; reflexivity) ltac:(vm_compute; reflexivity)
              ltac:(vm_compute; reflexivity)
              ltac:(repeat constructor; discriminate)
              ltac:(vm_compute; reflexivity))
    as (h' & Hr & Hb & Hh & Hw & Hs & _).
  exists h'. split; [exact Hr|]. rewrite Hb, Hh, Hw, Hs.
  split; [vm_compute; reflexivity|]. split; [vm_compute; reflexivity|].
  split; vm_compute; reflexivity.
Defined.

Lemma replaceHttpRequestURL_rewrites_witness :
  let h' := processorOps.replaceHttpRequestURL messages.urlParse (B "/b/c")
              (sample.parsed sample.plainRequest 64 []) in
  take 38 (httpProcessor.buf h')
  = sample.line "GET /b/c HTTP/1.1" ++ sample.line "Host: domain.io" ++ CRLF /\
  httpProcessor.requestRawURI h' = B "/b/c" /\
  httpProcessor.URL h' = Some (toy.mkURL (B "/b/c") []) /\
  httpProcessor.bufWritePos h' = 38%Z.
Proof.
  cbv zeta.
  destruct (replaceHttpRequestURL_rewrites (R := pieces) messages.urlParse
              (sample.parsed sample.plainRequest 64 [])
              (toy.mkURL (B "/a") []) (toy.mkURL (B "/b/c") [])
              (B "GET") (B "/a") (B "/b/c") (B " HTTP/1.1" ++ [CR])
              (sample.line "Host: domain.io" ++ CRLF ++ repeat zero 28)
              ltac:(vm_compute; reflexivity) ltac:(vm_compute; reflexivity)
              ltac:(vm_compute; reflexivity) ltac:(vm_compute; reflexivity)
              ltac:(vm_compute; reflexivity) ltac:(vm_compute; reflexivity)
              ltac:(vm_compute; reflexivity) ltac:(vm_compute; reflexivity)
              ltac:(vm_compute; reflexivity)
              ltac:(constructor; reflexivity)
              ltac:(repeat constructor; discriminate)
              ltac:(repeat constructor; discriminate))
    as (Hb & Hu & HU & Hw & _).
  rewrite Hb, Hu, HU, Hw.
  split; [vm_compute; reflexivity|]. split; [reflexivity|]. split; [reflexivity|].
  vm_compute. reflexivity.
Defined.

Lemma replaceHttpRequestURL_refused_witness :
  let h := sample.parsed sample.plainRequest 64 [] in
  let h' := processorOps.replaceHttpRequestURL messages.urlParse (B "b c") h in
  httpProcessor.URL h' = None /\ httpProcessor.buf h' = httpProcessor.buf h /\
  httpProcessor.requestRawURI h' = B "/a" /\
  (processorOps.GetURLPath h').1 = inr (ErrorString "could not find URL path").
Proof.
  cbv zeta.
  destruct (replaceHttpRequestURL_refused (R := pieces) messages.urlParse
              (sample.parsed sample.plainRequest 64 [])
              (toy.mkURL (B "/a") []) (B "b c")
              ltac:(vm_compute; reflexivity) ltac:(vm_compute; reflexivity)
              ltac:(vm_compute; reflexivity) ltac:(vm_compute; reflexivity)
              ltac:(vm_compute; reflexivity))
    as (HU & Hb & Hu & Hp).
  split; [exact HU|]. split; [exact Hb|]. split; [|exact Hp].
  rewrite Hu. vm_compute. reflexivity.
Defined.

Lemma route_after_acquire_witness :
  let res := forward.acquireTunnelName (B "conn1") (B "localhost") 80 (B "s1") (B "c1")
               (B "abc") None (B "http") (∅ : gmap bytes forward.sshTunnelsListenerData)
               (B "ABCDEFGH") in
  let entry := forward.mkTunnel (B "conn1") (B "localhost", 80%Z) (B "s1") (B "c1") None
                 (B "http") in
  let addr := forward.addrOf (B "localhost") 80 in
  let h := sample.fresh messages.routed 128 [] in
  let h' := sample.parsed messages.routed 128 [] in
  processorOps.routeRequest false (B "domain.io") [] false addr (forward.tunnels' res) h
  = (processorOps.Routed (B "abc") entry, h') /\
  processorOps.routeRequest true (B "domain.io") [] false addr (forward.tunnels' res) h
  = (processorOps.Routed (B "abc") entry, h').
Proof.
  cbv zeta.
  assert (Hg : forward.granted
                 (forward.acquireTunnelName (B "conn1") (B "localhost") 80 (B "s1") (B "c1")
                    (B "abc") None (B "http")
                    (∅ : gmap bytes forward.sshTunnelsListenerData) (B "ABCDEFGH"))
               = Some (B "abc")) by (vm_compute; reflexivity).
  assert (Hcl : (httpProcessor.GetContentLength (sample.parsed messages.routed 128 [])).2 = true)
    by (vm_compute; reflexivity).
  assert (Hread : httpProcessor.ReadHeadersIfNeeded (sample.fresh messages.routed 128 [])
                  = (None, sample.parsed messages.routed 128 []))
    by (apply parsed_ok; vm_compute; reflexivity).
  assert (Hh : (httpProcessor.GetHost (sample.fresh messages.routed 128 [])).1
               = inl (B "abc" ++ "."%char :: B "domain.io" ++ []))
    by (vm_compute; reflexivity).
  assert (Hp : (processorOps.GetURLPath (sample.fresh messages.routed 128 [])).1
               = inl ([] ++ B "/" ++ B "abc" ++ B "/x"))
    by (vm_compute; reflexivity).
  destruct (route_after_acquire (R := pieces) (B "conn1") (B "localhost") 80 (B "s1") (B "c1")
              (B "abc") None (B "http") (∅ : gmap bytes forward.sshTunnelsListenerData)
              (B "ABCDEFGH") (B "abc") (B "domain.io") [] false
              (sample.fresh messages.routed 128 []) (sample.parsed messages.routed 128 [])
              Hg Hcl)
    as [Hhost Hpath].
  split.
  - apply (Hhost "."%char []).
    + repeat constructor.
    + rewrite (GetHost_after _ _ Hread), Hh. reflexivity.
    + vm_compute. reflexivity.
  - apply (Hpath (B "/x")).
    + repeat constructor.
    + rewrite (GetURLPath_after _ _ Hread), Hp. reflexivity.
    + left. reflexivity.
    + right. eexists. reflexivity.
Defined.
